(** * pyxem / fpd_data_processing: chunked iteration and PDF transforms

    A shallow embedding of

    - [src/fpd_data_processing/lazy_tools.py]: the chunk-index mapper
      [_get_dask_chunk_slice_list] and the chunked-apply driver
      [_calculate_function_on_dask_array];
    - [src/pyxem/utils/pdf_utils.py]: [normalise_pdf_signal_to_max],
      [damp_ri_lorch], [damp_ri_low_q_region_erfc] and the two scattering
      curve synthesizers.

    NumPy's [float64] is IEEE 754 binary64, which is what the kernel's
    primitive floats are: array elements are values of [float], and the
    arithmetic of the model is the arithmetic of the program.  Python
    exceptions are the [Err] results of an error monad. *)

From Stdlib Require Import ZArith List Bool Lia Floats.
From stdpp Require Import base option list strings gmap.

Set Default Proof Using "Type".
#[local] Set Warnings "-inexact-float,-clear-no-such-hyp".
Open Scope float_scope.

(** ** Python values shared by both modules *)

Module Py.

(** The exception classes the modelled code can raise. *)
Inductive exn : Set :=
| NotImplementedError
| AttributeError
| TypeError
| ValueError
| IndexError
| KeyError
| NameError
| ZeroDivisionError.

(** The outcome of a call: a value, or a raised exception. *)
Inductive result (A : Type) : Type :=
| Ok (a : A)
| Err (e : exn).
Arguments Ok {A} a.
Arguments Err {A} e.

#[export] Instance result_ret : MRet result := fun _ a => Ok a.
#[export] Instance result_bind : MBind result := fun _ _ k m =>
  match m with
  | Ok a => k a
  | Err e => Err e
  end.
#[export] Instance result_fmap : FMap result := fun _ _ g m =>
  match m with
  | Ok a => Ok (g a)
  | Err e => Err e
  end.

Definition raises {A} (m : result A) : Prop :=
  match m with
  | Ok _ => False
  | Err _ => True
  end.

Definition returns {A} (m : result A) : Prop :=
  match m with
  | Ok _ => True
  | Err _ => False
  end.

(** [seq[i]] on a Python sequence, for a non-negative [i]. *)
Definition getitem {A} (l : list A) (i : nat) : result A :=
  match l !! i with
  | Some a => Ok a
  | None => Err IndexError
  end.

(** [seq[:-2]]: everything but the last two items (nothing, when there are
    fewer than three). *)
Definition but_last_two {A} (l : list A) : list A :=
  take (length l - 2) l.

(** [seq[start:]] for a Python integer [start]: a negative start counts
    from the end, and both ends are clipped to the sequence. *)
Definition slice_from {A} (l : list A) (start : Z) : list A :=
  let n := Z.of_nat (length l) in
  let first := if (start <? 0)%Z then Z.max 0 (n + start) else start in
  drop (Z.to_nat first) l.

(** [enumerate(seq)]. *)
Definition enumerate {A} (l : list A) : list (nat * A) :=
  zip (seq 0 (length l)) l.

(** Running a loop body over a list, threading the loop state and
    stopping at the first exception. *)
Fixpoint for_each {A S} (body : S -> A -> result S) (l : list A) (s : S)
  : result S :=
  match l with
  | [] => Ok s
  | a :: l' =>
      match body s a with
      | Ok s' => for_each body l' s'
      | Err e => Err e
      end
  end.

End Py.
Import Py.

(** ** binary64 numbers *)

Module Float64.

(** The conversion of a machine integer to [float64] (correctly rounded;
    exact below 2^53). *)
Definition of_Z (z : Z) : float :=
  SF2Prim (binary_normalize prec emax z 0 false).

Definition of_nat (n : nat) : float := of_Z (Z.of_nat n).

(** [np.pi]. *)
Definition pi : float := 0x1.921fb54442d18p+1.

(** [np.finfo(np.float64).max]. *)
Definition max_float : float := 0x1.fffffffffffffp+1023.

(** [x] is a zero of either sign, or NaN. *)
Definition zero_or_nan (x : float) : bool :=
  match Prim2SF x with
  | S754_zero _ | S754_nan => true
  | _ => false
  end.

(** [np.isfinite]. *)
Definition finite (x : float) : bool :=
  negb (is_nan x) && negb (x =? infinity) && negb (x =? neg_infinity).

(** [x / y] for Python floats: division by a zero of either sign raises.
    (When an operand is a NumPy [float64] the division is NumPy's, which
    raises nothing.) *)
Definition py_div (x y : float) : result float :=
  if y =? 0 then Err ZeroDivisionError else Ok (x / y).

(** Equality of array elements as NumPy's [assert_array_equal] reads it:
    [==], with NaN equal to NaN.  It identifies the two zeros. *)
Definition same_value (x y : float) : Prop :=
  x = y \/ (x =? y) = true.

End Float64.

(** ** NumPy arrays *)

Module Np.

(** A dense array: its shape and its elements in row-major (C) order.  A
    0-d array has shape [[]] and one element. *)
Record ndarray : Set := NdArray {
  nd_shape : list nat;
  nd_data : list float
}.

(** Number of elements of an array of shape [shp]. *)
Definition size_of (shp : list nat) : nat := foldr Nat.mul 1%nat shp.

(** [np.zeros(shp)]. *)
Definition zeros (shp : list nat) : ndarray :=
  NdArray shp (replicate (size_of shp) 0).

(** What a per-frame function hands back: a number, or a 1-d array. *)
Inductive frame_result : Set :=
| RScalar (x : float)
| RVector (v : list float).

(** Position, in the row-major data, of the sub-array that the integer
    indices [idx] select in an array of shape [shp].  An index past its axis,
    or more indices than axes, is an [IndexError]. *)
Fixpoint flat_offset (shp idx : list nat) : result nat :=
  match idx, shp with
  | [], _ => Ok 0%nat
  | i :: idx', n :: shp' =>
      if (i <? n)%nat
      then o ← flat_offset shp' idx'; Ok (i * size_of shp' + o)%nat
      else Err IndexError
  | _ :: _, [] => Err IndexError
  end.

(** The values written by an assignment of [v] to a sub-array of shape
    [slot], by NumPy's broadcasting: a number fills the slot; a 1-d array
    must match the slot's last axis or have one element.  A single element
    takes a number only: a 1-d array, even of one element, is a sequence
    there and is refused (its conversion to a number, deprecated since
    NumPy 1.25, is gone). *)
Definition broadcast_to (v : frame_result) (slot : list nat)
  : result (list float) :=
  match v with
  | RScalar x => Ok (replicate (size_of slot) x)
  | RVector l =>
      match last slot with
      | None => Err ValueError
      | Some n =>
          if (length l =? n)%nat
          then Ok (mjoin (replicate (size_of slot / n) l))
          else match l with
               | [x] => Ok (replicate (size_of slot) x)
               | _ => Err ValueError
               end
      end
  end.

(** Overwriting [vals] into [data] from position [o] on. *)
Definition overwrite (data : list float) (o : nat) (vals : list float)
  : list float :=
  take o data ++ vals ++ drop (o + length vals) data.

(** [a[idx] = v] and, with [colon], [a[idx, :] = v]: the explicit [:] asks
    for one more axis than there are indices. *)
Definition setitem (a : ndarray) (idx : list nat) (colon : bool)
  (v : frame_result) : result ndarray :=
  if colon && (length (nd_shape a) <=? length idx)%nat
  then Err IndexError
  else
    o ← flat_offset (nd_shape a) idx;
    vals ← broadcast_to v (drop (length idx) (nd_shape a));
    Ok (NdArray (nd_shape a) (overwrite (nd_data a) o vals)).

(** [a[idx]] for a full tuple of integer indices. *)
Definition item (a : ndarray) (idx : list nat) : result float :=
  if (length idx =? length (nd_shape a))%nat
  then o ← flat_offset (nd_shape a) idx; getitem (nd_data a) o
  else Err IndexError.

(** The data of an array after the elements at the positions [offs] have
    been set, one after the other, to the values [G] gives them. *)
Definition write_all (G : nat -> float) (offs : list nat) (d : list float)
  : list float :=
  foldl (fun d o => <[o := G o]> d) d offs.

(** [np.arange(n, dtype='float64')]. *)
Definition arange (n : nat) : list float := map Float64.of_nat (seq 0 n).

(** [np.square]. *)
Definition square (x : float) : float := x * x.

(** [np.nan_to_num] on one element: NaN becomes 0 and the infinities the
    largest finite numbers of their sign. *)
Definition nan_to_num (x : float) : float :=
  if is_nan x then 0
  else if x =? infinity then Float64.max_float
  else if x =? neg_infinity then - Float64.max_float
  else x.

(** One step of the [np.max] reduction as NumPy's scalar loop does it,
    [(acc >= x || isnan(acc)) ? acc : x]: a NaN, once met, stays.  Of two
    zeros of opposite sign this keeps the first; NumPy's vectorised loops
    may keep the other, and nothing below depends on the sign of a zero
    maximum. *)
Definition maximum (acc x : float) : float :=
  if (x <=? acc) || is_nan acc then acc else x.

(** [np.max] of a 1-d array; the empty array has no maximum. *)
Definition max (a : list float) : result float :=
  match a with
  | [] => Err ValueError
  | x :: a' => Ok (fold_left maximum a' x)
  end.

(** [a * b] for 1-d arrays, with broadcasting: equal lengths multiply
    element by element, a one-element operand is stretched, anything else
    cannot be broadcast. *)
Definition multiply (a b : list float) : result (list float) :=
  if (length a =? length b)%nat then Ok (zip_with PrimFloat.mul a b)
  else match a, b with
       | [x], _ => Ok (map (PrimFloat.mul x) b)
       | _, [y] => Ok (map (fun x => x * y) a)
       | _, _ => Err ValueError
       end.

End Np.

(** ** [fpd_data_processing/lazy_tools.py] *)

Module LazyTools.
Import Np.

(** One entry of an index expression written with [np.s_]. *)
Inductive pyslice : Set :=
| slice (start stop : nat)
| slice_all.

(** [np.s_[a:b, :, :]] is a tuple of slices: one chunk's window. *)
Abbreviation window := (list pyslice).

(** The signal data at one navigation position: a 2-d array, by rows. *)
Definition frame : Set := list (list float).

(** A dask array, as far as the two functions look at it: its shape, its
    tuple of per-axis chunk sizes, and (lazily) the frame stored at each
    navigation coordinate. *)
Record dask_array : Set := DaskArray {
  shape : list nat;
  chunks : list (list nat);
  frame_at : list nat -> frame
}.

(** What dask guarantees of every array: one chunk list per axis, and the
    chunks of an axis add up to its length. *)
Definition well_formed (a : dask_array) : Prop :=
  length (chunks a) = length (shape a) /\
  Forall2 (fun chunk_list n => sum_list chunk_list = n) (chunks a) (shape a).

(** Lines 30-35: the boundary pairs of one axis, [current_v] being the
    running offset. *)
Fixpoint temp_slice_dim (current_v : nat) (chunk_list : list nat)
  : list (nat * nat) :=
  match chunk_list with
  | [] => []
  | chunk :: rest =>
      (current_v, current_v + chunk)%nat
        :: temp_slice_dim (current_v + chunk) rest
  end.

(** Lines 24-27 and 83-85: the rank check shared by both functions. *)
Definition unsupported_rank (a : dask_array) : bool :=
  (length (shape a) =? 2)%nat || (4 <? length (shape a))%nat.

Definition _get_dask_chunk_slice_list (a : dask_array)
  : result (list window) :=
  if unsupported_rank a then Err NotImplementedError
  else
    let temp_slice_list :=
      map (temp_slice_dim 0) (but_last_two (chunks a)) in
    Ok match temp_slice_list with
       | [dim0] =>
           map (fun slice_t =>
                  [slice slice_t.1 slice_t.2; slice_all; slice_all]) dim0
       | [dim0; dim1] =>
           flat_map (fun slice_t0 =>
             map (fun slice_t1 =>
                    [slice slice_t0.1 slice_t0.2;
                     slice slice_t1.1 slice_t1.2; slice_all; slice_all])
                 dim1) dim0
       | _ => []
       end.

(** *** The driver *)

(** What the driver does that a caller can observe besides its result. *)
Inductive event : Set :=
| Allocate (shp : list nat)
| Materialize (w : window)
| Invoke (im : frame).

(** A computation that logs events and may raise. *)
Definition traced (A : Type) : Type :=
  list event -> list event * result A.

#[export] Instance traced_ret : MRet traced := fun _ a log => (log, Ok a).
#[export] Instance traced_bind : MBind traced := fun _ _ k m log =>
  match m log with
  | (log', Ok a) => k a log'
  | (log', Err e) => (log', Err e)
  end.

Definition tell (e : event) : traced unit :=
  fun log => (log ++ [e], Ok tt).

Definition lift {A} (r : result A) : traced A :=
  fun log => (log, r).

Definition run {A} (m : traced A) : list event * result A := m [].

(** A [for] loop in [traced], threading the loop state. *)
Fixpoint for_each_traced {A S} (body : S -> A -> traced S) (l : list A)
  (s : S) : traced S :=
  match l with
  | [] => mret s
  | a :: l' => s' ← body s a; for_each_traced body l' s'
  end.

(** The part of axis of length [n] that a slice selects:
    (first index, number of indices), clipped as Python clips. *)
Definition slice_indices (s : pyslice) (n : nat) : nat * nat :=
  match s with
  | slice start stop =>
      (Nat.min start n, Nat.min stop n - Nat.min start n)%nat
  | slice_all => (0, n)%nat
  end.

(** The rows and columns of a frame that two slices select. *)
Definition crop (rows cols : pyslice) (im : frame) : frame :=
  match rows, cols with
  | slice_all, slice_all => im
  | _, _ =>
      let r := slice_indices rows (length im) in
      map (fun row =>
             let c := slice_indices cols (length row) in
             take c.2 (drop c.1 row))
          (take r.2 (drop r.1 im))
  end.

(** A materialized chunk: its navigation shape, and its frames in
    row-major order. *)
Record data_slice : Set := DataSlice {
  ds_shape : list nat;
  ds_frames : list frame
}.

(** All index tuples of an array of shape [shp], in row-major order. *)
Fixpoint indices (shp : list nat) : list (list nat) :=
  match shp with
  | [] => [[]]
  | n :: shp' => flat_map (fun i => map (cons i) (indices shp')) (seq 0 n)
  end.

(** The [k]-th entry of an index expression; an expression shorter than
    the rank selects the remaining axes whole. *)
Definition entry (slice_chunk : window) (k : nat) : pyslice :=
  default slice_all (slice_chunk !! k).

(** Lines 94-95, [dask_array[slice_chunk].compute()]: the window is cut out
    of the array and its frames are brought into memory.  A window with
    more entries than the array has axes is an [IndexError]. *)
Definition compute (a : dask_array) (slice_chunk : window)
  : result data_slice :=
  if (length (shape a) <? length slice_chunk)%nat then Err IndexError
  else
    let nav := but_last_two (shape a) in
    let selected :=
      zip_with (fun n k => slice_indices (entry slice_chunk k) n)
               nav (seq 0 (length nav)) in
    let rows := entry slice_chunk (length nav) in
    let cols := entry slice_chunk (S (length nav)) in
    Ok (DataSlice (selected.*2)
          (map (fun local =>
                  crop rows cols
                       (frame_at a (zip_with Nat.add selected.*1 local)))
               (indices (selected.*2)))).

(** [data_slice[im_slice]] with one integer per navigation axis. *)
Definition frame_of (d : data_slice) (im_slice : list nat) : result frame :=
  if (length im_slice =? length (ds_shape d))%nat
  then o ← flat_offset (ds_shape d) im_slice; getitem (ds_frames d) o
  else Err IndexError.

(** [.start] of a window: the window is a tuple, and a tuple has no
    attribute [start] (line 103). *)
Definition tuple_start (slice_chunk : window) : result nat :=
  Err AttributeError.

(** [slice_chunk[k].start] (lines 115-116); [None] for a [:] entry, which
    cannot be added to an integer. *)
Definition entry_start (slice_chunk : window) (k : nat) : result nat :=
  s ← getitem slice_chunk k;
  match s with
  | slice start _ => Ok start
  | slice_all => Err TypeError
  end.

(** Lines 105-108 and 118-121: storing one frame's result. *)
Definition store (return_data : ndarray) (return_sig_size : nat)
  (i : list nat) (out_data : frame_result) : result ndarray :=
  if (return_sig_size =? 1)%nat
  then setitem return_data i false out_data
  else setitem return_data i true out_data.

(** Lines 99-108: the frames of a chunk with one navigation axis. *)
Definition process_frames_1 (function : frame -> frame_result)
  (return_sig_size : nat) (slice_chunk : window) (d : data_slice)
  (return_data : ndarray) : traced ndarray :=
  let im_slice_list :=
    map (fun im_slice0 => [im_slice0]) (seq 0 (ds_shape d !!! 0%nat)) in
  for_each_traced
    (fun return_data im_slice =>
       im ← lift (frame_of d im_slice);
       start ← lift (tuple_start slice_chunk);
       im_slice0 ← lift (getitem im_slice 0);
       let i := (start + im_slice0)%nat in
       tell (Invoke im);;
       let out_data := function im in
       lift (store return_data return_sig_size [i] out_data))
    im_slice_list return_data.

(** Lines 110-121: the frames of a chunk with two navigation axes. *)
Definition process_frames_2 (function : frame -> frame_result)
  (return_sig_size : nat) (slice_chunk : window) (d : data_slice)
  (return_data : ndarray) : traced ndarray :=
  let im_slice_list :=
    flat_map (fun im_slice0 =>
                map (fun im_slice1 => [im_slice0; im_slice1])
                    (seq 0 (ds_shape d !!! 1%nat)))
             (seq 0 (ds_shape d !!! 0%nat)) in
  for_each_traced
    (fun return_data im_slice =>
       im ← lift (frame_of d im_slice);
       start0 ← lift (entry_start slice_chunk 0);
       im_slice0 ← lift (getitem im_slice 0);
       let i_x := (start0 + im_slice0)%nat in
       start1 ← lift (entry_start slice_chunk 1);
       im_slice1 ← lift (getitem im_slice 1);
       let i_y := (start1 + im_slice1)%nat in
       tell (Invoke im);;
       let out_data := function im in
       lift (store return_data return_sig_size [i_x; i_y] out_data))
    im_slice_list return_data.

(** Lines 93-121: one iteration of the loop over the windows. *)
Definition process_chunk (a : dask_array) (function : frame -> frame_result)
  (return_sig_size : nat) (return_data : ndarray) (slice_chunk : window)
  : traced ndarray :=
  d ← lift (compute a slice_chunk);
  tell (Materialize slice_chunk);;
  match length (ds_shape d) with
  | 1 => process_frames_1 function return_sig_size slice_chunk d return_data
  | 2 => process_frames_2 function return_sig_size slice_chunk d return_data
  | _ => mret return_data
  end.

(** [func_args] is part of [function] here (a closure); [show_progressbar]
    is accepted and, as in the source, never read. *)
Definition _calculate_function_on_dask_array (a : dask_array)
  (function : frame -> frame_result) (return_sig_size : nat)
  (show_progressbar : bool) : traced ndarray :=
  if unsupported_rank a then lift (Err NotImplementedError)
  else
    let out_shape :=
      if (return_sig_size =? 1)%nat
      then but_last_two (shape a)
      else but_last_two (shape a) ++ [return_sig_size] in
    tell (Allocate out_shape);;
    slice_list ← lift (_get_dask_chunk_slice_list a);
    for_each_traced (process_chunk a function return_sig_size)
                    slice_list (zeros out_shape).

(** *** The reference computation

    Looping directly over all navigation coordinates: each frame is
    materialized on its own, the function is called on it, and its result is
    stored at that coordinate of a zero-initialized array. *)
Definition direct_loop (a : dask_array) (function : frame -> float)
  : result ndarray :=
  let nav := but_last_two (shape a) in
  for_each
    (fun return_data coordinate =>
       setitem return_data coordinate false
               (RScalar (function (frame_at a coordinate))))
    (indices nav) (zeros nav).

(** Position of the navigation coordinate [i, j] in the row-major data of
    an output with rows of length [n1]. *)
Definition offset_of (n1 : nat) (coordinate : list nat) : nat :=
  match coordinate with
  | [i; j] => (i * n1 + j)%nat
  | _ => 0%nat
  end.

(** The navigation coordinates of the frames of one window, in the order
    lines 110-113 visit them. *)
Definition coordinates_of (w : window) : list (list nat) :=
  match w with
  | [slice a0 b0; slice a1 b1; _; _] =>
      flat_map (fun i0 => map (fun i1 => [a0 + i0; a1 + i1]%nat)
                              (seq 0 (b1 - a1)))
               (seq 0 (b0 - a0))
  | _ => []
  end.

(** The function's value on the frame whose result is stored at position
    [p] of the output data. *)
Definition value_at (a : dask_array) (function : frame -> float)
  (n1 : nat) (p : nat) : float :=
  function (frame_at a [p / n1; p mod n1]%nat).

(** The output after the results for the coordinates [cs] have been
    stored, in that order. *)
Definition write_coordinates (G : nat -> float) (n1 : nat)
  (cs : list (list nat)) (return_data : ndarray) : ndarray :=
  NdArray (nd_shape return_data)
          (write_all G (map (offset_of n1) cs) (nd_data return_data)).

(** The output during the loops: an [n0] x [n1] array. *)
Definition output_of (n0 n1 : nat) (return_data : ndarray) : Prop :=
  nd_shape return_data = [n0; n1] /\
  length (nd_data return_data) = (n0 * n1)%nat.

(** The windows as the specification words them: the product of the two
    axes' boundary pairs, outer axis first, each with [:] on both signal
    axes. *)
Definition boundary_pairs (chunk_list : list nat) : list (nat * nat) :=
  map (fun k => (sum_list (take k chunk_list),
                 sum_list (take (S k) chunk_list)))
      (seq 0 (length chunk_list)).

Definition window_of (outer inner : nat * nat) : window :=
  [slice outer.1 outer.2; slice inner.1 inner.2; slice_all; slice_all].

End LazyTools.

(** ** [pyxem/utils/pdf_utils.py] *)

Module PdfUtils.
Import Np.

(** One row of a scattering-parameter table: the (amplitude, decay) pairs
    of an element. *)
Abbreviation params := (list (float * float)).

(** The module-level names the functions look up besides [np], each with the
    object it is bound to, if any: [special.erf] of [scipy], and the two
    tables of atomic scattering parameters, keyed by element symbol.  The
    tables are defined in modules of the package that are not among the
    embedded files; they are parameters here. *)
Record globals : Type := Globals {
  special : option (float -> float);
  ATOMIC_SCATTERING_PARAMS : option (gmap string params);
  ATOMIC_SCATTERING_PARAMS_LOBATO : option (gmap string params)
}.

(** The namespace of the file as it is written: its only import is
    [numpy as np]. *)
Definition pdf_utils_globals : globals := Globals None None None.

(** Reading a global name. *)
Definition global {A} (binding : option A) : result A :=
  match binding with
  | Some v => Ok v
  | None => Err NameError
  end.

(** Lines 39-40. *)
Definition normalise_pdf_signal_to_max (z : list float) (index_min : Z)
  : result (list float) :=
  max_val ← Np.max (slice_from z index_min);
  Ok (map (fun x => x / max_val) z).

(** Line 63. *)
Definition mask_from_pattern (z pattern : list float)
  : result (list float) :=
  multiply z pattern.

(** [s_scale * np.arange(s_size, dtype='float64')]. *)
Definition scattering_axis (s_scale : float) (s_size : nat) : list float :=
  map (fun i => s_scale * i) (arange s_size).

Section Ufuncs.

(** [np.sin] and [np.exp], the elementary functions of the C library. *)
Variables np_sin np_exp : float -> float.

(** Lines 211-216. *)
Definition damp_ri_lorch (z : list float) (s_max s_scale : float)
  (s_size : nat) : result (list float) :=
  delta ← Float64.py_div Float64.pi s_max;
  let damping_term :=
    map (fun s => np_sin (delta * s) / (delta * s))
        (scattering_axis s_scale s_size) in
  let damping_term := map nan_to_num damping_term in
  multiply z damping_term.

(** Lines 282-285. *)
Definition damp_ri_low_q_region_erfc (g : globals) (z : list float)
  (scale offset s_scale : float) (s_size : nat) : result (list float) :=
  let axis := scattering_axis s_scale s_size in
  erf ← global (special g);
  let damping_term := map (fun s => (erf (s * scale - offset) + 1) / 2) axis in
  multiply z damping_term.

(** Lines 89-90 and 141-142: one table row per element.  The table name is
    read in the loop body, once per element. *)
Definition lookup_params (table : option (gmap string params))
  (elements : list string) : result (list params) :=
  mapM (fun e =>
          t ← global table;
          match t !! e with
          | Some p => Ok p
          | None => Err KeyError
          end) elements.

(** Lines 103-105: one term of the Lobato curve at [x]. *)
Definition lobato_term (p : float * float) (x : float) : float :=
  p.1 * (2 + p.2 * square (2 * x))
  * (1 / square (1 + p.2 * square (2 * x))).

(** Line 155: one term of the International Tables curve at [x]. *)
Definition xtables_term (p : float * float) (x : float) : float :=
  p.1 * np_exp (- p.2 * square x).

(** Lines 101-105 and 153-155: [fi], the base curve of one element over
    the axis [x], summed term by term from [np.zeros]. *)
Definition base_curve (term : float * float -> float -> float)
  (element : params) (x : list float) : list float :=
  fold_left (fun fi p => zip_with PrimFloat.add fi (map (term p) x))
            element (replicate (length x) 0).

(** An array of shape (x_size, y_size, s_size), pixel by pixel: the
    curve of pixel (i, j) is row [i * y_size + j]. *)
Record curves : Set := Curves {
  c_shape : nat * nat * nat;
  c_rows : list (list float)
}.

(** [a += v]: the 1-d array [v] is added to every pixel's curve. *)
Definition add_to_every_pixel (a : list (list float)) (v : list float)
  : list (list float) :=
  map (fun row => zip_with PrimFloat.add row v) a.

(** Lines 100-108 and 152-158: the loop over the elements, accumulating
    [sum_squares] and [square_sum]. *)
Definition accumulate (term : float * float -> float -> float)
  (fracs : list float) (x : list float)
  (acc : list (list float) * list (list float)) (ip : nat * params)
  : result (list (list float) * list (list float)) :=
  let fi := base_curve term ip.2 x in
  elem_frac ← getitem fracs ip.1;
  Ok (add_to_every_pixel acc.1 (map (fun v => square v * elem_frac) fi),
      add_to_every_pixel acc.2 (map (fun v => v * elem_frac) fi)).

(** [a.reshape(x_size, y_size, 1)]: the same elements, one per pixel. *)
Definition reshape_pixels (a : ndarray) (x_size y_size : nat)
  : result (list float) :=
  if (length (nd_data a) =? x_size * y_size * 1)%nat
  then Ok (nd_data a)
  else Err ValueError.

(** Lines 87-113 and 139-163, for the table and the term of either variant.
    [N] and [C] are the arrays [N.data] and [C.data] of the two fitted
    parameters. *)
Definition scattering_to_signal (table : option (gmap string params))
  (term : float * float -> float -> float)
  (elements : list string) (fracs : list float) (N C : ndarray)
  (s_size : nat) (s_scale : float) : result (curves * curves) :=
  params ← lookup_params table elements;
  x_size ← getitem (nd_shape N) 0;
  y_size ← getitem (nd_shape N) 1;
  let zeros3 := replicate (x_size * y_size) (replicate s_size 0) in
  let x := map (fun i => i * s_scale) (arange s_size) in
  '(sum_squares, square_sum) ←
    for_each (accumulate term fracs x) (enumerate params) (zeros3, zeros3);
  n ← reshape_pixels N x_size y_size;
  let scaled := zip_with (fun n_p row => map (PrimFloat.mul n_p) row)
                         n sum_squares in
  c ← reshape_pixels C x_size y_size;
  let signal := zip_with (fun row c_p => map (fun v => v + c_p) row)
                         scaled c in
  n' ← reshape_pixels N x_size y_size;
  let square_sum := zip_with (fun n_p row => map (PrimFloat.mul n_p) row)
                             n' square_sum in
  Ok (Curves (x_size, y_size, s_size) signal,
      Curves (x_size, y_size, s_size) square_sum).

Definition scattering_to_signal_lobato (g : globals) :=
  scattering_to_signal (ATOMIC_SCATTERING_PARAMS_LOBATO g) lobato_term.

Definition scattering_to_signal_xtables (g : globals) :=
  scattering_to_signal (ATOMIC_SCATTERING_PARAMS g) xtables_term.

End Ufuncs.

(** *** The formulas of the specification *)

(** [m] is the maximum of the array [a]: one of its elements, NaN when the
    array holds a NaN (NaN propagates through [np.max]), and otherwise no
    smaller than any element. *)
Definition maximum_of (a : list float) (m : float) : Prop :=
  m ∈ a /\
  ((exists x, x ∈ a /\ is_nan x = true) -> is_nan m = true) /\
  ((forall x, x ∈ a -> is_nan x = false) ->
   forall x, x ∈ a -> (x <=? m) = true).

(** The axis [s = s_scale * [0..s_size)] at index [i]. *)
Definition axis_at (s_scale : float) (i : nat) : float :=
  s_scale * Float64.of_nat i.

(** The low-q damping factor [(erf(scale * s - offset) + 1) / 2]. *)
Definition erfc_factor (erf : float -> float) (scale offset s : float)
  : float :=
  (erf (scale * s - offset) + 1) / 2.

(** The Lorch factor [sin(delta * s) / (delta * s)]. *)
Definition lorch_factor (np_sin : float -> float) (delta s : float)
  : float :=
  np_sin (delta * s) / (delta * s).

(** The base curve [f(s)] of one element at one point of the axis: the sum
    of its terms, in order, from zero. *)
Definition base_curve_at (term : float * float -> float -> float)
  (element : params) (s : float) : float :=
  fold_left (fun acc p => acc + term p s) element 0.

(** The sum over the elements, in order and from zero, of
    [weight frac f] at one point of the axis. *)
Definition weighted_sum (weight : float -> float -> float)
  (fracs : list float) (values : list float) : float :=
  fold_left (fun acc fv => acc + weight fv.1 fv.2) (zip fracs values) 0.

(** What one pass of the loop over the elements adds to a pixel's curve
    [v]: the base curve of the element, weighted by its fraction. *)
Definition add_weighted (term : float * float -> float -> float)
  (weight : float -> float -> float) (x : list float)
  (v : list float) (fp : float * params) : list float :=
  zip_with PrimFloat.add v
           (map (fun f => weight fp.1 f) (base_curve term fp.2 x)).

(** Element [i, j, k] of an array of curves. *)
Definition curve_at (c : curves) (i j k : nat) : option float :=
  row ← c_rows c !! (i * (c_shape c).1.2 + j)%nat; row !! k.

(** Element [i, j] of a 2-d array. *)
Definition pixel (a : ndarray) (i j : nat) : option float :=
  match item a [i; j] with
  | Ok v => Some v
  | Err _ => None
  end.

(** The call returned the two arrays of the specification: of shape
    (x_size, y_size, s_size), the first
    [N * sum_i frac_i * f_i(s)^2 + C] and the second
    [N * sum_i frac_i * f_i(s)], where [f_i] is the base curve of the
    [i]-th element (parameters [ps]) and [s] runs over the axis. *)
Definition synthesized (term : float * float -> float -> float)
  (ps : list params) (fracs : list float) (N C : ndarray)
  (x_size y_size s_size : nat) (s_scale : float)
  (r : result (curves * curves)) : Prop :=
  exists signal square_sum,
    r = Ok (signal, square_sum) /\
    c_shape signal = (x_size, y_size, s_size) /\
    c_shape square_sum = (x_size, y_size, s_size) /\
    forall i j k n c,
      pixel N i j = Some n -> pixel C i j = Some c -> (k < s_size)%nat ->
      let f := map (fun p => base_curve_at term p (Float64.of_nat k * s_scale))
                   ps in
      curve_at signal i j k
      = Some (n * weighted_sum (fun frac f => frac * (f * f)) fracs f + c) /\
      curve_at square_sum i j k
      = Some (n * weighted_sum (fun frac f => frac * f) fracs f).

(** The call returned, and its second array holds at every pixel the base
    curve of the element with parameters [p]. *)
Definition single_curve (term : float * float -> float -> float)
  (p : params) (x_size y_size s_size : nat) (s_scale : float)
  (r : result (curves * curves)) : Prop :=
  exists signal square_sum,
    r = Ok (signal, square_sum) /\
    forall i j k,
      (i < x_size)%nat -> (j < y_size)%nat -> (k < s_size)%nat ->
      exists v,
        curve_at square_sum i j k = Some v /\
        Float64.same_value v
          (base_curve_at term p (Float64.of_nat k * s_scale)).

End PdfUtils.

(** ** More classes of binary64 numbers *)

Module Float64Classes.

(** [x] is [+0] or [-0]. *)
Definition signed_zero (x : float) : bool :=
  match Prim2SF x with
  | S754_zero _ => true
  | _ => false
  end.

(** [x] is an infinity or NaN. *)
Definition inf_or_nan (x : float) : bool :=
  match Prim2SF x with
  | S754_infinity _ | S754_nan => true
  | _ => false
  end.

End Float64Classes.

(** ** [pyxem/utils/pdf_utils.py]: the exponential and the updated Lorch
    damping *)

Module PdfUtilsDamping.
Import Np PdfUtils.

Section Ufuncs.

(** [np.exp], [np.sin], [np.cos] and [np.power] on one element: the
    functions of the C library. *)
Variables np_exp np_sin np_cos : float -> float.
Variable np_power : float -> float -> float.

(** [x ** n] for a Python float and an integer exponent: the C library's
    [pow], except that Python raises where the result overflows.  Whatever
    it raises is passed on to the caller. *)
Variable py_pow : float -> Z -> result float.

(** Lines 186-188. *)
Definition damp_ri_exponential (z : list float) (b s_scale : float)
  (s_size : nat) : result (list float) :=
  let scattering_axis := scattering_axis s_scale s_size in
  let damping_term :=
    map (fun s => np_exp ((- b) * square s)) scattering_axis in
  multiply z damping_term.

(** Lines 244-255, for [s_max] a Python float.  [np.pi / s_max] and
    [3 / (delta**3)] are then divisions of Python numbers, and raise on a
    zero divisor; [np.divide] does not. *)
Definition damp_ri_updated_lorch (z : list float) (s_max s_scale : float)
  (s_size : nat) : result (list float) :=
  delta ← Float64.py_div Float64.pi s_max;
  let scattering_axis := scattering_axis s_scale s_size in
  let exponent_array := replicate (length scattering_axis) (3 * 1) in
  let cubic_array := zip_with np_power scattering_axis exponent_array in
  cube ← py_pow delta 3;
  numerator ← Float64.py_div 3 cube;
  let multiplicative_term := map (fun c => numerator / c) cubic_array in
  let sine_term :=
    map (fun s => np_sin (delta * s) - delta * s * np_cos (delta * s))
        scattering_axis in
  let damping_term :=
    zip_with PrimFloat.mul multiplicative_term sine_term in
  let damping_term := map nan_to_num damping_term in
  multiply z damping_term.

(** The arithmetic a scalar argument brings with it.  [np.float64] is a
    subclass of [float] that overrides the operators: with such an operand
    [/] and [**] are NumPy's, which return infinities and NaN where Python's
    raise. *)
Inductive scalar_kind : Set :=
| python_float
| numpy_float64.

(** [x / y] where the kind of the result is [kind]. *)
Definition true_divide (kind : scalar_kind) (x y : float) : result float :=
  match kind with
  | python_float => Float64.py_div x y
  | numpy_float64 => Ok (x / y)
  end.

(** [x ** 3] for [x] of kind [kind]. *)
Definition cube_of (kind : scalar_kind) (x : float) : result float :=
  match kind with
  | python_float => py_pow x 3
  | numpy_float64 => Ok (np_power x 3)
  end.

(** Lines 244-255, for [s_max] of either kind: [delta], [delta**3] and
    [3 / (delta**3)] are of the kind of [s_max]. *)
Definition damp_ri_updated_lorch_of (kind : scalar_kind) (z : list float)
  (s_max s_scale : float) (s_size : nat) : result (list float) :=
  delta ← true_divide kind Float64.pi s_max;
  let scattering_axis := scattering_axis s_scale s_size in
  let exponent_array := replicate (length scattering_axis) (3 * 1) in
  let cubic_array := zip_with np_power scattering_axis exponent_array in
  cube ← cube_of kind delta;
  numerator ← true_divide kind 3 cube;
  let multiplicative_term := map (fun c => numerator / c) cubic_array in
  let sine_term :=
    map (fun s => np_sin (delta * s) - delta * s * np_cos (delta * s))
        scattering_axis in
  let damping_term :=
    zip_with PrimFloat.mul multiplicative_term sine_term in
  let damping_term := map nan_to_num damping_term in
  multiply z damping_term.

End Ufuncs.

(** The factor [3 / (delta s)^3 * (sin(delta s) - delta s cos(delta s))] as
    the code computes it, from [numerator = 3 / delta**3]. *)
Definition updated_lorch_factor (np_sin np_cos : float -> float)
  (np_power : float -> float -> float) (numerator delta s : float) : float :=
  numerator / np_power s 3
  * (np_sin (delta * s) - delta * s * np_cos (delta * s)).

End PdfUtilsDamping.

(** ** [lazy_tools.py]: what the driver stores and what it logs *)

Module LazyToolsTrace.
Import Np LazyTools.

(** The part of the output one frame's result is assigned to (lines
    105-108 and 118-121): a single element when [return_sig_size] is 1, a
    row of [return_sig_size] elements otherwise. *)
Definition slot (return_sig_size : nat) : list nat :=
  if (return_sig_size =? 1)%nat then [] else [return_sig_size].

(** The values a frame's result puts into its slot, by NumPy's rules of
    assignment. *)
Definition stored (return_sig_size : nat) (out_data : frame_result)
  : result (list float) :=
  broadcast_to out_data (slot return_sig_size).

Definition values (return_sig_size : nat) (out_data : frame_result)
  : list float :=
  match stored return_sig_size out_data with
  | Ok l => l
  | Err _ => []
  end.

(** A result that can be assigned to its slot: a number; or, when
    [return_sig_size] is not 1 and the slot is a row, a 1-d array of
    [return_sig_size] elements or of one element. *)
Definition fits (return_sig_size : nat) (out_data : frame_result) : bool :=
  match out_data with
  | RScalar _ => true
  | RVector l =>
      negb (return_sig_size =? 1)%nat
      && ((length l =? return_sig_size)%nat || (length l =? 1)%nat)
  end.

(** The row stored at position [p] of an output with rows of [n1]
    coordinates. *)
Definition row_at (a : dask_array) (function : frame -> frame_result)
  (return_sig_size n1 : nat) (p : nat) : list float :=
  values return_sig_size (function (frame_at a [p / n1; p mod n1]%nat)).

(** The rows of an output after the rows at the positions [offs] have been
    set, one after the other, to what [G] gives them. *)
Definition write_rows (G : nat -> list float) (offs : list nat)
  (rows : list (list float)) : list (list float) :=
  foldl (fun rows o => <[o := G o]> rows) rows offs.

(** The output during the loops: [n] rows of [m] elements each, under the
    shape [shp]. *)
Definition holds_rows (shp : list nat) (n m : nat)
  (rows : list (list float)) (return_data : ndarray) : Prop :=
  return_data = NdArray shp (mjoin rows) /\
  length rows = n /\
  Forall (fun row => length row = m) rows.

(** Every frame of the window gives a result that fits. *)
Definition window_fits (a : dask_array) (function : frame -> frame_result)
  (return_sig_size : nat) (slice_chunk : window) : bool :=
  forallb (fun c => fits return_sig_size (function (frame_at a c)))
          (coordinates_of slice_chunk).

(** What the driver logs for one window: the window is brought into
    memory, then the function is called on each of its frames, in
    row-major order. *)
Definition window_events (a : dask_array) (slice_chunk : window)
  : list event :=
  Materialize slice_chunk
    :: map (fun c => Invoke (frame_at a c)) (coordinates_of slice_chunk).

(** The frames the function was called on, in order. *)
Definition invocations (log : list event) : list frame :=
  omap (fun e => match e with Invoke im => Some im | _ => None end) log.

(** The windows that were brought into memory, in order. *)
Definition materialized (log : list event) : list window :=
  omap (fun e => match e with Materialize w => Some w | _ => None end) log.

End LazyToolsTrace.

(** * Proofs *)

(** ** Facts of binary64 arithmetic

    Each is derived from the specification of the primitive operations
    ([mul_spec], [add_spec], ...), by cases on the operands' classes. *)

Module Float64Facts.
Import Float64.

Lemma is_nan_spec (x : float) :
  is_nan x = true <-> Prim2SF x = S754_nan.
Proof.
  unfold is_nan. rewrite FloatAxioms.eqb_spec, negb_true_iff. unfold SFeqb.
  destruct (Prim2SF x) as [s|s| |s m e]; simpl; try destruct s;
    rewrite ?Z.compare_refl, ?Pos.compare_cont_refl; simpl;
    split; congruence.
Qed.

Lemma is_nan_false_spec (x : float) :
  is_nan x = false <-> Prim2SF x <> S754_nan.
Proof.
  rewrite <- is_nan_spec. destruct (is_nan x); split; congruence.
Qed.

Lemma is_nan_eq (x : float) : is_nan x = true -> x = nan.
Proof.
  intros H%is_nan_spec. apply Prim2SF_inj. by rewrite H.
Qed.

(** *** The order *)

Ltac sf_order :=
  repeat match goal with
  | |- context [(?a ?= ?b)%Z] =>
      destruct (Z.compare_spec a b); simpl
  | H : context [(?a ?= ?b)%Z] |- _ =>
      destruct (Z.compare_spec a b); simpl in H
  | |- context [Pos.compare_cont Eq ?a ?b] =>
      change (Pos.compare_cont Eq a b) with (Pos.compare a b);
      destruct (Pos.compare_spec a b); simpl
  | H : context [Pos.compare_cont Eq ?a ?b] |- _ =>
      change (Pos.compare_cont Eq a b) with (Pos.compare a b) in H;
      destruct (Pos.compare_spec a b); simpl in H
  end; try done; try lia.

Lemma SFleb_trans X Y Z :
  SFleb X Y = true -> SFleb Y Z = true -> SFleb X Z = true.
Proof.
  unfold SFleb.
  destruct X as [sx|sx| |sx mx ex], Y as [sy|sy| |sy my ey],
           Z as [sz|sz| |sz mz ez];
    simpl; try done; try (destruct sx); try (destruct sy);
    try (destruct sz); simpl; try done.
  all: intros H1 H2; sf_order.
Qed.

Lemma SFleb_total X Y :
  X <> S754_nan -> Y <> S754_nan -> SFleb X Y = false -> SFleb Y X = true.
Proof.
  unfold SFleb.
  destruct X as [sx|sx| |sx mx ex], Y as [sy|sy| |sy my ey];
    simpl; try done; try (destruct sx); try (destruct sy); simpl; try done.
  all: intros _ _ H; sf_order.
Qed.

Lemma SFleb_refl X : X <> S754_nan -> SFleb X X = true.
Proof.
  unfold SFleb.
  destruct X as [s|s| |s m e]; simpl; try done; destruct s; simpl; try done.
  all: intros _; by rewrite Z.compare_refl, Pos.compare_cont_refl.
Qed.

Lemma leb_trans (x y z : float) :
  (x <=? y) = true -> (y <=? z) = true -> (x <=? z) = true.
Proof. rewrite !FloatAxioms.leb_spec. apply SFleb_trans. Qed.

Lemma leb_total (x y : float) :
  is_nan x = false -> is_nan y = false ->
  (x <=? y) = false -> (y <=? x) = true.
Proof.
  intros Hx%is_nan_false_spec Hy%is_nan_false_spec. rewrite !FloatAxioms.leb_spec.
  by apply SFleb_total.
Qed.

Lemma leb_refl (x : float) : is_nan x = false -> (x <=? x) = true.
Proof. intros Hx%is_nan_false_spec. rewrite FloatAxioms.leb_spec. by apply SFleb_refl. Qed.

Lemma leb_nan_l (x y : float) : is_nan x = true -> (x <=? y) = false.
Proof. intros H%is_nan_spec. rewrite FloatAxioms.leb_spec, H. done. Qed.

Lemma leb_not_nan (x y : float) :
  (x <=? y) = true -> is_nan x = false /\ is_nan y = false.
Proof.
  rewrite FloatAxioms.leb_spec. unfold SFleb. intros H.
  split; apply is_nan_false_spec; intros E; rewrite E in H;
    destruct (Prim2SF x), (Prim2SF y); done.
Qed.

(** *** Multiplication *)

Lemma SFmul_comm X Y : SFmul prec emax X Y = SFmul prec emax Y X.
Proof.
  destruct X as [sx|sx| |sx mx ex], Y as [sy|sy| |sy my ey]; simpl;
    rewrite ?(xorb_comm sx sy); try done.
  by rewrite (Pos.mul_comm mx my), (Z.add_comm ex ey).
Qed.

Lemma mul_comm (x y : float) : x * y = y * x.
Proof. apply Prim2SF_inj. rewrite !FloatAxioms.mul_spec. apply SFmul_comm. Qed.

Lemma digits2_pos_iter_xO n m :
  Z.pos (digits2_pos (Nat.iter n xO m))
  = (Z.pos (digits2_pos m) + Z.of_nat n)%Z.
Proof.
  induction n as [|n IH].
  - simpl. lia.
  - rewrite Nat.iter_succ. cbn [digits2_pos].
    rewrite Pos2Z.inj_succ, IH. lia.
Qed.

Lemma digits2_pos_shift52 m :
  Z.pos (digits2_pos (4503599627370496 * m))
  = (Z.pos (digits2_pos m) + 52)%Z.
Proof.
  change (4503599627370496 * m)%positive with (Nat.iter 52 xO m).
  rewrite digits2_pos_iter_xO. lia.
Qed.

Lemma iter_shr_1_52 m :
  SpecFloat.iter_pos shr_1 52
    (shr_record_of_loc (Z.pos (4503599627370496 * m)) loc_Exact)
  = {| shr_m := Z.pos m; shr_r := false; shr_s := false |}.
Proof. reflexivity. Qed.

(** Rounding the product of a canonical mantissa with the mantissa of 1
    gives the mantissa back: 52 exact right shifts. *)
Lemma binary_round_aux_one s m e :
  bounded prec emax m e = true ->
  binary_round_aux prec emax s (Z.pos (4503599627370496 * m)) (e + -52)
                   loc_Exact
  = S754_finite s m e.
Proof.
  unfold bounded, canonical_mantissa. intros [Hc He]%andb_prop.
  apply Z.eqb_eq in Hc.
  unfold binary_round_aux, shr_fexp.
  unfold Zdigits2 at 1. rewrite digits2_pos_shift52.
  replace (Z.pos (digits2_pos m) + 52 + (e + -52))%Z
    with (Z.pos (digits2_pos m) + e)%Z by lia.
  rewrite Hc. replace (e - (e + -52))%Z with 52%Z by lia.
  unfold shr at 1. rewrite !iter_shr_1_52.
  cbn [shr_m loc_of_shr_record shr_r shr_s round_nearest_even].
  replace (e + -52 + 52)%Z with e by lia.
  unfold Zdigits2. rewrite Hc, Z.sub_diag.
  cbn [shr shr_record_of_loc shr_m].
  by rewrite He.
Qed.

Lemma SFmul_one_r X :
  valid_binary X = true -> SFmul prec emax X (Prim2SF 1) = X.
Proof.
  change (Prim2SF 1) with (S754_finite false 4503599627370496 (-52)).
  destruct X as [s|s| |s m e]; simpl; intros Hv;
    rewrite ?xorb_false_r; try done.
  rewrite Pos.mul_comm. by apply binary_round_aux_one.
Qed.

Lemma mul_one_r (x : float) : x * 1 = x.
Proof.
  apply Prim2SF_inj. rewrite FloatAxioms.mul_spec. apply SFmul_one_r, Prim2SF_valid.
Qed.

Lemma mul_one_l (x : float) : 1 * x = x.
Proof. rewrite mul_comm. apply mul_one_r. Qed.

(** *** Addition of zero *)

Lemma same_value_refl (x : float) : same_value x x.
Proof. by left. Qed.

(** [0 + x] is [x], except that [0 + -0] is [+0]. *)
Lemma add_zero_l (x : float) : same_value (0 + x) x.
Proof.
  destruct (Prim2SF x) as [s|s| |s m e] eqn:Hx.
  - right. rewrite FloatAxioms.eqb_spec, FloatAxioms.add_spec, Hx.
    change (Prim2SF 0) with (S754_zero false). by destruct s.
  - left. apply Prim2SF_inj. rewrite FloatAxioms.add_spec, Hx. done.
  - left. apply Prim2SF_inj. rewrite FloatAxioms.add_spec, Hx. done.
  - left. apply Prim2SF_inj. rewrite FloatAxioms.add_spec, Hx. done.
Qed.

(** *** Zeros and NaN *)

Lemma zero_or_nan_cases (x : float) :
  zero_or_nan x = true -> x = 0 \/ x = (-0) \/ x = nan.
Proof.
  unfold zero_or_nan. intros H.
  destruct (Prim2SF x) as [s|s| |s m e] eqn:Hx; try done.
  - destruct s; [right; left | left]; apply Prim2SF_inj; by rewrite Hx.
  - right; right. apply Prim2SF_inj; by rewrite Hx.
Qed.

Lemma zero_or_nan_mul_r (x y : float) :
  zero_or_nan y = true -> zero_or_nan (x * y) = true.
Proof.
  unfold zero_or_nan. rewrite FloatAxioms.mul_spec.
  destruct (Prim2SF x), (Prim2SF y); simpl; done.
Qed.

Lemma zero_or_nan_mul_l (x y : float) :
  zero_or_nan x = true -> zero_or_nan (x * y) = true.
Proof. rewrite mul_comm. apply zero_or_nan_mul_r. Qed.

(** A zero or NaN divided by a zero or NaN is NaN. *)
Lemma zero_or_nan_div (x y : float) :
  zero_or_nan x = true -> zero_or_nan y = true -> x / y = nan.
Proof.
  unfold zero_or_nan. intros Hx Hy. apply Prim2SF_inj. rewrite FloatAxioms.div_spec.
  destruct (Prim2SF x), (Prim2SF y); simpl; done.
Qed.

End Float64Facts.

(** ** Facts about arrays *)

Module NpFacts.
Import Np.

Lemma flat_offset_2 (x_size y_size i j : nat) :
  flat_offset [x_size; y_size] [i; j]
  = if (i <? x_size)%nat
    then if (j <? y_size)%nat then Ok (i * y_size + j)%nat
         else Err IndexError
    else Err IndexError.
Proof.
  cbn [flat_offset size_of foldr].
  destruct (i <? x_size)%nat; [|done]. destruct (j <? y_size)%nat; [|done].
  cbn [mbind result_bind]. f_equal. lia.
Qed.

Lemma overwrite_one (d : list float) (o : nat) (v : float) :
  (o < length d)%nat -> overwrite d o [v] = <[o := v]> d.
Proof.
  intros Ho. unfold overwrite. cbn [length app].
  rewrite insert_take_drop by done. by rewrite Nat.add_1_r.
Qed.

(** Storing a number at [i, j] of a 2-d array sets one element of its
    data. *)
Lemma setitem_scalar_2 (n0 n1 : nat) (d : list float) (i j : nat)
  (v : float) :
  length d = (n0 * n1)%nat -> (i < n0)%nat -> (j < n1)%nat ->
  setitem (NdArray [n0; n1] d) [i; j] false (RScalar v)
  = Ok (NdArray [n0; n1] (<[(i * n1 + j)%nat := v]> d)).
Proof.
  intros Hd Hi Hj. unfold setitem. cbn [andb nd_shape nd_data].
  rewrite flat_offset_2.
  apply Nat.ltb_lt in Hi as Hi', Hj as Hj'. rewrite Hi', Hj'.
  cbn [mbind result_bind length drop broadcast_to size_of foldr replicate].
  rewrite overwrite_one by nia. done.
Qed.

Lemma length_write_all (G : nat -> float) (offs : list nat)
  (d : list float) :
  length (write_all G offs d) = length d.
Proof.
  unfold write_all. revert d.
  induction offs as [|o offs IH]; intros d; [done|].
  cbn [foldl]. by rewrite IH, length_insert.
Qed.

Lemma write_all_app (G : nat -> float) (offs1 offs2 : list nat)
  (d : list float) :
  write_all G (offs1 ++ offs2) d = write_all G offs2 (write_all G offs1 d).
Proof. unfold write_all. apply foldl_app. Qed.

Lemma lookup_write_all (G : nat -> float) (offs : list nat)
  (d : list float) (p : nat) :
  (p < length d)%nat ->
  write_all G offs d !! p
  = if decide (p ∈ offs) then Some (G p) else d !! p.
Proof.
  unfold write_all. revert d.
  induction offs as [|o offs IH]; intros d Hp.
  - cbn. destruct (decide (p ∈ [])) as [H|_]; [|done].
    by apply not_elem_of_nil in H.
  - cbn [foldl]. rewrite IH by (by rewrite length_insert).
    destruct (decide (p ∈ offs)) as [Hin|Hnin].
    + rewrite decide_True by (by apply list_elem_of_further). done.
    + destruct (decide (p = o)) as [->|Hne].
      * rewrite decide_True by apply list_elem_of_here.
        by rewrite list_lookup_insert_eq.
      * rewrite decide_False
          by (intros [?|?]%elem_of_cons; done).
        by rewrite list_lookup_insert_ne.
Qed.

(** When every position is written, the data is the table of [G]. *)
Lemma write_all_cover (G : nat -> float) (offs : list nat)
  (d : list float) :
  (forall p, (p < length d)%nat -> p ∈ offs) ->
  write_all G offs d = map G (seq 0 (length d)).
Proof.
  intros Hcover. apply list_eq. intros p.
  destruct (decide (p < length d)%nat) as [Hp|Hp].
  - rewrite lookup_write_all by done.
    rewrite decide_True by (by apply Hcover).
    by rewrite list_lookup_fmap, lookup_seq_lt.
  - rewrite !lookup_ge_None_2; [done| |].
    + rewrite length_map, length_seq. lia.
    + rewrite length_write_all. lia.
Qed.

End NpFacts.

(** ** [pdf_utils.py]: normalisation *)

Module PdfUtilsProofs.
Import Np PdfUtils Float64 Float64Facts NpFacts.

Lemma maximum_cases (acc x : float) :
  (maximum acc x = acc /\ ((x <=? acc) = true \/ is_nan acc = true)) \/
  (maximum acc x = x /\ (x <=? acc) = false /\ is_nan acc = false).
Proof.
  unfold maximum.
  destruct (x <=? acc) eqn:Hle; simpl; [left; auto|].
  destruct (is_nan acc) eqn:Hn; [left; auto | right; auto].
Qed.

Lemma fold_maximum_elem (l : list float) (acc : float) :
  fold_left maximum l acc ∈ acc :: l.
Proof.
  revert acc. induction l as [|x l IH]; intros acc; cbn [fold_left].
  - apply list_elem_of_here.
  - specialize (IH (maximum acc x)).
    destruct (maximum_cases acc x) as [[E _]|[E _]]; rewrite E in *;
      apply elem_of_cons in IH as [IH|IH]; rewrite ?IH; set_solver.
Qed.

Lemma fold_maximum_nan_acc (l : list float) (acc : float) :
  is_nan acc = true -> fold_left maximum l acc = acc.
Proof.
  intros Hn. induction l as [|x l IH]; cbn [fold_left]; [done|].
  unfold maximum at 2. by rewrite Hn, orb_true_r.
Qed.

Lemma fold_maximum_nan (l : list float) (acc : float) :
  (exists x, x ∈ acc :: l /\ is_nan x = true) ->
  is_nan (fold_left maximum l acc) = true.
Proof.
  revert acc. induction l as [|x l IH]; intros acc (y & Hy & Hn).
  - apply list_elem_of_singleton in Hy as ->. done.
  - cbn [fold_left]. destruct (is_nan acc) eqn:Hacc.
    + assert (E : maximum acc x = acc)
        by (unfold maximum; by rewrite Hacc, orb_true_r).
      by rewrite E, fold_maximum_nan_acc.
    + apply elem_of_cons in Hy as [->|Hy]; [congruence|].
      apply IH. apply elem_of_cons in Hy as [->|Hy].
      * exists x. split; [|done].
        unfold maximum. rewrite (leb_nan_l x acc Hn), Hacc. simpl.
        apply list_elem_of_here.
      * exists y. split; [|done]. by apply list_elem_of_further.
Qed.

Lemma fold_maximum_upper_bound (l : list float) (acc : float) :
  (forall x, x ∈ acc :: l -> is_nan x = false) ->
  forall x, x ∈ acc :: l -> (x <=? fold_left maximum l acc) = true.
Proof.
  revert acc. induction l as [|y l IH]; intros acc Hnan x Hx.
  - apply list_elem_of_singleton in Hx as ->. apply leb_refl, Hnan.
    apply list_elem_of_here.
  - cbn [fold_left].
    assert (Hacc : is_nan acc = false) by (apply Hnan; set_solver).
    assert (Hy : is_nan y = false) by (apply Hnan; set_solver).
    destruct (maximum_cases acc y) as [[E [Hle|Hn]]|(E & Hle & _)];
      rewrite E; [| congruence |].
    + assert (Hbound : forall x, x ∈ acc :: l ->
                (x <=? fold_left maximum l acc) = true).
      { apply IH. intros x' Hx'. apply Hnan. set_solver. }
      apply elem_of_cons in Hx as [->|Hx]; [apply Hbound; set_solver|].
      apply elem_of_cons in Hx as [->|Hx]; [|apply Hbound; set_solver].
      eapply leb_trans; [exact Hle|]. apply Hbound. set_solver.
    + assert (Hbound : forall x, x ∈ y :: l ->
                (x <=? fold_left maximum l y) = true).
      { apply IH. intros x' Hx'. apply Hnan. set_solver. }
      apply elem_of_cons in Hx as [->|Hx]; [|by apply Hbound].
      eapply leb_trans; [apply (leb_total y acc); done|].
      apply Hbound. set_solver.
Qed.

Lemma max_spec (a : list float) (m : float) :
  Np.max a = Ok m -> maximum_of a m.
Proof.
  destruct a as [|x a]; simpl; [done|]. intros [= <-].
  split; [apply fold_maximum_elem|]. split.
  - apply fold_maximum_nan.
  - apply fold_maximum_upper_bound.
Qed.

Lemma max_returns (a : list float) :
  a <> [] -> exists m, Np.max a = Ok m.
Proof. destruct a as [|x a]; [done|]. intros _. by eexists. Qed.

Lemma slice_from_past_the_end (z : list float) (index_min : Z) :
  (Z.of_nat (length z) <= index_min)%Z -> slice_from z index_min = [].
Proof.
  intros H. unfold slice_from.
  destruct (index_min <? 0)%Z eqn:E; [lia|].
  apply drop_ge. lia.
Qed.

(** C8. [normalise_pdf_signal_to_max] divides every element of [z] by the
    maximum of [z[index_min:]] whenever that sub-range is not empty, and
    [normalise_pdf_signal_to_max([1,2,10,4,3], 2)] is
    [[0.1, 0.2, 1.0, 0.4, 0.3]]. *)
Theorem normalise_pdf_signal_to_max_divides_by_max :
  (forall (z : list float) (index_min : Z),
     slice_from z index_min <> [] ->
     exists m,
       maximum_of (slice_from z index_min) m /\
       normalise_pdf_signal_to_max z index_min
       = Ok (map (fun x => x / m) z)) /\
  normalise_pdf_signal_to_max [1; 2; 10; 4; 3] 2
  = Ok [0.1; 0.2; 1; 0.4; 0.3].
Proof.
  split; [|reflexivity].
  intros z index_min Hne. unfold normalise_pdf_signal_to_max.
  destruct (max_returns _ Hne) as [m Hm]. exists m.
  split; [by apply max_spec|]. by rewrite Hm.
Qed.

Lemma normalise_pdf_signal_to_max_divides_by_max_witness :
  exists m,
    maximum_of (slice_from [3; 1; 2] (-2)) m /\
    normalise_pdf_signal_to_max [3; 1; 2] (-2)
    = Ok (map (fun x => x / m) [3; 1; 2]).
Proof.
  apply (proj1 normalise_pdf_signal_to_max_divides_by_max [3; 1; 2] (-2)%Z).
  vm_compute. discriminate.
Defined.

(** C10. [normalise_pdf_signal_to_max] raises whenever [index_min] is at
    least the length of [z], and it returns exactly when [z[index_min:]]
    is not empty. *)
Theorem normalise_pdf_signal_to_max_needs_nonempty_range
  (z : list float) (index_min : Z) :
  ((Z.of_nat (length z) <= index_min)%Z ->
   normalise_pdf_signal_to_max z index_min = Err ValueError) /\
  (returns (normalise_pdf_signal_to_max z index_min)
   <-> slice_from z index_min <> []).
Proof.
  unfold normalise_pdf_signal_to_max. split.
  - intros H. by rewrite slice_from_past_the_end.
  - destruct (slice_from z index_min) as [|x a]; simpl; split; done.
Qed.

Lemma normalise_pdf_signal_to_max_needs_nonempty_range_witness :
  normalise_pdf_signal_to_max [1; 2; 10] 3 = Err ValueError.
Proof.
  apply (proj1 (normalise_pdf_signal_to_max_needs_nonempty_range
                  [1; 2; 10] 3%Z)).
  simpl. lia.
Defined.

(** ** [pdf_utils.py]: damping *)

Lemma multiply_same_length (a b : list float) :
  length a = length b -> multiply a b = Ok (zip_with PrimFloat.mul a b).
Proof. intros H. unfold multiply. by rewrite H, Nat.eqb_refl. Qed.

(** Arrays of lengths 3 and 2 cannot be broadcast together. *)
Lemma multiply_3_2 (a0 a1 a2 : float) (b : list float) :
  length b = 2%nat -> multiply [a0; a1; a2] b = Err ValueError.
Proof. destruct b as [|b0 [|b1 [|b2 b]]]; done. Qed.

Lemma length_scattering_axis (s_scale : float) (s_size : nat) :
  length (scattering_axis s_scale s_size) = s_size.
Proof.
  unfold scattering_axis, arange. by rewrite !length_map, length_seq.
Qed.

Lemma lookup_scattering_axis (s_scale : float) (s_size i : nat) :
  (i < s_size)%nat ->
  scattering_axis s_scale s_size !! i = Some (axis_at s_scale i).
Proof.
  intros Hi. unfold scattering_axis, arange.
  rewrite !list_lookup_fmap, lookup_seq_lt by done. done.
Qed.

Lemma lookup_arange (n i : nat) :
  (i < n)%nat -> arange n !! i = Some (of_nat i).
Proof.
  intros Hi. unfold arange. by rewrite list_lookup_fmap, lookup_seq_lt.
Qed.

(** The product with a damping term computed over the axis, element by
    element. *)
Lemma lookup_zip_with_axis (factor : float -> float) (z : list float)
  (s_scale : float) (i : nat) (x : float) :
  z !! i = Some x ->
  (i < length z)%nat ->
  zip_with PrimFloat.mul z
    (map factor (scattering_axis s_scale (length z))) !! i
  = Some (x * factor (axis_at s_scale i)).
Proof.
  intros Hx Hi.
  rewrite lookup_zip_with, Hx, list_lookup_fmap, lookup_scattering_axis by done.
  done.
Qed.

(** Were [special] bound to a module whose [erf] is [erf] (the file as it is
    written binds nothing of that name), then for [z] of [s_size] elements
    [damp_ri_low_q_region_erfc] would return an array of the length of [z]
    whose element [i] is [z[i]] times [(erf(scale * s - offset) + 1) / 2]
    at [s = s_scale * i]. *)
Theorem damp_ri_low_q_region_erfc_matching_length
  (g : globals) (erf : float -> float) (z : list float)
  (scale offset s_scale : float) (s_size : nat) :
  special g = Some erf ->
  length z = s_size ->
  exists out,
    damp_ri_low_q_region_erfc g z scale offset s_scale s_size = Ok out /\
    length out = length z /\
    forall i x, z !! i = Some x ->
      out !! i = Some (x * erfc_factor erf scale offset (axis_at s_scale i)).
Proof.
  intros Hg <-. unfold damp_ri_low_q_region_erfc. rewrite Hg. simpl.
  rewrite multiply_same_length
    by (by rewrite length_map, length_scattering_axis).
  eexists. split; [done|]. split.
  - rewrite length_zip_with, length_map, length_scattering_axis. lia.
  - intros i x Hx.
    rewrite (lookup_zip_with_axis _ z s_scale i x Hx)
      by (by eapply lookup_lt_Some).
    unfold erfc_factor. by rewrite (mul_comm scale).
Qed.

Lemma damp_ri_low_q_region_erfc_matching_length_witness :
  exists out,
    damp_ri_low_q_region_erfc
      (Globals (Some (fun x => x / (1 + abs x))) None None)
      [1; 2; 3] 2 1 0.5 3 = Ok out /\
    length out = length [1; 2; 3] /\
    forall i x, [1; 2; 3] !! i = Some x ->
      out !! i
      = Some (x * erfc_factor (fun x => x / (1 + abs x)) 2 1
                    (axis_at 0.5 i)).
Proof.
  apply (damp_ri_low_q_region_erfc_matching_length
           (Globals (Some (fun x => x / (1 + abs x))) None None)
           (fun x => x / (1 + abs x)) [1; 2; 3] 2 1 0.5 3);
    reflexivity.
Defined.

(** An array of 3 elements with [s_size = 2] makes the call raise,
    whatever [special] is bound to ([ValueError] from the product when it
    is bound, [NameError] before that when it is not). *)
Lemma damp_ri_low_q_region_erfc_length_mismatch :
  length [1; 2; 3] <> 2%nat /\
  (forall erf : float -> float,
     damp_ri_low_q_region_erfc (Globals (Some erf) None None)
       [1; 2; 3] 1 0 1 2 = Err ValueError) /\
  damp_ri_low_q_region_erfc pdf_utils_globals [1; 2; 3] 1 0 1 2
  = Err NameError.
Proof.
  split; [done|]. split; [|done].
  intros erf. unfold damp_ri_low_q_region_erfc, global.
  cbn [special mbind result_bind].
  apply multiply_3_2. by rewrite length_map, length_scattering_axis.
Qed.

(** C5, where the code departs from it.  [pdf_utils.py] imports [numpy]
    alone, so line 284 reads a name that is bound nowhere: on the three
    samples [[1, 2, 3]] with [s_size = 3], [scale = 1], [offset = 0] and
    [s_scale = 0.5] the call raises [NameError] instead of returning the
    damped samples.  With [special] bound to a module whose [erf] is [erf],
    which is what the line reads, the same call returns the three products
    of the claim. *)
Theorem damp_ri_low_q_region_erfc_special_unbound :
  damp_ri_low_q_region_erfc pdf_utils_globals [1; 2; 3] 1 0 0.5 3
  = Err NameError /\
  forall erf : float -> float,
    damp_ri_low_q_region_erfc (Globals (Some erf) None None)
      [1; 2; 3] 1 0 0.5 3
    = Ok [1 * erfc_factor erf 1 0 (axis_at 0.5 0);
          2 * erfc_factor erf 1 0 (axis_at 0.5 1);
          3 * erfc_factor erf 1 0 (axis_at 0.5 2)].
Proof. split; [reflexivity|]. intros erf. reflexivity. Qed.

(** In the file as it is written, [special] is never imported: every call
    of [damp_ri_low_q_region_erfc] raises [NameError]. *)
Lemma damp_ri_low_q_region_erfc_name_error
  (z : list float) (scale offset s_scale : float) (s_size : nat) :
  damp_ri_low_q_region_erfc pdf_utils_globals z scale offset s_scale s_size
  = Err NameError.
Proof. reflexivity. Qed.

(** *** Lorch damping *)

Lemma of_nat_0 : of_nat 0 = 0.
Proof. reflexivity. Qed.

Lemma nan_to_num_nan : nan_to_num nan = 0.
Proof. reflexivity. Qed.

Lemma nan_to_num_finite (x : float) : finite x = true -> nan_to_num x = x.
Proof.
  unfold finite, nan_to_num.
  intros [[H1 H2]%andb_prop H3]%andb_prop.
  apply negb_true_iff in H1, H2, H3. by rewrite H1, H2, H3.
Qed.

Lemma positive_not_zero (x : float) : (0 <? x) = true -> (x =? 0) = false.
Proof.
  rewrite FloatAxioms.ltb_spec, FloatAxioms.eqb_spec.
  change (Prim2SF 0) with (S754_zero false).
  unfold SFltb, SFeqb. destruct (Prim2SF x) as [s|s| |s m e]; simpl; try done.
  all: by destruct s.
Qed.

(** At [s = 0] the quotient is 0/0 (or NaN/NaN), that is NaN, which
    [nan_to_num] turns into 0. *)
Lemma lorch_factor_at_origin (np_sin : float -> float)
  (delta s_scale : float) :
  (forall x, zero_or_nan x = true -> zero_or_nan (np_sin x) = true) ->
  nan_to_num (lorch_factor np_sin delta (axis_at s_scale 0)) = 0.
Proof.
  intros Hsin. unfold lorch_factor, axis_at. rewrite of_nat_0.
  assert (Hz : zero_or_nan (delta * (s_scale * 0)) = true)
    by (by apply zero_or_nan_mul_r, zero_or_nan_mul_r).
  by rewrite (zero_or_nan_div _ _ (Hsin _ Hz) Hz).
Qed.

(** C6, as amended.  For [z] of [s_size] elements, a positive [s_max] and a
    sine that maps zeros to zeros and NaN to NaN (as IEEE 754 asks of it),
    [damp_ri_lorch] returns; its damping factor at the origin of the axis is
    exactly 0; and every element is [z[i]] times [nan_to_num] of
    [sin(delta s) / (delta s)], which is that quotient itself wherever it
    is finite. *)
Theorem damp_ri_lorch_matching_length
  (np_sin : float -> float) (z : list float) (s_max s_scale : float)
  (s_size : nat) :
  (forall x, zero_or_nan x = true -> zero_or_nan (np_sin x) = true) ->
  (0 <? s_max) = true ->
  length z = s_size ->
  let delta := Float64.pi / s_max in
  exists out,
    damp_ri_lorch np_sin z s_max s_scale s_size = Ok out /\
    length out = length z /\
    (forall x, z !! 0%nat = Some x -> out !! 0%nat = Some (x * 0)) /\
    (forall i x, z !! i = Some x ->
       out !! i
       = Some (x * nan_to_num (lorch_factor np_sin delta
                                 (axis_at s_scale i)))) /\
    (forall i x, z !! i = Some x ->
       finite (lorch_factor np_sin delta (axis_at s_scale i)) = true ->
       out !! i
       = Some (x * lorch_factor np_sin delta (axis_at s_scale i))).
Proof.
  intros Hsin Hpos <- delta. unfold damp_ri_lorch, py_div.
  rewrite (positive_not_zero _ Hpos). simpl. fold delta.
  rewrite map_map.
  rewrite multiply_same_length
    by (by rewrite length_map, length_scattering_axis).
  assert (Hi : forall i x, z !! i = Some x ->
            zip_with PrimFloat.mul z
              (map (fun s => nan_to_num (np_sin (delta * s) / (delta * s)))
                   (scattering_axis s_scale (length z))) !! i
            = Some (x * nan_to_num (lorch_factor np_sin delta
                                      (axis_at s_scale i)))).
  { intros i x Hx.
    by rewrite (lookup_zip_with_axis _ z s_scale i x Hx)
      by (by eapply lookup_lt_Some). }
  eexists. split; [done|]. split; [|split; [|split]].
  - rewrite length_zip_with, length_map, length_scattering_axis. lia.
  - intros x Hx. by rewrite (Hi _ _ Hx), lorch_factor_at_origin.
  - exact Hi.
  - intros i x Hx Hfin. by rewrite (Hi _ _ Hx), nan_to_num_finite.
Qed.

(** A function that, like the sine, maps the zeros to zeros and NaN to NaN:
    the Taylor polynomial [x - x^3/6]. *)
Lemma taylor_sine_zero_or_nan (x : float) :
  zero_or_nan x = true -> zero_or_nan (x - x * x * x / 6) = true.
Proof.
  intros [-> | [-> | ->]]%zero_or_nan_cases; reflexivity.
Qed.

Lemma damp_ri_lorch_matching_length_witness :
  let delta := Float64.pi / 4 in
  exists out,
    damp_ri_lorch (fun x => x - x * x * x / 6) [1; 2; 3] 4 0.5 3 = Ok out /\
    length out = length [1; 2; 3] /\
    (forall x, [1; 2; 3] !! 0%nat = Some x -> out !! 0%nat = Some (x * 0)) /\
    (forall i x, [1; 2; 3] !! i = Some x ->
       out !! i
       = Some (x * nan_to_num (lorch_factor (fun x => x - x * x * x / 6)
                                 delta (axis_at 0.5 i)))) /\
    (forall i x, [1; 2; 3] !! i = Some x ->
       finite (lorch_factor (fun x => x - x * x * x / 6) delta
                 (axis_at 0.5 i)) = true ->
       out !! i
       = Some (x * lorch_factor (fun x => x - x * x * x / 6) delta
                     (axis_at 0.5 i))).
Proof.
  apply (damp_ri_lorch_matching_length (fun x => x - x * x * x / 6)
           [1; 2; 3] 4 0.5 3);
    [exact taylor_sine_zero_or_nan | reflexivity | reflexivity].
Defined.

(** C6 fails as stated: an array of 3 elements with [s_size = 2] makes
    [damp_ri_lorch] raise [ValueError], whatever the sine. *)
Lemma damp_ri_lorch_length_mismatch :
  length [1; 2; 3] <> 2%nat /\
  forall np_sin : float -> float,
    damp_ri_lorch np_sin [1; 2; 3] 1 1 2 = Err ValueError.
Proof.
  split; [done|]. intros np_sin. unfold damp_ri_lorch.
  change (py_div Float64.pi 1) with (Ok (Float64.pi / 1)).
  cbn [mbind result_bind].
  apply multiply_3_2. by rewrite !length_map, length_scattering_axis.
Qed.

(** Why the quotient has to be finite: with [s_max = 2^1000] and
    [s_scale = 2^-1000] the product [delta * s] underflows to 0 at index 1,
    where [s] is not 0, and the factor there is 0 as well. *)
Lemma damp_ri_lorch_underflow (np_sin : float -> float) :
  (forall x, zero_or_nan x = true -> zero_or_nan (np_sin x) = true) ->
  damp_ri_lorch np_sin [1; 1] 0x1p+1000 0x1p-1000 2 = Ok [0; 0].
Proof.
  intros Hsin. unfold damp_ri_lorch.
  change (py_div Float64.pi 0x1p+1000) with (Ok (Float64.pi / 0x1p+1000)).
  cbn [mbind result_bind]. unfold scattering_axis, arange.
  cbn [seq map]. unfold multiply. cbn [length Nat.eqb zip_with].
  repeat match goal with
  | |- context [np_sin ?a / ?a] =>
      let Hz := fresh "Hz" in
      assert (Hz : zero_or_nan a = true) by reflexivity;
      rewrite (zero_or_nan_div _ _ (Hsin _ Hz) Hz)
  end.
  reflexivity.
Qed.

Lemma damp_ri_lorch_underflow_witness :
  damp_ri_lorch (fun x => x - x * x * x / 6) [1; 1] 0x1p+1000 0x1p-1000 2
  = Ok [0; 0].
Proof.
  apply (damp_ri_lorch_underflow (fun x => x - x * x * x / 6)).
  exact taylor_sine_zero_or_nan.
Defined.

(** ** [pdf_utils.py]: the scattering-curve synthesizers *)

Section Synthesizer.

Variable term : float * float -> float -> float.

Lemma base_curve_fold (element : params) (x fi : list float) (k : nat)
  (xk v : float) :
  length fi = length x ->
  x !! k = Some xk ->
  fi !! k = Some v ->
  let fi' :=
    fold_left (fun fi p => zip_with PrimFloat.add fi (map (term p) x))
              element fi in
  length fi' = length x /\
  fi' !! k = Some (fold_left (fun acc p => acc + term p xk) element v).
Proof.
  revert fi v. induction element as [|p element IH]; intros fi v Hlen Hx Hv.
  - done.
  - cbn [fold_left]. apply IH.
    + rewrite length_zip_with, length_map. lia.
    + done.
    + by rewrite lookup_zip_with, Hv, list_lookup_fmap, Hx.
Qed.

Lemma length_base_curve (element : params) (x : list float) :
  length (base_curve term element x) = length x.
Proof.
  unfold base_curve. revert x.
  enough (forall x fi : list float, length fi = length x ->
            length (fold_left
                      (fun fi p => zip_with PrimFloat.add fi
                                     (map (term p) x)) element fi)
            = length x) as H by (intros x; apply H, length_replicate).
  induction element as [|p element IH]; intros x fi Hlen; [done|].
  cbn [fold_left]. apply IH. rewrite length_zip_with, length_map. lia.
Qed.

(** The array [fi] holds, at each index, the base curve at that point of
    the axis. *)
Lemma lookup_base_curve (element : params) (x : list float) (k : nat)
  (xk : float) :
  x !! k = Some xk ->
  base_curve term element x !! k = Some (base_curve_at term element xk).
Proof.
  intros Hx. unfold base_curve, base_curve_at.
  apply base_curve_fold; [apply length_replicate | done |].
  apply lookup_replicate_2. by eapply lookup_lt_Some.
Qed.

Lemma add_to_every_pixel_replicate (n : nat) (v w : list float) :
  add_to_every_pixel (replicate n v) w
  = replicate n (zip_with PrimFloat.add v w).
Proof.
  unfold add_to_every_pixel.
  apply (fmap_replicate (fun row => zip_with PrimFloat.add row w)).
Qed.

Lemma for_each_accumulate (fracs x : list float) (pixels : nat)
  (ps : list params) (n : nat) (v1 v2 : list float) :
  (n + length ps <= length fracs)%nat ->
  for_each (accumulate term fracs x) (zip (seq n (length ps)) ps)
           (replicate pixels v1, replicate pixels v2)
  = Ok (replicate pixels
          (fold_left (add_weighted term (fun frac f => square f * frac) x)
                     (zip (drop n fracs) ps) v1),
        replicate pixels
          (fold_left (add_weighted term (fun frac f => f * frac) x)
                     (zip (drop n fracs) ps) v2)).
Proof.
  revert n v1 v2. induction ps as [|p ps IH]; intros n v1 v2 Hn.
  - by rewrite !zip_with_nil_r.
  - cbn [length seq zip zip_with for_each] in *.
    destruct (lookup_lt_is_Some_2 fracs n) as [frac Hfrac]; [lia|].
    unfold accumulate at 1. unfold getitem. cbn [fst snd]. rewrite Hfrac.
    cbn [mbind result_bind]. rewrite !add_to_every_pixel_replicate.
    rewrite IH by lia.
    by rewrite (drop_S _ _ _ Hfrac).
Qed.

Lemma lookup_add_weighted (weight : float -> float -> float)
  (x : list float) (k : nat) (xk : float) (fps : list (float * params))
  (v : list float) (vk : float) :
  x !! k = Some xk ->
  length v = length x ->
  v !! k = Some vk ->
  fold_left (add_weighted term weight x) fps v !! k
  = Some (fold_left
            (fun acc fp => acc + weight fp.1 (base_curve_at term fp.2 xk))
            fps vk).
Proof.
  intros Hx. revert v vk.
  induction fps as [|fp fps IH]; intros v vk Hlen Hv; [done|].
  cbn [fold_left]. apply IH.
  - unfold add_weighted.
    rewrite length_zip_with, length_map, length_base_curve. lia.
  - unfold add_weighted.
    by rewrite lookup_zip_with, Hv, list_lookup_fmap,
               (lookup_base_curve _ _ _ _ Hx).
Qed.

Lemma weighted_sum_fold (weight weight' : float -> float -> float)
  (F : params -> float) (fracs : list float) (ps : list params) :
  (forall frac f, weight frac f = weight' frac f) ->
  fold_left (fun acc fp => acc + weight fp.1 (F fp.2)) (zip fracs ps) 0
  = weighted_sum weight' fracs (map F ps).
Proof.
  intros Hw. unfold weighted_sum. generalize 0.
  revert fracs. induction ps as [|p ps IH]; intros fracs acc.
  - by destruct fracs.
  - destruct fracs as [|frac fracs]; [done|].
    cbn [map zip zip_with fold_left fst snd]. rewrite Hw. apply IH.
Qed.

Lemma mapM_lookup_params (tbl : gmap string params)
  (elements : list string) (ps : list params) :
  Forall2 (fun e p => tbl !! e = Some p) elements ps ->
  lookup_params (Some tbl) elements = Ok ps.
Proof.
  unfold lookup_params. induction 1 as [|e p elements ps He _ IH]; [done|].
  cbn [mapM global mbind result_bind] in *. rewrite He.
  cbn [mbind result_bind]. rewrite IH. done.
Qed.

Lemma pixel_lookup (a : ndarray) (x_size y_size i j : nat) (v : float) :
  nd_shape a = [x_size; y_size] ->
  pixel a i j = Some v ->
  (i < x_size)%nat /\ (j < y_size)%nat /\
  nd_data a !! (i * y_size + j)%nat = Some v.
Proof.
  unfold pixel, item. intros ->. cbn [length Nat.eqb].
  rewrite flat_offset_2.
  destruct (i <? x_size)%nat eqn:Hi; [|done].
  destruct (j <? y_size)%nat eqn:Hj; [|done].
  apply Nat.ltb_lt in Hi, Hj. cbn [mbind result_bind]. unfold getitem.
  destruct (nd_data a !! _) eqn:E; [|done]. intros [= ->]. done.
Qed.

(** The two arrays the synthesizer returns, element by element, for the
    table and the term of either variant. *)
Lemma scattering_to_signal_elements (tbl : gmap string params)
  (elements : list string) (ps : list params) (fracs : list float)
  (N C : ndarray) (s_size : nat) (s_scale : float) (x_size y_size : nat) :
  Forall2 (fun e p => tbl !! e = Some p) elements ps ->
  (length elements <= length fracs)%nat ->
  nd_shape N = [x_size; y_size] ->
  length (nd_data N) = (x_size * y_size)%nat ->
  nd_shape C = [x_size; y_size] ->
  length (nd_data C) = (x_size * y_size)%nat ->
  synthesized term ps fracs N C x_size y_size s_size s_scale
    (scattering_to_signal (Some tbl) term elements fracs N C s_size s_scale).
Proof.
  intros Hps Hfracs HN HNlen HC HClen.
  assert (Hlen : length ps = length elements)
    by (symmetry; by eapply Forall2_length).
  unfold synthesized, scattering_to_signal.
  rewrite (mapM_lookup_params _ _ _ Hps). cbn [mbind result_bind].
  rewrite HN. cbn [getitem lookup list_lookup mbind result_bind].
  unfold enumerate. rewrite for_each_accumulate by (cbn; lia).
  cbn [mbind result_bind]. unfold reshape_pixels.
  rewrite HNlen, HClen, Nat.mul_1_r, Nat.eqb_refl. cbn [mbind result_bind].
  rewrite drop_0.
  eexists _, _. split; [reflexivity|]. split; [done|]. split; [done|].
  intros i j k n c Hn Hc Hk.
  destruct (pixel_lookup _ _ _ _ _ _ HN Hn) as (Hi & Hj & Hn').
  destruct (pixel_lookup _ _ _ _ _ _ HC Hc) as (_ & _ & Hc').
  clear Hn Hc. rename Hn' into Hn, Hc' into Hc.
  assert (Hp : (i * y_size + j < x_size * y_size)%nat) by nia.
  set (x := map (fun i0 : float => i0 * s_scale) (arange s_size)).
  assert (Hx : x !! k = Some (of_nat k * s_scale))
    by (unfold x; by rewrite list_lookup_fmap, lookup_arange).
  assert (Hxlen : length x = s_size)
    by (unfold x, arange; by rewrite !length_map, length_seq).
  assert (H0 : replicate s_size 0 !! k = Some 0)
    by (by apply lookup_replicate_2).
  unfold curve_at. cbn [c_rows c_shape fst snd]. split.
  - rewrite lookup_zip_with, lookup_zip_with, Hn.
    rewrite lookup_replicate_2 by done. cbn [mbind option_bind].
    rewrite Hc. cbn [mbind option_bind].
    rewrite !list_lookup_fmap.
    rewrite (lookup_add_weighted _ x k _ _ _ 0 Hx)
      by (done || by rewrite length_replicate).
    cbn [fmap option_fmap option_map]. do 3 f_equal.
    apply (weighted_sum_fold (fun frac f => square f * frac) _
             (fun p => base_curve_at term p (of_nat k * s_scale))).
    intros frac v. apply mul_comm.
  - rewrite lookup_zip_with, Hn.
    rewrite lookup_replicate_2 by done. cbn [mbind option_bind].
    rewrite !list_lookup_fmap.
    rewrite (lookup_add_weighted _ x k _ _ _ 0 Hx)
      by (done || by rewrite length_replicate).
    cbn [fmap option_fmap option_map]. do 2 f_equal.
    apply (weighted_sum_fold (fun frac f => f * frac) _
             (fun p => base_curve_at term p (of_nat k * s_scale))).
    intros frac v. apply mul_comm.
Qed.

End Synthesizer.

Lemma pixel_constant (x_size y_size i j : nat) (v : float) :
  (i < x_size)%nat -> (j < y_size)%nat ->
  pixel (NdArray [x_size; y_size] (replicate (x_size * y_size) v)) i j
  = Some v.
Proof.
  intros Hi Hj. unfold pixel, item.
  cbn [nd_shape nd_data length Nat.eqb]. rewrite flat_offset_2.
  apply Nat.ltb_lt in Hi as Hi', Hj as Hj'. rewrite Hi', Hj'.
  cbn [mbind result_bind]. unfold getitem.
  rewrite lookup_replicate_2 by nia. done.
Qed.

(** With one element of fraction 1, [N = 1] and [C = 0] everywhere, the
    second array is the element's base curve. *)
Lemma scattering_to_signal_single (term : float * float -> float -> float)
  (tbl : gmap string params) (e : string) (p : params)
  (x_size y_size s_size : nat) (s_scale : float) :
  tbl !! e = Some p ->
  single_curve term p x_size y_size s_size s_scale
    (scattering_to_signal (Some tbl) term [e] [1]
       (NdArray [x_size; y_size] (replicate (x_size * y_size) 1))
       (NdArray [x_size; y_size] (replicate (x_size * y_size) 0))
       s_size s_scale).
Proof.
  intros He.
  destruct (scattering_to_signal_elements term tbl [e] [p] [1]
              (NdArray [x_size; y_size] (replicate (x_size * y_size) 1))
              (NdArray [x_size; y_size] (replicate (x_size * y_size) 0))
              s_size s_scale x_size y_size)
    as (signal & square_sum & Hr & _ & _ & Hat).
  { by repeat constructor. }
  { done. }
  { done. }
  { apply length_replicate. }
  { done. }
  { apply length_replicate. }
  exists signal, square_sum. split; [done|]. intros i j k Hi Hj Hk.
  destruct (Hat i j k 1 0 (pixel_constant _ _ _ _ _ Hi Hj)
              (pixel_constant _ _ _ _ _ Hi Hj) Hk) as [_ Hsum].
  eexists. split; [exact Hsum|].
  unfold weighted_sum. cbn [map zip zip_with fold_left fst snd].
  rewrite !mul_one_l. apply add_zero_l.
Qed.

(** Were the tables bound (the file as it is written binds neither), then
    with every element in its table, a fraction for every element and [N],
    [C] two grids of one shape, both synthesizers would return
    [N * sum_i frac_i * f_i(s)^2 + C] and [N * sum_i frac_i * f_i(s)]; and
    for a single element of fraction 1 with [N = 1] and [C = 0] everywhere
    the second array would be that element's base curve at every pixel. *)
Theorem scattering_to_signal_weighted_sums
  (np_exp : float -> float) (g : globals)
  (x_size y_size s_size : nat) (s_scale : float) :
  (forall (elements : list string) (fracs : list float) (N C : ndarray),
     (length elements <= length fracs)%nat ->
     nd_shape N = [x_size; y_size] ->
     length (nd_data N) = (x_size * y_size)%nat ->
     nd_shape C = [x_size; y_size] ->
     length (nd_data C) = (x_size * y_size)%nat ->
     (forall tbl ps,
        ATOMIC_SCATTERING_PARAMS_LOBATO g = Some tbl ->
        Forall2 (fun e p => tbl !! e = Some p) elements ps ->
        synthesized lobato_term ps fracs N C x_size y_size s_size s_scale
          (scattering_to_signal_lobato g elements fracs N C s_size s_scale))
     /\
     (forall tbl ps,
        ATOMIC_SCATTERING_PARAMS g = Some tbl ->
        Forall2 (fun e p => tbl !! e = Some p) elements ps ->
        synthesized (xtables_term np_exp) ps fracs N C x_size y_size s_size
          s_scale
          (scattering_to_signal_xtables np_exp g elements fracs N C s_size
             s_scale)))
  /\
  (forall (e : string) (p : params),
     let N := NdArray [x_size; y_size] (replicate (x_size * y_size) 1) in
     let C := NdArray [x_size; y_size] (replicate (x_size * y_size) 0) in
     (forall tbl,
        ATOMIC_SCATTERING_PARAMS_LOBATO g = Some tbl -> tbl !! e = Some p ->
        single_curve lobato_term p x_size y_size s_size s_scale
          (scattering_to_signal_lobato g [e] [1] N C s_size s_scale))
     /\
     (forall tbl,
        ATOMIC_SCATTERING_PARAMS g = Some tbl -> tbl !! e = Some p ->
        single_curve (xtables_term np_exp) p x_size y_size s_size s_scale
          (scattering_to_signal_xtables np_exp g [e] [1] N C s_size
             s_scale))).
Proof.
  split.
  - intros elements fracs N C Hfracs HN HNlen HC HClen. split.
    + intros tbl ps Hg Hps. unfold scattering_to_signal_lobato.
      rewrite Hg. by apply scattering_to_signal_elements.
    + intros tbl ps Hg Hps. unfold scattering_to_signal_xtables.
      rewrite Hg. by apply scattering_to_signal_elements.
  - intros e p N C. split.
    + intros tbl Hg He. unfold scattering_to_signal_lobato.
      rewrite Hg. by apply scattering_to_signal_single.
    + intros tbl Hg He. unfold scattering_to_signal_xtables.
      rewrite Hg. by apply scattering_to_signal_single.
Qed.

(** C7, where the code departs from it.  The two tables are read at lines
    90 and 142 and are bound nowhere in [pdf_utils.py]: with the single
    element ["C"] of fraction 1, [N = 1] and [C = 0] on a 1 x 2 grid, both
    synthesizers raise [NameError] instead of returning the element's base
    curve.  With the tables bound and the element in them, which is what
    the lines read, the same calls return that base curve at every
    pixel. *)
Theorem scattering_to_signal_tables_unbound (np_exp : float -> float) :
  let N := NdArray [1; 2]%nat (replicate (1 * 2) 1) in
  let C := NdArray [1; 2]%nat (replicate (1 * 2) 0) in
  scattering_to_signal_lobato pdf_utils_globals ["C"] [1] N C 3 0.5
  = Err NameError /\
  scattering_to_signal_xtables np_exp pdf_utils_globals ["C"] [1] N C 3 0.5
  = Err NameError /\
  forall (tbl : gmap string params) (p : params),
    tbl !! "C" = Some p ->
    let g := Globals None (Some tbl) (Some tbl) in
    single_curve lobato_term p 1 2 3 0.5
      (scattering_to_signal_lobato g ["C"] [1] N C 3 0.5) /\
    single_curve (xtables_term np_exp) p 1 2 3 0.5
      (scattering_to_signal_xtables np_exp g ["C"] [1] N C 3 0.5).
Proof.
  intros N C. split; [reflexivity|]. split; [reflexivity|].
  intros tbl p Hp g. split.
  - by apply (scattering_to_signal_single lobato_term tbl "C" p 1 2 3 0.5).
  - by apply (scattering_to_signal_single (xtables_term np_exp) tbl "C" p
                1 2 3 0.5).
Qed.

(** In the file as it is written the tables are never imported: with at
    least one element, both synthesizers raise [NameError]. *)
Lemma scattering_to_signal_name_error (np_exp : float -> float)
  (e : string) (elements : list string) (fracs : list float)
  (N C : ndarray) (s_size : nat) (s_scale : float) :
  scattering_to_signal_lobato pdf_utils_globals (e :: elements) fracs N C
    s_size s_scale = Err NameError /\
  scattering_to_signal_xtables np_exp pdf_utils_globals (e :: elements)
    fracs N C s_size s_scale = Err NameError.
Proof. split; reflexivity. Qed.

Lemma scattering_to_signal_weighted_sums_witness :
  let tbl : gmap string params :=
    {[ "C" := [(0.25, 0.5); (1, 2)]; "O" := [(0.5, 0.125)] ]} in
  let g := Globals None (Some tbl) (Some tbl) in
  let N := NdArray [1; 2]%nat [2; 3] in
  let C := NdArray [1; 2]%nat [0.5; 0.25] in
  synthesized lobato_term [[(0.25, 0.5); (1, 2)]; [(0.5, 0.125)]]
    [0.75; 0.25] N C 1 2 3 0.5
    (scattering_to_signal_lobato g ["C"; "O"] [0.75; 0.25] N C 3 0.5).
Proof.
  intros tbl g N C.
  apply (proj1 (proj1 (scattering_to_signal_weighted_sums
                         (fun x => 1 + x) g 1 2 3 0.5)
                  ["C"; "O"] [0.75; 0.25] N C
                  (le_n 2) eq_refl eq_refl eq_refl eq_refl)
           tbl [[(0.25, 0.5); (1, 2)]; [(0.5, 0.125)]] eq_refl).
  repeat constructor.
Defined.

(** ** [pdf_utils.py]: masking *)

(** [mask_from_pattern] multiplies element by element: the pattern
    [[1, 0, 1]] on [[5, 5, 5]] gives [[5, 0, 5]], and a pattern of another
    length (other than 1) cannot be broadcast. *)
Lemma mask_from_pattern_example :
  mask_from_pattern [5; 5; 5] [1; 0; 1] = Ok [5; 0; 5] /\
  mask_from_pattern [5; 5; 5] [1; 0] = Err ValueError.
Proof. split; reflexivity. Qed.

End PdfUtilsProofs.

(** ** [lazy_tools.py]: the chunk-index mapper *)

Module LazyToolsProofs.
Import Np LazyTools NpFacts.

Lemma temp_slice_dim_offsets (chunk_list : list nat) (current_v : nat) :
  temp_slice_dim current_v chunk_list
  = map (fun k => (current_v + sum_list (take k chunk_list),
                   current_v + sum_list (take (S k) chunk_list))%nat)
        (seq 0 (length chunk_list)).
Proof.
  revert current_v.
  induction chunk_list as [|chunk rest IH]; intros current_v; [done|].
  cbn [temp_slice_dim length seq map]. rewrite IH. f_equal.
  - rewrite take_0. cbn. rewrite take_0. cbn. f_equal; lia.
  - rewrite <- seq_shift, map_map. apply map_ext. intros k.
    rewrite !firstn_cons. cbn. f_equal; lia.
Qed.

(** The loop of lines 30-35 computes the boundary pairs of the axis. *)
Lemma temp_slice_dim_boundary_pairs (chunk_list : list nat) :
  temp_slice_dim 0 chunk_list = boundary_pairs chunk_list.
Proof. by rewrite temp_slice_dim_offsets. Qed.

Lemma length_boundary_pairs (chunk_list : list nat) :
  length (boundary_pairs chunk_list) = length chunk_list.
Proof. unfold boundary_pairs. by rewrite length_map, length_seq. Qed.

Lemma lookup_boundary_pairs (chunk_list : list nat) (i : nat) :
  (i < length chunk_list)%nat ->
  boundary_pairs chunk_list !! i
  = Some (sum_list (take i chunk_list), sum_list (take (S i) chunk_list)).
Proof.
  intros Hi. unfold boundary_pairs.
  by rewrite list_lookup_fmap, lookup_seq_lt.
Qed.

Lemma lookup_boundary_pairs_inv (chunk_list : list nat) (i : nat)
  (b : nat * nat) :
  boundary_pairs chunk_list !! i = Some b ->
  (i < length chunk_list)%nat /\
  b = (sum_list (take i chunk_list), sum_list (take (S i) chunk_list)).
Proof.
  intros Hb.
  assert (Hi : (i < length chunk_list)%nat).
  { apply lookup_lt_Some in Hb. by rewrite length_boundary_pairs in Hb. }
  split; [done|]. rewrite lookup_boundary_pairs in Hb by done. congruence.
Qed.

Lemma sum_list_take_S (l : list nat) (i n : nat) :
  l !! i = Some n ->
  sum_list (take (S i) l) = (sum_list (take i l) + n)%nat.
Proof.
  intros H. rewrite (take_S_r _ _ _ H), sum_list_with_app. cbn. lia.
Qed.

Lemma sum_list_take_mono (l : list nat) (i j : nat) :
  (i <= j)%nat -> (sum_list (take i l) <= sum_list (take j l))%nat.
Proof.
  induction 1 as [|j _ IH]; [done|].
  destruct (l !! j) as [n|] eqn:E.
  - rewrite (sum_list_take_S _ _ _ E). lia.
  - apply lookup_ge_None in E.
    rewrite (take_ge l (S j)) by lia. by rewrite (take_ge l j) in IH by lia.
Qed.

(** Every index below the total lies in some chunk. *)
Lemma sum_list_take_cover (l : list nat) (k x : nat) :
  (x < sum_list (take k l))%nat ->
  exists i, (i < k)%nat /\ (i < length l)%nat /\
    (sum_list (take i l) <= x < sum_list (take (S i) l))%nat.
Proof.
  induction k as [|k IH]; intros Hx.
  - rewrite take_0 in Hx. cbn in Hx. lia.
  - destruct (decide (x < sum_list (take k l))%nat) as [Hlt|Hge].
    + destruct (IH Hlt) as (i & ? & ? & ?). exists i. auto with lia.
    + exists k. split; [lia|].
      destruct (decide (k < length l)%nat) as [Hk|Hk]; [split; [done|lia]|].
      rewrite (take_ge l (S k)) in Hx by lia.
      rewrite (take_ge l k) in Hge by lia. lia.
Qed.

(** C2.  For an array with one navigation axis (rank 3) whose chunk sizes
    along it are [c], all positive, the mapper returns one window per
    chunk; their navigation ranges are non-empty half-open intervals, the
    first starts at 0, each starts where the one before stops, the last
    stops at [sum c], and every index below [sum c] lies in exactly one of
    them. *)
Theorem chunk_slice_list_one_navigation_axis
  (a : dask_array) (c sig0 sig1 : list nat) :
  length (shape a) = 3%nat ->
  chunks a = [c; sig0; sig1] ->
  Forall (fun n => 0 < n)%nat c ->
  exists bounds : list (nat * nat),
    _get_dask_chunk_slice_list a
    = Ok (map (fun b => [slice b.1 b.2; slice_all; slice_all]) bounds) /\
    length bounds = length c /\
    (forall i b, bounds !! i = Some b -> (b.1 < b.2)%nat) /\
    (forall b, bounds !! 0%nat = Some b -> b.1 = 0%nat) /\
    (forall i b b', bounds !! i = Some b -> bounds !! S i = Some b' ->
       b'.1 = b.2) /\
    (forall b, last bounds = Some b -> b.2 = sum_list c) /\
    (forall x, (x < sum_list c)%nat <->
       exists i b, bounds !! i = Some b /\ (b.1 <= x < b.2)%nat) /\
    (forall x i j b b',
       bounds !! i = Some b -> bounds !! j = Some b' ->
       (b.1 <= x < b.2)%nat -> (b'.1 <= x < b'.2)%nat -> i = j).
Proof.
  intros Hrank Hchunks Hpos. exists (boundary_pairs c).
  split; [|split; [|split; [|split; [|split; [|split; [|split]]]]]].
  - unfold _get_dask_chunk_slice_list, unsupported_rank.
    rewrite Hrank, Hchunks. cbn. by rewrite temp_slice_dim_boundary_pairs.
  - apply length_boundary_pairs.
  - intros i b [Hi ->]%lookup_boundary_pairs_inv. cbn.
    destruct (lookup_lt_is_Some_2 c i Hi) as [n Hn].
    rewrite (sum_list_take_S _ _ _ Hn).
    rewrite Forall_lookup in Hpos. specialize (Hpos _ _ Hn). cbn in Hpos.
    lia.
  - by intros b [_ ->]%lookup_boundary_pairs_inv.
  - by intros i b b' [_ ->]%lookup_boundary_pairs_inv
                     [_ ->]%lookup_boundary_pairs_inv.
  - intros b Hb. rewrite last_lookup, length_boundary_pairs in Hb.
    apply lookup_boundary_pairs_inv in Hb as [Hi ->]. cbn.
    by rewrite take_ge by lia.
  - intros x. split.
    + intros Hx. rewrite <- (take_ge c (length c)) in Hx by done.
      destruct (sum_list_take_cover _ _ _ Hx) as (i & _ & Hi & Hin).
      exists i, (sum_list (take i c), sum_list (take (S i) c)).
      by rewrite lookup_boundary_pairs.
    + intros (i & b & [Hi ->]%lookup_boundary_pairs_inv & Hin). cbn in Hin.
      pose proof (sum_list_take_mono c (S i) (length c) Hi) as Hm.
      rewrite (take_ge c (length c)) in Hm by done. lia.
  - intros x i j b b' [Hi ->]%lookup_boundary_pairs_inv
           [Hj ->]%lookup_boundary_pairs_inv Hx Hx'. cbn in Hx, Hx'.
    destruct (Nat.lt_trichotomy i j) as [Hlt|[->|Hgt]]; [|done|].
    + pose proof (sum_list_take_mono c (S i) j Hlt). lia.
    + pose proof (sum_list_take_mono c (S j) i Hgt). lia.
Qed.

Lemma chunk_slice_list_one_navigation_axis_witness :
  exists bounds : list (nat * nat),
    _get_dask_chunk_slice_list
      (DaskArray [5; 8; 8]%nat [[2; 2; 1]; [8]; [8]]%nat (fun _ => []))
    = Ok (map (fun b => [slice b.1 b.2; slice_all; slice_all]) bounds) /\
    length bounds = length [2; 2; 1]%nat /\
    (forall i b, bounds !! i = Some b -> (b.1 < b.2)%nat) /\
    (forall b, bounds !! 0%nat = Some b -> b.1 = 0%nat) /\
    (forall i b b', bounds !! i = Some b -> bounds !! S i = Some b' ->
       b'.1 = b.2) /\
    (forall b, last bounds = Some b -> b.2 = sum_list [2; 2; 1]%nat) /\
    (forall x, (x < sum_list [2; 2; 1]%nat)%nat <->
       exists i b, bounds !! i = Some b /\ (b.1 <= x < b.2)%nat) /\
    (forall x i j b b',
       bounds !! i = Some b -> bounds !! j = Some b' ->
       (b.1 <= x < b.2)%nat -> (b'.1 <= x < b'.2)%nat -> i = j).
Proof.
  apply (chunk_slice_list_one_navigation_axis
           (DaskArray [5; 8; 8]%nat [[2; 2; 1]; [8]; [8]]%nat (fun _ => []))
           [2; 2; 1]%nat [8]%nat [8]%nat);
    [reflexivity | reflexivity | repeat constructor].
Defined.

Lemma lookup_flat_map_uniform {A B} (f : A -> list B) (n : nat)
  (l : list A) (i j : nat) (x : A) (y : B) :
  (forall x, length (f x) = n) ->
  l !! i = Some x -> f x !! j = Some y ->
  flat_map f l !! (i * n + j)%nat = Some y.
Proof.
  intros Hlen. revert i. induction l as [|x0 l IH]; intros i Hx Hy; [done|].
  cbn [flat_map]. destruct i as [|i].
  - injection Hx as ->. cbn. by apply lookup_app_l_Some.
  - cbn in Hx. rewrite lookup_app_r by (rewrite Hlen; lia).
    rewrite Hlen. replace (S i * n + j - n)%nat with (i * n + j)%nat by lia.
    by apply IH.
Qed.

Lemma length_flat_map_uniform {A B} (f : A -> list B) (n : nat)
  (l : list A) :
  (forall x, length (f x) = n) ->
  length (flat_map f l) = (length l * n)%nat.
Proof.
  intros Hlen. induction l as [|x l IH]; [done|].
  cbn [flat_map length]. rewrite length_app, Hlen, IH. lia.
Qed.

Lemma chunk_slice_list_rank_4 (a : dask_array) (c0 c1 sig0 sig1 : list nat) :
  length (shape a) = 4%nat ->
  chunks a = [c0; c1; sig0; sig1] ->
  _get_dask_chunk_slice_list a
  = Ok (flat_map (fun outer => map (window_of outer) (boundary_pairs c1))
                 (boundary_pairs c0)).
Proof.
  intros Hrank Hchunks.
  unfold _get_dask_chunk_slice_list, unsupported_rank.
  rewrite Hrank, Hchunks. cbn.
  by rewrite !temp_slice_dim_boundary_pairs.
Qed.

(** C3.  For an array with two navigation axes (rank 4) whose chunk lists
    along them are [c0] and [c1], the mapper returns
    [length c0 * length c1] windows in row-major order: the window of outer
    chunk [i] and inner chunk [j] is at position [i * length c1 + j], and
    it is the pair of the two boundary ranges followed by [:] on both signal
    axes. *)
Theorem chunk_slice_list_two_navigation_axes
  (a : dask_array) (c0 c1 sig0 sig1 : list nat) :
  length (shape a) = 4%nat ->
  chunks a = [c0; c1; sig0; sig1] ->
  exists slice_list,
    _get_dask_chunk_slice_list a = Ok slice_list /\
    length slice_list = (length c0 * length c1)%nat /\
    slice_list
    = flat_map (fun outer => map (window_of outer) (boundary_pairs c1))
               (boundary_pairs c0) /\
    forall i j, (i < length c0)%nat -> (j < length c1)%nat ->
      slice_list !! (i * length c1 + j)%nat
      = Some [slice (sum_list (take i c0)) (sum_list (take (S i) c0));
              slice (sum_list (take j c1)) (sum_list (take (S j) c1));
              slice_all; slice_all].
Proof.
  intros Hrank Hchunks.
  assert (Hlen : forall outer : nat * nat,
            length (map (window_of outer) (boundary_pairs c1)) = length c1)
    by (intros outer; by rewrite length_map, length_boundary_pairs).
  eexists. split; [|split; [|split]].
  - by apply (chunk_slice_list_rank_4 a c0 c1 sig0 sig1).
  - by rewrite (length_flat_map_uniform _ (length c1)),
               length_boundary_pairs.
  - reflexivity.
  - intros i j Hi Hj.
    eapply (lookup_flat_map_uniform _ (length c1)); [done| |].
    + by apply lookup_boundary_pairs.
    + by rewrite list_lookup_fmap, lookup_boundary_pairs.
Qed.

Lemma chunk_slice_list_two_navigation_axes_witness :
  exists slice_list,
    _get_dask_chunk_slice_list
      (DaskArray [4; 3; 8; 8]%nat [[2; 2]; [1; 2]; [8]; [8]]%nat
                 (fun _ => []))
    = Ok slice_list /\
    length slice_list = (length [2; 2]%nat * length [1; 2]%nat)%nat /\
    slice_list
    = flat_map (fun outer =>
                  map (window_of outer) (boundary_pairs [1; 2]%nat))
               (boundary_pairs [2; 2]%nat) /\
    forall i j, (i < length [2; 2]%nat)%nat -> (j < length [1; 2]%nat)%nat ->
      slice_list !! (i * length [1; 2]%nat + j)%nat
      = Some [slice (sum_list (take i [2; 2]%nat))
                    (sum_list (take (S i) [2; 2]%nat));
              slice (sum_list (take j [1; 2]%nat))
                    (sum_list (take (S j) [1; 2]%nat));
              slice_all; slice_all].
Proof.
  apply (chunk_slice_list_two_navigation_axes
           (DaskArray [4; 3; 8; 8]%nat [[2; 2]; [1; 2]; [8]; [8]]%nat
                      (fun _ => []))
           [2; 2]%nat [1; 2]%nat [8]%nat [8]%nat); reflexivity.
Defined.

(** ** [lazy_tools.py]: the rank check *)

(** Ranks 2 and above 4 are refused by both functions, before anything is
    allocated, materialized or invoked. *)
Lemma unsupported_rank_is_refused (a : dask_array)
  (function : frame -> frame_result) (return_sig_size : nat)
  (show_progressbar : bool) :
  length (shape a) = 2%nat \/ (4 < length (shape a))%nat ->
  _get_dask_chunk_slice_list a = Err NotImplementedError /\
  run (_calculate_function_on_dask_array a function return_sig_size
         show_progressbar)
  = ([], Err NotImplementedError).
Proof.
  intros H.
  assert (Hu : unsupported_rank a = true).
  { unfold unsupported_rank. apply orb_true_iff.
    destruct H as [H|H]; [left; by apply Nat.eqb_eq | right; by apply Nat.ltb_lt]. }
  unfold _get_dask_chunk_slice_list, _calculate_function_on_dask_array.
  by rewrite Hu.
Qed.

Lemma unsupported_rank_is_refused_witness :
  _get_dask_chunk_slice_list
    (DaskArray [8; 8]%nat [[8]; [8]]%nat (fun _ => []))
  = Err NotImplementedError /\
  run (_calculate_function_on_dask_array
         (DaskArray [8; 8]%nat [[8]; [8]]%nat (fun _ => []))
         (fun _ => RScalar 1) 1 true)
  = ([], Err NotImplementedError).
Proof.
  apply (unsupported_rank_is_refused
           (DaskArray [8; 8]%nat [[8]; [8]]%nat (fun _ => []))
           (fun _ => RScalar 1) 1 true).
  left. reflexivity.
Defined.

(** C4, where the code departs from it: a rank-1 array is not refused.  The
    mapper returns no window and the driver returns a 0-d array of zeros. *)
Theorem rank_one_array_passes_the_rank_check :
  let a := DaskArray [4]%nat [[2; 2]]%nat (fun _ => []) in
  _get_dask_chunk_slice_list a = Ok [] /\
  run (_calculate_function_on_dask_array a (fun _ => RScalar 1) 1 true)
  = ([Allocate []], Ok (zeros [])).
Proof. split; reflexivity. Qed.

(** C9.  A rank-1 array passes the rank check: the mapper returns the empty
    list of windows, and the driver allocates its output, materializes
    nothing, never invokes the function, and returns the array of zeros. *)
Theorem rank_one_array_yields_zeros (a : dask_array)
  (function : frame -> frame_result) (return_sig_size : nat)
  (show_progressbar : bool) :
  length (shape a) = 1%nat ->
  length (chunks a) = 1%nat ->
  let out_shape :=
    if (return_sig_size =? 1)%nat then [] else [return_sig_size] in
  _get_dask_chunk_slice_list a = Ok [] /\
  run (_calculate_function_on_dask_array a function return_sig_size
         show_progressbar)
  = ([Allocate out_shape], Ok (zeros out_shape)) /\
  forall im,
    Invoke im ∉ (run (_calculate_function_on_dask_array a function
                        return_sig_size show_progressbar)).1.
Proof.
  intros Hshape Hchunks out_shape.
  destruct a as [[|n [|? ?]] [|c [|? ?]] frame_at]; try done.
  assert (Hrun : run (_calculate_function_on_dask_array
                        (DaskArray [n] [c] frame_at) function
                        return_sig_size show_progressbar)
                 = ([Allocate out_shape], Ok (zeros out_shape))).
  { unfold out_shape, _calculate_function_on_dask_array, run.
    cbn. by destruct (return_sig_size =? 1)%nat. }
  split; [done|]. split; [done|].
  intros im. rewrite Hrun. cbn. intros Hin.
  apply list_elem_of_singleton in Hin. done.
Qed.

Lemma rank_one_array_yields_zeros_witness :
  let out_shape := [3%nat] in
  _get_dask_chunk_slice_list (DaskArray [6]%nat [[4; 2]]%nat (fun _ => []))
  = Ok [] /\
  run (_calculate_function_on_dask_array
         (DaskArray [6]%nat [[4; 2]]%nat (fun _ => []))
         (fun _ => RVector [1; 2; 3]) 3 false)
  = ([Allocate out_shape], Ok (zeros out_shape)) /\
  forall im,
    Invoke im ∉ (run (_calculate_function_on_dask_array
                        (DaskArray [6]%nat [[4; 2]]%nat (fun _ => []))
                        (fun _ => RVector [1; 2; 3]) 3 false)).1.
Proof.
  apply (rank_one_array_yields_zeros
           (DaskArray [6]%nat [[4; 2]]%nat (fun _ => []))
           (fun _ => RVector [1; 2; 3]) 3 false); reflexivity.
Defined.

(** ** [lazy_tools.py]: the driver on any array with two navigation axes *)

Lemma flat_map_singleton {A B} (f : A -> B) (l : list A) :
  flat_map (fun x => [f x]) l = map f l.
Proof. induction l as [|x l IH]; [done|]. cbn. by rewrite IH. Qed.

Lemma indices_2 (n0 n1 : nat) :
  indices [n0; n1]
  = flat_map (fun i => map (fun j => [i; j]) (seq 0 n1)) (seq 0 n0).
Proof.
  cbn [indices map]. rewrite (flat_map_singleton (fun j => [j])).
  apply flat_map_ext. intros i. by rewrite map_map.
Qed.

Lemma length_indices_2 (n0 n1 : nat) :
  length (indices [n0; n1]) = (n0 * n1)%nat.
Proof.
  rewrite indices_2, (length_flat_map_uniform _ n1), length_seq; [done|].
  intros i. by rewrite length_map, length_seq.
Qed.

Lemma lookup_indices_2 (n0 n1 i j : nat) :
  (i < n0)%nat -> (j < n1)%nat ->
  indices [n0; n1] !! (i * n1 + j)%nat = Some [i; j].
Proof.
  intros Hi Hj. rewrite indices_2.
  apply (lookup_flat_map_uniform _ n1 _ i j i).
  - intros x. by rewrite length_map, length_seq.
  - by rewrite lookup_seq_lt.
  - by rewrite list_lookup_fmap, lookup_seq_lt.
Qed.

Lemma elem_of_indices_2 (n0 n1 : nat) (c : list nat) :
  c ∈ indices [n0; n1] ->
  exists i j, c = [i; j] /\ (i < n0)%nat /\ (j < n1)%nat.
Proof.
  rewrite indices_2, list_elem_of_In, in_flat_map.
  intros (i & Hi%in_seq & (j & <- & Hj%in_seq)%in_map_iff).
  exists i, j. split; [done|]. lia.
Qed.

Lemma div_mod_offset (n1 i j : nat) :
  (j < n1)%nat -> ((i * n1 + j) / n1 = i /\ (i * n1 + j) mod n1 = j)%nat.
Proof.
  intros Hj. split.
  - symmetry. apply (Nat.div_unique _ _ _ j); [done|lia].
  - symmetry. apply (Nat.mod_unique _ _ i); [done|lia].
Qed.

Lemma value_at_offset (a : dask_array) (function : frame -> float)
  (n1 i j : nat) :
  (j < n1)%nat ->
  value_at a function n1 (i * n1 + j) = function (frame_at a [i; j]).
Proof.
  intros Hj. unfold value_at.
  by destruct (div_mod_offset n1 i j Hj) as [-> ->].
Qed.

(** A coordinate inside an [n0] x [n1] navigation grid. *)
Lemma for_each_setitem (a : dask_array) (function : frame -> float)
  (n0 n1 : nat) (cs : list (list nat)) (d : list float) :
  length d = (n0 * n1)%nat ->
  Forall (fun c => exists i j, c = [i; j] /\ (i < n0)%nat /\ (j < n1)%nat)
         cs ->
  for_each (fun return_data coordinate =>
              setitem return_data coordinate false
                      (RScalar (function (frame_at a coordinate))))
           cs (NdArray [n0; n1] d)
  = Ok (NdArray [n0; n1]
          (write_all (value_at a function n1) (map (offset_of n1) cs) d)).
Proof.
  intros Hd Hcs. revert d Hd.
  induction Hcs as [|c cs (i & j & -> & Hi & Hj) _ IH]; intros d Hd; [done|].
  cbn [for_each]. rewrite setitem_scalar_2 by done.
  rewrite IH by (by rewrite length_insert).
  cbn [map offset_of]. unfold write_all. cbn [foldl].
  by rewrite value_at_offset.
Qed.

Lemma table_of_values (a : dask_array) (function : frame -> float)
  (n0 n1 : nat) :
  map (value_at a function n1) (seq 0 (n0 * n1))
  = map (fun c => function (frame_at a c)) (indices [n0; n1]).
Proof.
  apply list_eq. intros p. rewrite !list_lookup_fmap.
  destruct (decide (p < n0 * n1)%nat) as [Hp|Hp].
  - assert (Hn1 : (0 < n1)%nat) by nia.
    assert (Hj : (p mod n1 < n1)%nat) by (apply Nat.mod_upper_bound; lia).
    assert (Hi : (p / n1 < n0)%nat) by (apply Nat.Div0.div_lt_upper_bound; lia).
    assert (Ep : p = (p / n1 * n1 + p mod n1)%nat)
      by (rewrite Nat.mul_comm; apply Nat.div_mod_eq).
    rewrite lookup_seq_lt by done.
    rewrite Ep at 2. rewrite lookup_indices_2 by done. done.
  - rewrite !lookup_ge_None_2; [done| |].
    + rewrite length_indices_2. lia.
    + rewrite length_seq. lia.
Qed.

(** The direct loop writes every element of the output once. *)
Lemma direct_loop_table (a : dask_array) (function : frame -> float)
  (n0 n1 s0 s1 : nat) :
  shape a = [n0; n1; s0; s1] ->
  direct_loop a function
  = Ok (NdArray [n0; n1]
          (map (fun c => function (frame_at a c)) (indices [n0; n1]))).
Proof.
  intros Hshape. unfold direct_loop. rewrite Hshape.
  change (but_last_two [n0; n1; s0; s1]) with [n0; n1].
  unfold zeros.
  rewrite (for_each_setitem a function n0 n1).
  - do 2 f_equal. rewrite <- table_of_values.
    assert (Hlen : length (replicate (size_of [n0; n1]) (0 : float))
                   = (n0 * n1)%nat)
      by (rewrite length_replicate; cbn; lia).
    rewrite <- Hlen. apply write_all_cover.
    intros p Hp. rewrite Hlen in Hp.
    assert (Hn1 : (0 < n1)%nat) by nia.
    assert (Hj : (p mod n1 < n1)%nat) by (apply Nat.mod_upper_bound; lia).
    assert (Hi : (p / n1 < n0)%nat) by (apply Nat.Div0.div_lt_upper_bound; lia).
    apply list_elem_of_fmap. exists [p / n1; p mod n1]%nat. split.
    + cbn. rewrite Nat.mul_comm. apply Nat.div_mod_eq.
    + eapply list_elem_of_lookup_2. by apply lookup_indices_2.
  - rewrite length_replicate. cbn. lia.
  - apply Forall_forall. intros c Hc. by apply elem_of_indices_2.
Qed.

Lemma for_each_traced_fold {A S} (body : S -> A -> traced S)
  (h : S -> A -> S) (P : S -> Prop) (Q : A -> Prop) (l : list A) :
  (forall s x log, P s -> Q x ->
     exists log', body s x log = (log', Ok (h s x)) /\ P (h s x)) ->
  Forall Q l ->
  forall s log, P s ->
    exists log',
      for_each_traced body l s log = (log', Ok (foldl h s l)) /\
      P (foldl h s l).
Proof.
  intros Hbody HQ. induction HQ as [|x l Hx _ IH]; intros s log Hs.
  - exists log. by split.
  - cbn [for_each_traced foldl]. unfold mbind, traced_bind.
    destruct (Hbody s x log Hs Hx) as (log' & -> & Hs').
    apply IH, Hs'.
Qed.

Lemma map_flat_map {A B C} (f : B -> C) (g : A -> list B) (l : list A) :
  map f (flat_map g l) = flat_map (fun x => map f (g x)) l.
Proof.
  induction l as [|x l IH]; [done|]. cbn. by rewrite map_app, IH.
Qed.

(** The frames of a window, once materialized. *)
Lemma compute_window (a : dask_array) (n0 n1 s0 s1 a0 b0 a1 b1 : nat) :
  shape a = [n0; n1; s0; s1] ->
  (a0 <= b0 <= n0)%nat -> (a1 <= b1 <= n1)%nat ->
  compute a [slice a0 b0; slice a1 b1; slice_all; slice_all]
  = Ok (DataSlice [b0 - a0; b1 - a1]%nat
          (map (fun local => frame_at a (zip_with Nat.add [a0; a1] local))
               (indices [b0 - a0; b1 - a1]%nat))).
Proof.
  intros Hshape H0 H1. unfold compute. rewrite Hshape.
  change (but_last_two [n0; n1; s0; s1]) with [n0; n1].
  cbn [length Nat.ltb Nat.leb seq zip_with entry lookup list_lookup default
       slice_indices fmap list_fmap fst snd crop].
  unfold id. cbn [slice_indices crop fst snd].
  by rewrite !Nat.min_l by lia.
Qed.

Lemma frame_of_window (F : list nat -> frame) (e0 e1 i0 i1 : nat) :
  (i0 < e0)%nat -> (i1 < e1)%nat ->
  frame_of (DataSlice [e0; e1] (map F (indices [e0; e1]))) [i0; i1]
  = Ok (F [i0; i1]).
Proof.
  intros H0 H1. unfold frame_of. cbn [length ds_shape ds_frames Nat.eqb].
  rewrite flat_offset_2.
  apply Nat.ltb_lt in H0 as H0', H1 as H1'. rewrite H0', H1'.
  cbn [mbind result_bind]. unfold getitem.
  by rewrite list_lookup_fmap, lookup_indices_2.
Qed.

Lemma write_coordinates_app (G : nat -> float) (n1 : nat)
  (cs1 cs2 : list (list nat)) (return_data : ndarray) :
  write_coordinates G n1 (cs1 ++ cs2) return_data
  = write_coordinates G n1 cs2 (write_coordinates G n1 cs1 return_data).
Proof.
  unfold write_coordinates. cbn [nd_shape nd_data].
  by rewrite map_app, write_all_app.
Qed.

Lemma foldl_write_coordinates {A} (G : nat -> float) (n1 : nat)
  (k : A -> list (list nat)) (l : list A) (return_data : ndarray) :
  foldl (fun rd x => write_coordinates G n1 (k x) rd) return_data l
  = write_coordinates G n1 (flat_map k l) return_data.
Proof.
  revert return_data. induction l as [|x l IH]; intros return_data.
  - by destruct return_data.
  - cbn [foldl flat_map]. by rewrite IH, write_coordinates_app.
Qed.

Lemma output_of_write_coordinates (G : nat -> float) (n0 n1 : nat)
  (cs : list (list nat)) (return_data : ndarray) :
  output_of n0 n1 return_data ->
  output_of n0 n1 (write_coordinates G n1 cs return_data).
Proof.
  intros [Hs Hd]. split; [done|]. cbn. by rewrite length_write_all.
Qed.

(** One frame of a window: lines 114-119. *)
Lemma process_frame (a : dask_array) (function : frame -> float)
  (n0 n1 a0 b0 a1 b1 i0 i1 : nat) (return_data : ndarray)
  (log : list event) :
  (b0 <= n0)%nat -> (b1 <= n1)%nat ->
  (i0 < b0 - a0)%nat -> (i1 < b1 - a1)%nat ->
  output_of n0 n1 return_data ->
  let slice_chunk := [slice a0 b0; slice a1 b1; slice_all; slice_all] in
  let d := DataSlice [b0 - a0; b1 - a1]%nat
             (map (fun local => frame_at a (zip_with Nat.add [a0; a1] local))
                  (indices [b0 - a0; b1 - a1]%nat)) in
  (im ← lift (frame_of d [i0; i1]);
   start0 ← lift (entry_start slice_chunk 0);
   im_slice0 ← lift (getitem [i0; i1] 0);
   let i_x := (start0 + im_slice0)%nat in
   start1 ← lift (entry_start slice_chunk 1);
   im_slice1 ← lift (getitem [i0; i1] 1);
   let i_y := (start1 + im_slice1)%nat in
   tell (Invoke im);;
   let out_data := RScalar (function im) in
   lift (store return_data 1 [i_x; i_y] out_data)) log
  = (log ++ [Invoke (frame_at a [a0 + i0; a1 + i1]%nat)],
     Ok (write_coordinates (value_at a function n1) n1
           [[a0 + i0; a1 + i1]%nat] return_data)).
Proof.
  intros Hb0 Hb1 Hi0 Hi1 [Hs Hd] slice_chunk d.
  unfold d. rewrite frame_of_window by done.
  destruct return_data as [shp data]. cbn in Hs, Hd. subst shp.
  cbn [entry_start getitem lookup list_lookup mbind result_bind slice_chunk
       zip_with].
  cbv [mbind traced_bind lift tell].
  unfold store. cbn [Nat.eqb].
  rewrite setitem_scalar_2 by (done || lia).
  unfold write_coordinates, write_all.
  cbn [map offset_of foldl nd_shape nd_data].
  by rewrite value_at_offset by lia.
Qed.

(** One window: lines 94-121 store the results of exactly its frames. *)
Lemma process_window (a : dask_array) (function : frame -> float)
  (n0 n1 s0 s1 a0 b0 a1 b1 : nat) (return_data : ndarray)
  (log : list event) :
  shape a = [n0; n1; s0; s1] ->
  (a0 <= b0 <= n0)%nat -> (a1 <= b1 <= n1)%nat ->
  output_of n0 n1 return_data ->
  let slice_chunk := [slice a0 b0; slice a1 b1; slice_all; slice_all] in
  exists log',
    process_chunk a (fun im => RScalar (function im)) 1 return_data
                  slice_chunk log
    = (log', Ok (write_coordinates (value_at a function n1) n1
                   (coordinates_of slice_chunk) return_data)) /\
    output_of n0 n1 (write_coordinates (value_at a function n1) n1
                       (coordinates_of slice_chunk) return_data).
Proof.
  intros Hshape H0 H1 Hout slice_chunk.
  unfold process_chunk, slice_chunk. rewrite (compute_window a n0 n1 s0 s1)
    by done.
  cbv [mbind traced_bind lift tell].
  cbn [length ds_shape]. unfold process_frames_2.
  cbn [ds_shape lookup_total list_lookup_total].
  set (h := fun (rd : ndarray) (im_slice : list nat) =>
              write_coordinates (value_at a function n1) n1
                [zip_with Nat.add [a0; a1] im_slice] rd).
  set (Q := fun im_slice : list nat =>
              exists i0 i1, im_slice = [i0; i1] /\
                (i0 < b0 - a0)%nat /\ (i1 < b1 - a1)%nat).
  match goal with
  | |- context [for_each_traced ?body ?l return_data ?log0] =>
      destruct (for_each_traced_fold body h (output_of n0 n1) Q l)
        with (s := return_data) (log := log0)
        as (log' & Hrun & Hout')
  end.
  - intros rd im_slice log0 Hrd (i0 & i1 & -> & Hi0 & Hi1).
    eexists. split.
    + apply (process_frame a function n0 n1 a0 b0 a1 b1 i0 i1 rd log0);
        (done || lia).
    + by apply output_of_write_coordinates.
  - apply Forall_forall. intros im_slice Him.
    apply list_elem_of_In, in_flat_map in Him
      as (i0 & Hi0%in_seq & (i1 & <- & Hi1%in_seq)%in_map_iff).
    exists i0, i1. split; [done|]. lia.
  - done.
  - assert (E : forall l rd,
               foldl h rd l
               = write_coordinates (value_at a function n1) n1
                   (map (zip_with Nat.add [a0; a1]) l) rd).
    { intros l rd. unfold h.
      rewrite (foldl_write_coordinates _ _
                 (fun x => [zip_with Nat.add [a0; a1] x])).
      by rewrite flat_map_singleton. }
    rewrite E in Hrun, Hout'. clear E.
    rewrite map_flat_map in Hrun, Hout'.
    assert (E : flat_map
                  (fun x => map (zip_with Nat.add [a0; a1])
                              (map (fun im_slice1 => [x; im_slice1])
                                   (seq 0 (b1 - a1))))
                  (seq 0 (b0 - a0))
                = coordinates_of
                    [slice a0 b0; slice a1 b1; slice_all; slice_all]).
    { cbn [coordinates_of]. apply flat_map_ext. intros i0.
      by rewrite map_map. }
    rewrite E in Hrun, Hout'. exists log'. by split.
Qed.

(** Every window the mapper emits lies inside the array. *)
Lemma boundary_pairs_in_range (chunk_list : list nat) (b : nat * nat) :
  b ∈ boundary_pairs chunk_list ->
  (b.1 <= b.2 <= sum_list chunk_list)%nat.
Proof.
  intros (i & [Hi ->]%lookup_boundary_pairs_inv)%list_elem_of_lookup_1.
  cbn. split.
  - apply sum_list_take_mono. lia.
  - rewrite <- (take_ge chunk_list (length chunk_list)) at 2 by done.
    apply sum_list_take_mono. lia.
Qed.

(** The position of every element of the output belongs to some window. *)
Lemma coordinates_cover (c0 c1 : list nat) (p : nat) :
  (p < sum_list c0 * sum_list c1)%nat ->
  p ∈ flat_map (fun w => map (offset_of (sum_list c1)) (coordinates_of w))
        (flat_map (fun outer => map (window_of outer) (boundary_pairs c1))
                  (boundary_pairs c0)).
Proof.
  intros Hp. set (n1 := sum_list c1) in *.
  assert (Hn1 : (0 < n1)%nat) by nia.
  assert (Hj : (p mod n1 < n1)%nat) by (apply Nat.mod_upper_bound; lia).
  assert (Hi : (p / n1 < sum_list c0)%nat)
    by (apply Nat.Div0.div_lt_upper_bound; lia).
  assert (Hi' : (p / n1 < sum_list (take (length c0) c0))%nat)
    by (by rewrite take_ge).
  assert (Hj' : (p mod n1 < sum_list (take (length c1) c1))%nat)
    by (by rewrite take_ge).
  destruct (sum_list_take_cover _ _ _ Hi') as (u & _ & Hu & Hiu).
  destruct (sum_list_take_cover _ _ _ Hj') as (v & _ & Hv & Hjv).
  apply list_elem_of_In, in_flat_map.
  exists (window_of (sum_list (take u c0), sum_list (take (S u) c0))
                    (sum_list (take v c1), sum_list (take (S v) c1))).
  split.
  - apply in_flat_map. eexists. split.
    + apply list_elem_of_In. eapply list_elem_of_lookup_2.
      by apply lookup_boundary_pairs.
    + apply in_map, list_elem_of_In. eapply list_elem_of_lookup_2.
      by apply lookup_boundary_pairs.
  - apply in_map_iff. exists [p / n1; p mod n1]%nat. split.
    + cbn. rewrite Nat.mul_comm. symmetry. apply Nat.div_mod_eq.
    + cbn [window_of coordinates_of fst snd]. apply in_flat_map.
      exists (p / n1 - sum_list (take u c0))%nat. split.
      * apply in_seq. lia.
      * apply in_map_iff. exists (p mod n1 - sum_list (take v c1))%nat.
        split; [f_equal; [lia | f_equal; lia] | apply in_seq; lia].
Qed.

(** The driver stores, for every navigation coordinate, the function's
    value on the frame stored there. *)
Lemma driver_table (a : dask_array) (function : frame -> float)
  (show_progressbar : bool) (n0 n1 s0 s1 : nat) (c0 c1 k0 k1 : list nat) :
  shape a = [n0; n1; s0; s1] ->
  chunks a = [c0; c1; k0; k1] ->
  sum_list c0 = n0 -> sum_list c1 = n1 ->
  (run (_calculate_function_on_dask_array
          a (fun im => RScalar (function im)) 1 show_progressbar)).2
  = Ok (NdArray [n0; n1]
          (map (fun c => function (frame_at a c)) (indices [n0; n1]))).
Proof.
  intros Hshape Hchunks Hc0 Hc1.
  assert (Hrank : length (shape a) = 4%nat) by (by rewrite Hshape).
  unfold _calculate_function_on_dask_array, run, unsupported_rank.
  rewrite Hrank. cbn [Nat.eqb Nat.ltb Nat.leb orb].
  rewrite (chunk_slice_list_rank_4 a c0 c1 k0 k1) by done.
  rewrite Hshape. change (but_last_two [n0; n1; s0; s1]) with [n0; n1].
  cbv [mbind traced_bind lift tell].
  set (G := value_at a function n1).
  set (h := fun (rd : ndarray) (w : window) =>
              write_coordinates G n1 (coordinates_of w) rd).
  set (Q := fun w : window =>
              exists a0 b0 a1 b1,
                w = [slice a0 b0; slice a1 b1; slice_all; slice_all] /\
                (a0 <= b0 <= n0)%nat /\ (a1 <= b1 <= n1)%nat).
  match goal with
  | |- context [for_each_traced ?body ?l ?st ?log0] =>
      destruct (for_each_traced_fold body h (output_of n0 n1) Q l)
        with (s := st) (log := log0)
        as (log' & Hrun & _)
  end.
  - intros rd w log0 Hrd (a0 & b0 & a1 & b1 & -> & H0 & H1).
    by apply (process_window a function n0 n1 s0 s1).
  - apply Forall_forall. intros w Hw.
    apply list_elem_of_In, in_flat_map in Hw
      as (outer & Houter%list_elem_of_In
          & (inner & <- & Hinner%list_elem_of_In)%in_map_iff).
    apply boundary_pairs_in_range in Houter, Hinner.
    rewrite Hc0 in Houter. rewrite Hc1 in Hinner.
    exists outer.1, outer.2, inner.1, inner.2. done.
  - split; [done|]. cbn. rewrite length_replicate. lia.
  - rewrite Hrun. cbn [snd]. unfold h.
    rewrite (foldl_write_coordinates G n1 coordinates_of).
    unfold write_coordinates, zeros. cbn [nd_shape nd_data].
    do 2 f_equal. rewrite map_flat_map.
    rewrite <- table_of_values. fold G.
    assert (Hlen : length (replicate (size_of [n0; n1]) (0 : float))
                   = (n0 * n1)%nat)
      by (rewrite length_replicate; cbn; lia).
    rewrite <- Hlen. apply write_all_cover.
    intros p Hp. rewrite Hlen in Hp. subst n0 n1.
    by apply coordinates_cover.
Qed.

(** ** [lazy_tools.py]: the driver against the direct loop *)

(** C1.  On an array of shape (4, 4, 8, 8) with chunks (2, 2, 8, 8) and a
    function that returns a number, the driver returns what the direct loop
    over the 16 navigation coordinates returns: the 4 x 4 array holding, at
    each coordinate, the function's value on the frame stored there. *)
Theorem chunked_apply_equals_direct_loop
  (frames : list nat -> frame) (function : frame -> float)
  (show_progressbar : bool) :
  let a := DaskArray [4; 4; 8; 8]%nat [[2; 2]; [2; 2]; [8]; [8]]%nat frames in
  (run (_calculate_function_on_dask_array
          a (fun im => RScalar (function im)) 1 show_progressbar)).2
  = direct_loop a function /\
  direct_loop a function
  = Ok (NdArray [4; 4]%nat
          (map (fun coordinate => function (frames coordinate))
               (indices [4; 4]%nat))).
Proof.
  intros a.
  assert (Hloop : direct_loop a function
                  = Ok (NdArray [4; 4]%nat
                          (map (fun c => function (frames c))
                               (indices [4; 4]%nat))))
    by (by apply (direct_loop_table a function 4 4 8 8)).
  split; [|done]. rewrite Hloop.
  by apply (driver_table a function show_progressbar 4 4 8 8
              [2; 2]%nat [2; 2]%nat [8]%nat [8]%nat).
Qed.

(** The same for every array with two navigation axes, whatever its shape
    and however it is chunked. *)
Theorem chunked_apply_equals_direct_loop_on_any_grid
  (a : dask_array) (function : frame -> float) (show_progressbar : bool) :
  length (shape a) = 4%nat ->
  well_formed a ->
  (run (_calculate_function_on_dask_array
          a (fun im => RScalar (function im)) 1 show_progressbar)).2
  = direct_loop a function /\
  direct_loop a function
  = Ok (NdArray (but_last_two (shape a))
          (map (fun coordinate => function (frame_at a coordinate))
               (indices (but_last_two (shape a))))).
Proof.
  intros Hrank [Hlen Hsum].
  destruct a as [shp chk frames]. cbn [shape chunks frame_at] in *.
  destruct shp as [|n0 [|n1 [|s0 [|s1 [|? ?]]]]]; try done.
  destruct chk as [|c0 [|c1 [|k0 [|k1 [|? ?]]]]]; try done.
  apply Forall2_cons in Hsum as [Hc0 Hsum].
  apply Forall2_cons in Hsum as [Hc1 _].
  change (but_last_two [n0; n1; s0; s1]) with [n0; n1].
  set (a := DaskArray [n0; n1; s0; s1] [c0; c1; k0; k1] frames).
  assert (Hloop : direct_loop a function
                  = Ok (NdArray [n0; n1]
                          (map (fun c => function (frames c))
                               (indices [n0; n1]))))
    by (by apply (direct_loop_table a function n0 n1 s0 s1)).
  split; [|done]. rewrite Hloop.
  by apply (driver_table a function show_progressbar n0 n1 s0 s1
              c0 c1 k0 k1).
Qed.

Lemma chunked_apply_equals_direct_loop_on_any_grid_witness :
  let a := DaskArray [3; 5; 2; 2]%nat [[1; 2]; [2; 0; 3]; [2]; [2]]%nat
                     (fun c => [map Float64.of_nat c]) in
  let function := fun im : frame => foldr PrimFloat.add 0 (mjoin im) in
  (run (_calculate_function_on_dask_array
          a (fun im => RScalar (function im)) 1 false)).2
  = direct_loop a function /\
  direct_loop a function
  = Ok (NdArray (but_last_two (shape a))
          (map (fun coordinate => function (frame_at a coordinate))
               (indices (but_last_two (shape a))))).
Proof.
  intros a function.
  apply (chunked_apply_equals_direct_loop_on_any_grid a function false).
  - reflexivity.
  - split; [reflexivity|]. repeat constructor.
Defined.

(** With one navigation axis the driver cannot get past the first frame:
    [slice_chunk] is a tuple, and line 103 reads its [start]. *)
Theorem one_navigation_axis_raises (a : dask_array)
  (function : frame -> frame_result) (return_sig_size : nat)
  (show_progressbar : bool) (n0 s0 s1 c : nat) (cs k0 k1 : list nat) :
  shape a = [n0; s0; s1] ->
  chunks a = [c :: cs; k0; k1] ->
  (0 < c <= n0)%nat ->
  run (_calculate_function_on_dask_array a function return_sig_size
         show_progressbar)
  = ([Allocate (if (return_sig_size =? 1)%nat then [n0]
                else [n0; return_sig_size]);
      Materialize [slice 0 c; slice_all; slice_all]],
     Err AttributeError).
Proof.
  intros Hshape Hchunks [Hc Hn].
  unfold _calculate_function_on_dask_array, run,
    _get_dask_chunk_slice_list, unsupported_rank.
  rewrite Hshape, Hchunks.
  change (but_last_two [n0; s0; s1]) with [n0].
  change (but_last_two [c :: cs; k0; k1]) with [c :: cs].
  cbn [length Nat.eqb Nat.ltb Nat.leb orb map temp_slice_dim fst snd].
  cbv [mbind traced_bind lift tell for_each_traced].
  unfold process_chunk, compute. rewrite Hshape.
  change (but_last_two [n0; s0; s1]) with [n0].
  cbn [length Nat.ltb Nat.leb seq zip_with entry lookup list_lookup default
       fmap list_fmap].
  unfold id. cbn [slice_indices crop fst snd].
  rewrite Nat.min_0_l, Nat.min_l, Nat.sub_0_r by lia.
  destruct c as [|c]; [lia|].
  destruct (return_sig_size =? 1)%nat; reflexivity.
Qed.

Lemma one_navigation_axis_raises_witness :
  run (_calculate_function_on_dask_array
         (DaskArray [4; 8; 8]%nat [[2; 2]; [8]; [8]]%nat (fun _ => []))
         (fun _ => RScalar 1) 1 true)
  = ([Allocate [4%nat];
      Materialize [slice 0 2; slice_all; slice_all]],
     Err AttributeError).
Proof.
  apply (one_navigation_axis_raises
           (DaskArray [4; 8; 8]%nat [[2; 2]; [8]; [8]]%nat (fun _ => []))
           (fun _ => RScalar 1) 1 true 4 8 8 2 [2]%nat [8]%nat [8]%nat);
    [reflexivity | reflexivity | lia].
Defined.

End LazyToolsProofs.

(** ** More facts of binary64 arithmetic *)

Module Float64MoreFacts.
Import Float64 Float64Classes Float64Facts.

Lemma eqb_infinity_spec (x : float) (s : bool) :
  Prim2SF x = S754_infinity s ->
  (x =? (if s then neg_infinity else infinity)) = true.
Proof.
  intros Hx. rewrite FloatAxioms.eqb_spec, Hx. by destruct s.
Qed.

(** [np.isfinite] holds of the zeros and the finite numbers only. *)
Lemma finite_spec (x : float) :
  finite x = true <-> inf_or_nan x = false.
Proof.
  unfold finite, inf_or_nan. split.
  - intros [[H1 H2]%andb_prop H3]%andb_prop.
    apply negb_true_iff in H1, H2, H3.
    destruct (Prim2SF x) as [s|s| |s m e] eqn:Hx; try done.
    + pose proof (eqb_infinity_spec x s Hx) as E. destruct s; congruence.
    + apply is_nan_false_spec in H1. done.
  - intros H.
    assert (Hn : is_nan x = false).
    { apply is_nan_false_spec. intros E. by rewrite E in H. }
    rewrite Hn, !FloatAxioms.eqb_spec. cbn [negb andb].
    destruct (Prim2SF x) as [s|s| |s m e]; try done; by destruct s.
Qed.

Lemma signed_zero_zero_or_nan (x : float) :
  signed_zero x = true -> zero_or_nan x = true.
Proof. unfold signed_zero, zero_or_nan. by destruct (Prim2SF x). Qed.

Lemma signed_zero_eqb (x : float) :
  signed_zero x = true <-> (x =? 0) = true.
Proof.
  unfold signed_zero. rewrite FloatAxioms.eqb_spec.
  change (Prim2SF 0) with (S754_zero false).
  destruct (Prim2SF x) as [s|s| |s m e]; simpl; try destruct s; done.
Qed.

Lemma signed_zero_finite (x : float) :
  signed_zero x = true -> finite x = true.
Proof.
  intros H. apply finite_spec. unfold signed_zero, inf_or_nan in *.
  by destruct (Prim2SF x).
Qed.

(** A finite number times a zero is a zero. *)
Lemma signed_zero_mul_r (x y : float) :
  finite x = true -> signed_zero y = true -> signed_zero (x * y) = true.
Proof.
  intros Hx%finite_spec. unfold signed_zero, inf_or_nan in *.
  rewrite FloatAxioms.mul_spec.
  destruct (Prim2SF x), (Prim2SF y); simpl; done.
Qed.

Lemma signed_zero_mul_l (x y : float) :
  signed_zero x = true -> finite y = true -> signed_zero (x * y) = true.
Proof. intros Hx Hy. rewrite mul_comm. by apply signed_zero_mul_r. Qed.

(** An infinity or NaN times a zero or NaN is NaN. *)
Lemma inf_or_nan_mul_zero_or_nan (x y : float) :
  inf_or_nan x = true -> zero_or_nan y = true -> x * y = nan.
Proof.
  unfold inf_or_nan, zero_or_nan. intros Hx Hy. apply Prim2SF_inj.
  rewrite FloatAxioms.mul_spec.
  destruct (Prim2SF x), (Prim2SF y); simpl; done.
Qed.

(** Dividing by a zero or NaN gives an infinity or NaN. *)
Lemma inf_or_nan_div (x y : float) :
  zero_or_nan y = true -> inf_or_nan (x / y) = true.
Proof.
  unfold inf_or_nan, zero_or_nan. rewrite FloatAxioms.div_spec.
  destruct (Prim2SF x), (Prim2SF y); simpl; done.
Qed.

Lemma zero_or_nan_sub (x y : float) :
  zero_or_nan x = true -> zero_or_nan y = true ->
  zero_or_nan (x - y) = true.
Proof.
  unfold zero_or_nan. rewrite FloatAxioms.sub_spec.
  destruct (Prim2SF x) as [[]|[]| |[] ? ?],
           (Prim2SF y) as [[]|[]| |[] ? ?]; simpl; done.
Qed.

Lemma finite_opp (x : float) : finite x = true -> finite (- x) = true.
Proof.
  rewrite !finite_spec. unfold inf_or_nan. rewrite FloatAxioms.opp_spec.
  by destruct (Prim2SF x).
Qed.

(** Anything divided by NaN, and NaN divided by anything, is NaN. *)
Lemma div_nan_r (x y : float) : is_nan y = true -> x / y = nan.
Proof.
  intros Hy%is_nan_spec. apply Prim2SF_inj.
  rewrite FloatAxioms.div_spec, Hy. by destruct (Prim2SF x).
Qed.

(** A finite number times zero is a zero; an infinity or NaN times zero is
    NaN. *)
Lemma mul_zero_r (x : float) :
  if finite x then (x * 0 =? 0) = true else x * 0 = nan.
Proof.
  destruct (finite x) eqn:Hx.
  - apply signed_zero_eqb. by apply signed_zero_mul_r.
  - apply inf_or_nan_mul_zero_or_nan; [|done].
    destruct (inf_or_nan x) eqn:E; [done|].
    apply finite_spec in E. congruence.
Qed.

(** A zero or NaN divided by anything is a zero or NaN. *)
Lemma zero_or_nan_div_l (x y : float) :
  zero_or_nan x = true -> zero_or_nan (x / y) = true.
Proof.
  unfold zero_or_nan. rewrite FloatAxioms.div_spec.
  destruct (Prim2SF x), (Prim2SF y); simpl; done.
Qed.

(** Anything divided by an infinity or NaN is a zero or NaN. *)
Lemma zero_or_nan_div_inf (x y : float) :
  inf_or_nan y = true -> zero_or_nan (x / y) = true.
Proof.
  unfold zero_or_nan, inf_or_nan. rewrite FloatAxioms.div_spec.
  destruct (Prim2SF x), (Prim2SF y); simpl; done.
Qed.

Lemma inf_or_nan_mul (x y : float) :
  inf_or_nan x = true -> inf_or_nan y = true -> inf_or_nan (x * y) = true.
Proof.
  unfold inf_or_nan. rewrite FloatAxioms.mul_spec.
  destruct (Prim2SF x), (Prim2SF y); simpl; done.
Qed.

(** *** A number divided by itself *)

Lemma div_eucl_shift (m : positive) :
  IntDef.Z.div_eucl (IntDef.Z.shiftl (Z.pos m) 53) (Z.pos m)
  = (9007199254740992%Z, 0%Z).
Proof.
  change (IntDef.Z.div_eucl ?a ?b) with (Z.div_eucl a b).
  change (IntDef.Z.shiftl ?a ?b) with (Z.shiftl a b).
  rewrite Z.shiftl_mul_pow2 by done.
  change (2 ^ 53)%Z with 9007199254740992%Z.
  transitivity ((Z.pos m * 9007199254740992) / Z.pos m,
                (Z.pos m * 9007199254740992) mod Z.pos m)%Z.
  { unfold Z.div, Z.modulo.
    by destruct (Z.div_eucl (Z.pos m * 9007199254740992) (Z.pos m)). }
  rewrite (Z.mul_comm (Z.pos m)), Z.div_mul, Z.mod_mul by done. done.
Qed.

Lemma SFdiv_self (s : bool) (m : positive) (e : Z) :
  SFdiv prec emax (S754_finite s m e) (S754_finite s m e) = Prim2SF 1.
Proof.
  cbn [SFdiv]. unfold SFdiv_core_binary.
  replace (Zdigits2 (Z.pos m) + e - (Zdigits2 (Z.pos m) + e))%Z with 0%Z
    by lia.
  replace (e - e)%Z with 0%Z by lia.
  change (IntDef.Z.min (fexp prec emax 0) 0) with (-53)%Z.
  change (0 - -53)%Z with 53%Z. cbv iota zeta.
  rewrite div_eucl_shift, xorb_nilpotent.
  assert (Hloc : new_location (Z.pos m) 0 = loc_Exact).
  { unfold new_location. by destruct (IntDef.Z.even (Z.pos m)). }
  rewrite Hloc. reflexivity.
Qed.

(** A finite number other than zero, divided by itself, is 1. *)
Lemma div_self (x : float) :
  finite x = true -> (x =? 0) = false -> x / x = 1.
Proof.
  intros Hfin%finite_spec Hnz. apply Prim2SF_inj.
  rewrite FloatAxioms.div_spec.
  assert (Hz : signed_zero x = false).
  { destruct (signed_zero x) eqn:E; [|done].
    apply signed_zero_eqb in E. congruence. }
  unfold inf_or_nan, signed_zero in *.
  destruct (Prim2SF x) as [s|s| |s m e]; try done.
  apply SFdiv_self.
Qed.

End Float64MoreFacts.

(** ** [pdf_utils.py]: broadcasting, masking and normalisation *)

Module PdfUtilsMoreProofs.
Import Np PdfUtils PdfUtilsDamping.
Import Float64 Float64Classes Float64Facts Float64MoreFacts NpFacts.
Import PdfUtilsProofs.

Lemma multiply_raises (a b : list float) :
  multiply a b = Err ValueError <->
  length a <> length b /\ length a <> 1%nat /\ length b <> 1%nat.
Proof.
  unfold multiply.
  destruct (length a =? length b)%nat eqn:E.
  - apply Nat.eqb_eq in E. split; [done|]. by intros [? _].
  - apply Nat.eqb_neq in E.
    destruct a as [|x [|x' a]], b as [|y [|y' b]]; cbn in *;
      split; try done; try (intros (? & ? & ?); done); lia.
Qed.

Lemma multiply_error (a b : list float) (e : exn) :
  multiply a b = Err e -> e = ValueError.
Proof.
  unfold multiply. destruct (length a =? length b)%nat; [done|].
  destruct a as [|x [|x' a]], b as [|y [|y' b]]; congruence.
Qed.

Lemma multiply_length (a b out : list float) :
  multiply a b = Ok out ->
  length out = if (length a =? 1)%nat then length b else length a.
Proof.
  unfold multiply.
  destruct (length a =? length b)%nat eqn:E.
  - apply Nat.eqb_eq in E. intros [= <-]. rewrite length_zip_with.
    destruct (length a =? 1)%nat; lia.
  - destruct a as [|x [|x' a]], b as [|y [|y' b]]; intros [= <-]; try done;
      cbn [length Nat.eqb map]; by rewrite ?length_map.
Qed.

(** [mask_from_pattern] follows NumPy's broadcasting: it raises, and then
    [ValueError], exactly when the two lengths differ and neither is 1; the
    result is as long as the input, or as the pattern when the input has one
    element. *)
Theorem mask_from_pattern_broadcasts (z pattern : list float) :
  (mask_from_pattern z pattern = Err ValueError <->
   length z <> length pattern /\
   length z <> 1%nat /\ length pattern <> 1%nat) /\
  (forall e, mask_from_pattern z pattern = Err e -> e = ValueError) /\
  (forall out, mask_from_pattern z pattern = Ok out ->
     length out
     = if (length z =? 1)%nat then length pattern else length z).
Proof.
  unfold mask_from_pattern. split; [apply multiply_raises|].
  split; [apply multiply_error | apply multiply_length].
Qed.

(** With a pattern of 0s and 1s as long as the input, a pixel under a 1 is
    kept as it is; a finite pixel under a 0 becomes a zero; a pixel under a
    0 that is infinite or NaN becomes NaN, not zero. *)
Theorem mask_from_pattern_binary (z pattern : list float) :
  length pattern = length z ->
  Forall (fun p => p = 0 \/ p = 1) pattern ->
  exists out,
    mask_from_pattern z pattern = Ok out /\
    length out = length z /\
    forall i x p, z !! i = Some x -> pattern !! i = Some p ->
      exists y,
        out !! i = Some y /\
        (p = 1 -> y = x) /\
        (p = 0 -> finite x = true -> (y =? 0) = true) /\
        (p = 0 -> finite x = false -> is_nan y = true).
Proof.
  intros Hlen Hbin. unfold mask_from_pattern.
  rewrite multiply_same_length by done. eexists. split; [done|].
  split; [rewrite length_zip_with; lia|].
  intros i x p Hx Hp. exists (x * p).
  rewrite lookup_zip_with, Hx. cbn [mbind option_bind]. rewrite Hp.
  split; [done|]. split; [intros ->; apply mul_one_r|].
  pose proof (mul_zero_r x) as H0.
  split; intros -> Hfin; rewrite Hfin in H0; [done|by rewrite H0].
Qed.

Lemma mask_from_pattern_binary_witness :
  exists out,
    mask_from_pattern [5; infinity; 7] [1; 0; 0] = Ok out /\
    length out = length [5; infinity; 7] /\
    forall i x p, [5; infinity; 7] !! i = Some x ->
      [1; 0; 0] !! i = Some p ->
      exists y,
        out !! i = Some y /\
        (p = 1 -> y = x) /\
        (p = 0 -> finite x = true -> (y =? 0) = true) /\
        (p = 0 -> finite x = false -> is_nan y = true).
Proof.
  apply (mask_from_pattern_binary [5; infinity; 7] [1; 0; 0]).
  - reflexivity.
  - repeat constructor; by (left + right).
Defined.

(** *** Normalisation *)

Lemma slice_from_sublist {A} (l : list A) (start : Z) (x : A) :
  x ∈ slice_from l start -> x ∈ l.
Proof.
  unfold slice_from. intros (i & Hi)%list_elem_of_lookup_1.
  rewrite lookup_drop in Hi. by eapply list_elem_of_lookup_2.
Qed.

(** A NaN anywhere in [z[index_min:]] turns every element of the result
    into NaN. *)
Theorem normalise_pdf_signal_to_max_nan (z : list float) (index_min : Z) :
  (exists x, x ∈ slice_from z index_min /\ is_nan x = true) ->
  exists out,
    normalise_pdf_signal_to_max z index_min = Ok out /\
    length out = length z /\
    Forall (fun y => is_nan y = true) out.
Proof.
  intros (x & Hx & Hnan).
  destruct (max_returns (slice_from z index_min)) as [m Hm].
  { intros E. rewrite E in Hx. by apply elem_of_nil in Hx. }
  pose proof (max_spec _ _ Hm) as (_ & Hmnan & _).
  assert (Hn : is_nan m = true) by (apply Hmnan; by exists x).
  unfold normalise_pdf_signal_to_max. rewrite Hm. cbn [mbind result_bind].
  eexists. split; [done|]. split; [by rewrite length_map|].
  apply Forall_fmap, Forall_forall. intros y _. cbn.
  by rewrite (div_nan_r y m Hn).
Qed.

Lemma normalise_pdf_signal_to_max_nan_witness :
  exists out,
    normalise_pdf_signal_to_max [1; 2; nan; 4] (-3) = Ok out /\
    length out = length [1; 2; nan; 4] /\
    Forall (fun y => is_nan y = true) out.
Proof.
  apply (normalise_pdf_signal_to_max_nan [1; 2; nan; 4] (-3)).
  exists nan. split; [|reflexivity].
  apply list_elem_of_further, list_elem_of_here.
Defined.

(** When the maximum of [z[index_min:]] is finite and not zero, the result
    is exactly 1 wherever [z] holds that maximum, and it does so at least
    once. *)
Theorem normalise_pdf_signal_to_max_attains_one
  (z : list float) (index_min : Z) (m : float) :
  Np.max (slice_from z index_min) = Ok m ->
  finite m = true ->
  (m =? 0) = false ->
  exists out,
    normalise_pdf_signal_to_max z index_min = Ok out /\
    (forall i, z !! i = Some m -> out !! i = Some 1) /\
    1 ∈ out.
Proof.
  intros Hm Hfin Hnz.
  unfold normalise_pdf_signal_to_max. rewrite Hm. cbn [mbind result_bind].
  eexists. split; [done|].
  assert (Hat : forall i, z !! i = Some m ->
                  map (fun x => x / m) z !! i = Some 1).
  { intros i Hi. rewrite list_lookup_fmap, Hi. cbn.
    by rewrite div_self. }
  split; [done|].
  pose proof (max_spec _ _ Hm) as (Hin & _).
  apply slice_from_sublist, list_elem_of_lookup_1 in Hin as [i Hi].
  eapply list_elem_of_lookup_2. by apply Hat.
Qed.

Lemma normalise_pdf_signal_to_max_attains_one_witness :
  exists out,
    normalise_pdf_signal_to_max [9; 3; 7; 0.1; 7] 1 = Ok out /\
    (forall i, [9; 3; 7; 0.1; 7] !! i = Some 7 -> out !! i = Some 1) /\
    1 ∈ out.
Proof.
  apply (normalise_pdf_signal_to_max_attains_one [9; 3; 7; 0.1; 7] 1 7);
    reflexivity.
Defined.

(** When the maximum of [z[index_min:]] is a zero, nothing is raised:
    every element of the result is an infinity or NaN. *)
Theorem normalise_pdf_signal_to_max_zero_maximum
  (z : list float) (index_min : Z) (m : float) :
  Np.max (slice_from z index_min) = Ok m ->
  signed_zero m = true ->
  exists out,
    normalise_pdf_signal_to_max z index_min = Ok out /\
    length out = length z /\
    Forall (fun y => inf_or_nan y = true) out.
Proof.
  intros Hm Hz.
  unfold normalise_pdf_signal_to_max. rewrite Hm. cbn [mbind result_bind].
  eexists. split; [done|]. split; [by rewrite length_map|].
  apply Forall_fmap, Forall_forall. intros y _. cbn.
  by apply inf_or_nan_div, signed_zero_zero_or_nan.
Qed.

Lemma normalise_pdf_signal_to_max_zero_maximum_witness :
  exists out,
    normalise_pdf_signal_to_max [3; -1; 0; -2] 1 = Ok out /\
    length out = length [3; -1; 0; -2] /\
    Forall (fun y => inf_or_nan y = true) out.
Proof.
  apply (normalise_pdf_signal_to_max_zero_maximum [3; -1; 0; -2] 1 0);
    reflexivity.
Defined.

(** *** Exponential damping *)

Section Exponential.

Variable np_exp : float -> float.

(** [exp] is exactly 1 at both zeros (C99, F.9.3.1). *)
Hypothesis np_exp_zero : forall x, signed_zero x = true -> np_exp x = 1.

Lemma damp_ri_exponential_elements (z : list float) (b s_scale : float) :
  damp_ri_exponential np_exp z b s_scale (length z)
  = Ok (zip_with PrimFloat.mul z
          (map (fun s => np_exp ((- b) * square s))
               (scattering_axis s_scale (length z)))).
Proof.
  unfold damp_ri_exponential. apply multiply_same_length.
  by rewrite length_map, length_scattering_axis.
Qed.

(** Wherever [-b * s^2] is a zero the sample is handed back unchanged. *)
Lemma damp_ri_exponential_kept (z : list float) (b s_scale : float)
  (i : nat) (x : float) :
  z !! i = Some x ->
  signed_zero ((- b) * square (axis_at s_scale i)) = true ->
  zip_with PrimFloat.mul z
    (map (fun s => np_exp ((- b) * square s))
         (scattering_axis s_scale (length z))) !! i = Some x.
Proof using Type*.
  intros Hx Hz.
  rewrite (lookup_zip_with_axis _ z s_scale i x Hx)
    by (by eapply lookup_lt_Some).
  by rewrite np_exp_zero, mul_one_r.
Qed.

(** For finite [b] and [s_scale], [damp_ri_exponential] leaves the first
    sample, at [s = 0], exactly as it was. *)
Theorem damp_ri_exponential_origin (z : list float) (b s_scale : float)
  (s_size : nat) :
  finite b = true ->
  finite s_scale = true ->
  length z = s_size ->
  exists out,
    damp_ri_exponential np_exp z b s_scale s_size = Ok out /\
    length out = length z /\
    out !! 0%nat = z !! 0%nat.
Proof using Type*.
  intros Hb Hs <-. rewrite damp_ri_exponential_elements.
  eexists. split; [done|]. split.
  - rewrite length_zip_with, length_map, length_scattering_axis. lia.
  - destruct z as [|x z]; [done|].
    rewrite (damp_ri_exponential_kept (x :: z) b s_scale 0 x); [done..|].
    unfold axis_at, square. rewrite of_nat_0.
    assert (H0 : signed_zero (s_scale * 0) = true)
      by (by apply signed_zero_mul_r).
    apply signed_zero_mul_r; [by apply finite_opp|].
    apply signed_zero_mul_r; [by apply signed_zero_finite|done].
Qed.

(** With [b = 0] (of either sign) and an axis whose squares do not
    overflow, [damp_ri_exponential] is the identity. *)
Theorem damp_ri_exponential_no_damping (z : list float) (b s_scale : float)
  (s_size : nat) :
  signed_zero b = true ->
  (forall i, (i < s_size)%nat ->
     finite (square (axis_at s_scale i)) = true) ->
  length z = s_size ->
  damp_ri_exponential np_exp z b s_scale s_size = Ok z.
Proof using Type*.
  intros Hb Hfin <-. rewrite damp_ri_exponential_elements. f_equal.
  apply list_eq. intros i.
  destruct (z !! i) as [x|] eqn:Hx.
  - apply damp_ri_exponential_kept; [done|].
    apply signed_zero_mul_l.
    + revert Hb. unfold signed_zero. rewrite FloatAxioms.opp_spec.
      by destruct (Prim2SF b).
    + apply Hfin. by eapply lookup_lt_Some.
  - apply lookup_ge_None_2. rewrite length_zip_with.
    apply lookup_ge_None_1 in Hx. lia.
Qed.

End Exponential.

(** A function that, like [exp], is exactly 1 at both zeros: [1 + x]. *)
Lemma one_plus_zero (x : float) : signed_zero x = true -> 1 + x = 1.
Proof.
  unfold signed_zero. intros Hx. apply Prim2SF_inj.
  rewrite FloatAxioms.add_spec.
  destruct (Prim2SF x) as [[]|[]| |[] ? ?]; done.
Qed.

Lemma damp_ri_exponential_origin_witness :
  exists out,
    damp_ri_exponential (fun x => 1 + x) [5; 6; 7] 0.5 0.25 3 = Ok out /\
    length out = length [5; 6; 7] /\
    out !! 0%nat = [5; 6; 7] !! 0%nat.
Proof.
  apply (damp_ri_exponential_origin (fun x => 1 + x) one_plus_zero
           [5; 6; 7] 0.5 0.25 3); reflexivity.
Defined.

Lemma damp_ri_exponential_no_damping_witness :
  damp_ri_exponential (fun x => 1 + x) [5; 6; 7] (-0) 0.25 3
  = Ok [5; 6; 7].
Proof.
  apply (damp_ri_exponential_no_damping (fun x => 1 + x) one_plus_zero
           [5; 6; 7] (-0) 0.25 3); [reflexivity| |reflexivity].
  intros [|[|[|i]]] Hi; [reflexivity..|lia].
Defined.

(** *** Lorch damping, and its updated form *)

Section Lorch.

Variables np_sin np_cos : float -> float.
Variable np_power : float -> float -> float.
Variable py_pow : float -> Z -> result float.

(** The sine of a zero is that zero, and of NaN is NaN (C99, F.9.1.6). *)
Hypothesis np_sin_zero :
  forall x, zero_or_nan x = true -> zero_or_nan (np_sin x) = true.

(** [pow(+-0, 3)] is that zero, and [pow(NaN, 3)] is NaN (C99, F.9.4.4). *)
Hypothesis np_power_zero :
  forall x, zero_or_nan x = true -> zero_or_nan (np_power x 3) = true.

(** Wherever the product [delta * s] is a zero or NaN -- at the origin of
    the axis, and wherever it underflows -- [damp_ri_lorch] multiplies the
    sample by 0, the Lorch function tending to 1 there. *)
Theorem damp_ri_lorch_zero_argument (z : list float)
  (s_max s_scale : float) (s_size : nat) :
  (s_max =? 0) = false ->
  length z = s_size ->
  exists out,
    damp_ri_lorch np_sin z s_max s_scale s_size = Ok out /\
    length out = length z /\
    forall i x, z !! i = Some x ->
      zero_or_nan (Float64.pi / s_max * axis_at s_scale i) = true ->
      out !! i = Some (x * 0).
Proof using np_sin_zero.
  intros Hs <-. unfold damp_ri_lorch, py_div. rewrite Hs.
  cbn [mbind result_bind]. rewrite map_map.
  rewrite multiply_same_length
    by (by rewrite length_map, length_scattering_axis).
  eexists. split; [done|]. split.
  - rewrite length_zip_with, length_map, length_scattering_axis. lia.
  - intros i x Hx Hz.
    rewrite (lookup_zip_with_axis
               (fun s => nan_to_num (np_sin (Float64.pi / s_max * s)
                                     / (Float64.pi / s_max * s)))
               z s_scale i x Hx) by (by eapply lookup_lt_Some).
    by rewrite (zero_or_nan_div _ _ (np_sin_zero _ Hz) Hz), nan_to_num_nan.
Qed.

Lemma updated_lorch_factor_at_origin (numerator delta s_scale : float) :
  nan_to_num (updated_lorch_factor np_sin np_cos np_power numerator delta
                (axis_at s_scale 0)) = 0.
Proof using np_sin_zero np_power_zero.
  unfold updated_lorch_factor, axis_at. rewrite of_nat_0.
  assert (Hs : zero_or_nan (s_scale * 0) = true)
    by (by apply zero_or_nan_mul_r).
  assert (Hd : zero_or_nan (delta * (s_scale * 0)) = true)
    by (by apply zero_or_nan_mul_r).
  rewrite inf_or_nan_mul_zero_or_nan; [done| |].
  - apply inf_or_nan_div, np_power_zero, Hs.
  - apply zero_or_nan_sub; [by apply np_sin_zero|].
    by apply zero_or_nan_mul_l.
Qed.

Lemma three_times_one : 3 * 1 = 3.
Proof. reflexivity. Qed.

Lemma updated_lorch_damping_term (numerator delta s_scale : float)
  (s_size : nat) :
  let axis := scattering_axis s_scale s_size in
  zip_with PrimFloat.mul
    (map (fun c => numerator / c)
         (zip_with np_power axis (replicate (length axis) (3 * 1))))
    (map (fun s => np_sin (delta * s) - delta * s * np_cos (delta * s)) axis)
  = map (updated_lorch_factor np_sin np_cos np_power numerator delta) axis.
Proof using Type.
  intros axis. rewrite three_times_one. generalize axis. clear axis.
  induction axis as [|s axis IH]; [done|].
  cbn [length replicate zip_with map]. by rewrite IH.
Qed.

(** When it returns, [damp_ri_updated_lorch] multiplies the first sample,
    at [s = 0], by exactly 0, whatever [s_scale] is; the function it
    computes tends to 1 there.  It returns for an input of [s_size]
    samples once [delta**3] could be computed and is not zero. *)
Theorem damp_ri_updated_lorch_origin (z : list float)
  (s_max s_scale : float) (s_size : nat) (cube : float) :
  (s_max =? 0) = false ->
  py_pow (Float64.pi / s_max) 3 = Ok cube ->
  (cube =? 0) = false ->
  length z = s_size ->
  exists out,
    damp_ri_updated_lorch np_sin np_cos np_power py_pow z s_max s_scale
      s_size = Ok out /\
    length out = length z /\
    (forall x, z !! 0%nat = Some x -> out !! 0%nat = Some (x * 0)) /\
    (forall i x, z !! i = Some x ->
       out !! i
       = Some (x * nan_to_num
                     (updated_lorch_factor np_sin np_cos np_power
                        (3 / cube) (Float64.pi / s_max)
                        (axis_at s_scale i)))).
Proof using np_sin_zero np_power_zero.
  intros Hs Hpow Hcube <-. unfold damp_ri_updated_lorch, py_div.
  rewrite Hs. cbn [mbind result_bind]. rewrite Hpow.
  cbn [mbind result_bind]. rewrite Hcube. cbn [mbind result_bind].
  rewrite updated_lorch_damping_term, map_map.
  rewrite multiply_same_length
    by (by rewrite length_map, length_scattering_axis).
  eexists. split; [done|]. split.
  { rewrite length_zip_with, length_map, length_scattering_axis. lia. }
  assert (Hat : forall i x, z !! i = Some x ->
            zip_with PrimFloat.mul z
              (map (fun s => nan_to_num
                               (updated_lorch_factor np_sin np_cos np_power
                                  (3 / cube) (Float64.pi / s_max) s))
                   (scattering_axis s_scale (length z))) !! i
            = Some (x * nan_to_num
                          (updated_lorch_factor np_sin np_cos np_power
                             (3 / cube) (Float64.pi / s_max)
                             (axis_at s_scale i)))).
  { intros i x Hx.
    by rewrite (lookup_zip_with_axis _ z s_scale i x Hx)
      by (by eapply lookup_lt_Some). }
  split; [|done].
  intros x Hx. by rewrite (Hat 0%nat x Hx), updated_lorch_factor_at_origin.
Qed.

End Lorch.

Lemma cube_zero_or_nan (x : float) :
  zero_or_nan x = true -> zero_or_nan (x * x * x) = true.
Proof. intros Hx. by apply zero_or_nan_mul_r. Qed.

Lemma damp_ri_lorch_zero_argument_witness :
  exists out,
    damp_ri_lorch (fun x => x - x * x * x / 6) [1; 1] 0x1p+1000 0x1p-1000 2
    = Ok out /\
    length out = length [1; 1] /\
    forall i x, [1; 1] !! i = Some x ->
      zero_or_nan (Float64.pi / 0x1p+1000 * axis_at 0x1p-1000 i) = true ->
      out !! i = Some (x * 0).
Proof.
  apply (damp_ri_lorch_zero_argument (fun x => x - x * x * x / 6)
           taylor_sine_zero_or_nan [1; 1] 0x1p+1000 0x1p-1000 2);
    reflexivity.
Defined.

Lemma damp_ri_updated_lorch_origin_witness :
  exists out,
    damp_ri_updated_lorch (fun x => x - x * x * x / 6) (fun x => 1 - x * x / 2)
      (fun x _ => x * x * x) (fun x _ => Ok (x * x * x))
      [1; 2; 3] 4 0.5 3 = Ok out /\
    length out = length [1; 2; 3] /\
    (forall x, [1; 2; 3] !! 0%nat = Some x -> out !! 0%nat = Some (x * 0)) /\
    (forall i x, [1; 2; 3] !! i = Some x ->
       out !! i
       = Some (x * nan_to_num
                     (updated_lorch_factor (fun x => x - x * x * x / 6)
                        (fun x => 1 - x * x / 2) (fun x _ => x * x * x)
                        (3 / (Float64.pi / 4 * (Float64.pi / 4)
                              * (Float64.pi / 4)))
                        (Float64.pi / 4) (axis_at 0.5 i)))).
Proof.
  apply (damp_ri_updated_lorch_origin (fun x => x - x * x * x / 6)
           (fun x => 1 - x * x / 2) (fun x _ => x * x * x)
           (fun x _ => Ok (x * x * x))
           taylor_sine_zero_or_nan cube_zero_or_nan
           [1; 2; 3] 4 0.5 3
           (Float64.pi / 4 * (Float64.pi / 4) * (Float64.pi / 4)));
    reflexivity.
Defined.

Lemma nan_to_num_zero_or_nan (x : float) :
  zero_or_nan x = true -> signed_zero (nan_to_num x) = true.
Proof.
  intros [->|[->| ->]]%zero_or_nan_cases; reflexivity.
Qed.

Section LorchKinds.

Variables np_sin np_cos : float -> float.
Variable np_power : float -> float -> float.
Variable py_pow : float -> Z -> result float.

(** [pow(+-inf, 3)] is that infinity, and [pow(NaN, 3)] is NaN (C99,
    F.9.4.4). *)
Hypothesis np_power_infinite :
  forall x, inf_or_nan x = true -> inf_or_nan (np_power x 3) = true.

(** For a Python float the two models of lines 244-255 are one. *)
Lemma damp_ri_updated_lorch_of_python (z : list float)
  (s_max s_scale : float) (s_size : nat) :
  damp_ri_updated_lorch_of np_sin np_cos np_power py_pow python_float
    z s_max s_scale s_size
  = damp_ri_updated_lorch np_sin np_cos np_power py_pow z s_max s_scale
      s_size.
Proof using Type. reflexivity. Qed.

(** What a zero divisor does in [damp_ri_updated_lorch] depends on the
    kind of [s_max].  For a Python float, [s_max = 0] raises
    [ZeroDivisionError] at line 244, and so does a [delta**3] that is zero
    (an infinite [s_max], say) at line 249.  For a NumPy [float64],
    [s_max = 0] raises nothing: [delta] is infinite, [3 / delta**3] is a
    zero or NaN, and every sample comes back multiplied by a zero. *)
Theorem damp_ri_updated_lorch_zero_divisor (z : list float)
  (s_max s_scale : float) (s_size : nat) :
  ((s_max =? 0) = true ->
   damp_ri_updated_lorch_of np_sin np_cos np_power py_pow python_float
     z s_max s_scale s_size = Err ZeroDivisionError /\
   (length z = s_size ->
    exists out,
      damp_ri_updated_lorch_of np_sin np_cos np_power py_pow numpy_float64
        z s_max s_scale s_size = Ok out /\
      length out = length z /\
      forall i x, z !! i = Some x ->
        exists f, signed_zero f = true /\ out !! i = Some (x * f))) /\
  (forall cube,
     (s_max =? 0) = false ->
     py_pow (Float64.pi / s_max) 3 = Ok cube ->
     (cube =? 0) = true ->
     damp_ri_updated_lorch_of np_sin np_cos np_power py_pow python_float
       z s_max s_scale s_size = Err ZeroDivisionError).
Proof using np_power_infinite.
  split.
  - intros Hs. split.
    + unfold damp_ri_updated_lorch_of, true_divide, py_div. by rewrite Hs.
    + intros <-.
      assert (Hdelta : inf_or_nan (Float64.pi / s_max) = true).
      { apply inf_or_nan_div, signed_zero_zero_or_nan.
        by apply signed_zero_eqb. }
      assert (Hnum : zero_or_nan (3 / np_power (Float64.pi / s_max) 3)
                     = true)
        by (by apply zero_or_nan_div_inf, np_power_infinite).
      unfold damp_ri_updated_lorch_of, true_divide, cube_of.
      cbn [mbind result_bind].
      rewrite updated_lorch_damping_term, map_map.
      rewrite multiply_same_length
        by (by rewrite length_map, length_scattering_axis).
      eexists. split; [done|]. split.
      { rewrite length_zip_with, length_map, length_scattering_axis. lia. }
      intros i x Hx. eexists. split; [|
        by apply (lookup_zip_with_axis
                    (fun s => nan_to_num
                       (updated_lorch_factor np_sin np_cos np_power
                          (3 / np_power (Float64.pi / s_max) 3)
                          (Float64.pi / s_max) s))
                    z s_scale i x Hx), (lookup_lt_Some _ _ _ Hx)].
      apply nan_to_num_zero_or_nan. unfold updated_lorch_factor.
      by apply zero_or_nan_mul_l, zero_or_nan_div_l.
  - intros cube Hs Hpow Hcube.
    unfold damp_ri_updated_lorch_of, true_divide, cube_of, py_div.
    rewrite Hs. cbn [mbind result_bind]. rewrite Hpow.
    cbn [mbind result_bind]. by rewrite Hcube.
Qed.

End LorchKinds.

Lemma cube_inf_or_nan (x : float) :
  inf_or_nan x = true -> inf_or_nan (x * x * x) = true.
Proof. intros Hx. by apply inf_or_nan_mul; [apply inf_or_nan_mul|]. Qed.

Lemma damp_ri_updated_lorch_zero_divisor_witness :
  damp_ri_updated_lorch_of (fun x => x) (fun x => x)
    (fun x _ => x * x * x) (fun x _ => Ok (x * x * x)) python_float
    [1; 2; 3] 0 0.5 3 = Err ZeroDivisionError /\
  (exists out,
     damp_ri_updated_lorch_of (fun x => x) (fun x => x)
       (fun x _ => x * x * x) (fun x _ => Ok (x * x * x)) numpy_float64
       [1; 2; 3] 0 0.5 3 = Ok out /\
     length out = length [1; 2; 3] /\
     forall i x, [1; 2; 3] !! i = Some x ->
       exists f, signed_zero f = true /\ out !! i = Some (x * f)) /\
  damp_ri_updated_lorch_of (fun x => x) (fun x => x)
    (fun x _ => x * x * x) (fun x _ => Ok (x * x * x)) python_float
    [1; 2; 3] infinity 0.5 3 = Err ZeroDivisionError.
Proof.
  split; [|split].
  - apply (proj1 (proj1 (damp_ri_updated_lorch_zero_divisor
                           (fun x => x) (fun x => x)
                           (fun x _ => x * x * x)
                           (fun x _ => Ok (x * x * x))
                           cube_inf_or_nan [1; 2; 3] 0 0.5 3)
                    eq_refl)).
  - apply (proj2 (proj1 (damp_ri_updated_lorch_zero_divisor
                           (fun x => x) (fun x => x)
                           (fun x _ => x * x * x)
                           (fun x _ => Ok (x * x * x))
                           cube_inf_or_nan [1; 2; 3] 0 0.5 3)
                    eq_refl) eq_refl).
  - apply (proj2 (damp_ri_updated_lorch_zero_divisor
                    (fun x => x) (fun x => x)
                    (fun x _ => x * x * x)
                    (fun x _ => Ok (x * x * x))
                    cube_inf_or_nan [1; 2; 3] infinity 0.5 3)
             0); reflexivity.
Defined.

(** *** The scattering-curve synthesizers: what goes wrong, and when *)

Lemma lookup_params_unknown (tbl : gmap string params)
  (elements : list string) (e : string) :
  e ∈ elements -> tbl !! e = None ->
  lookup_params (Some tbl) elements = Err KeyError.
Proof.
  unfold lookup_params. intros He Hnone.
  induction elements as [|e' elements IH]; [by apply elem_of_nil in He|].
  cbn [mapM global mbind result_bind] in *.
  destruct (tbl !! e') as [p|] eqn:E.
  - cbn [mbind result_bind].
    apply elem_of_cons in He as [->|He]; [congruence|].
    by rewrite (IH He).
  - done.
Qed.

Lemma lookup_params_length (table : option (gmap string params))
  (elements : list string) (ps : list params) :
  lookup_params table elements = Ok ps -> length ps = length elements.
Proof.
  unfold lookup_params. revert ps.
  induction elements as [|e elements IH]; intros ps.
  - by intros [= <-].
  - cbn [mapM mbind result_bind].
    destruct (global table) as [t|]; [|done]. cbn [mbind result_bind].
    destruct (t !! e) as [p|]; [|done]. cbn [mbind result_bind].
    destruct (mapM _ elements) as [ps'|] eqn:E; [|done].
    cbn [mbind result_bind mret result_ret]. intros [= <-].
    cbn [length]. f_equal. by apply IH.
Qed.

Lemma for_each_ext {A S} (body body' : S -> A -> result S) (l : list A)
  (s : S) :
  (forall s a, a ∈ l -> body s a = body' s a) ->
  for_each body l s = for_each body' l s.
Proof.
  revert s. induction l as [|a l IH]; intros s Hext; [done|].
  cbn [for_each]. rewrite (Hext s a) by apply list_elem_of_here.
  destruct (body' s a) as [s'|]; [|done]. cbn [mbind result_bind].
  apply IH. intros s'' a' Ha'. apply Hext. by apply list_elem_of_further.
Qed.

Lemma for_each_accumulate_short (term : float * float -> float -> float)
  (fracs x : list float) (ps : list params) (n : nat)
  (acc : list (list float) * list (list float)) :
  (n <= length fracs < n + length ps)%nat ->
  for_each (accumulate term fracs x) (zip (seq n (length ps)) ps) acc
  = Err IndexError.
Proof.
  revert n acc. induction ps as [|p ps IH]; intros n acc Hn.
  - cbn in Hn. lia.
  - cbn [length seq zip zip_with for_each] in *.
    unfold accumulate at 1. unfold getitem. cbn [fst snd].
    destruct (fracs !! n) as [frac|] eqn:E; [|done].
    cbn [mbind result_bind]. apply IH.
    apply lookup_lt_Some in E. lia.
Qed.

(** An element that is not in the table makes either synthesizer raise
    [KeyError], whatever the other arguments are. *)
Theorem scattering_to_signal_unknown_element
  (np_exp : float -> float) (g : globals) (elements : list string)
  (e : string) (fracs : list float) (N C : ndarray) (s_size : nat)
  (s_scale : float) :
  e ∈ elements ->
  (forall tbl,
     ATOMIC_SCATTERING_PARAMS_LOBATO g = Some tbl -> tbl !! e = None ->
     scattering_to_signal_lobato g elements fracs N C s_size s_scale
     = Err KeyError) /\
  (forall tbl,
     ATOMIC_SCATTERING_PARAMS g = Some tbl -> tbl !! e = None ->
     scattering_to_signal_xtables np_exp g elements fracs N C s_size s_scale
     = Err KeyError).
Proof.
  intros He.
  split; intros tbl Hg Hnone;
    unfold scattering_to_signal_lobato, scattering_to_signal_xtables,
      scattering_to_signal;
    by rewrite Hg, (lookup_params_unknown tbl elements e He Hnone).
Qed.

Lemma scattering_to_signal_unknown_element_witness :
  let tbl : gmap string params := {[ "C" := [(0.25, 0.5)] ]} in
  let g := Globals None (Some tbl) (Some tbl) in
  scattering_to_signal_lobato g ["C"; "Xx"] [0.5; 0.5]
    (NdArray [1; 1]%nat [1]) (NdArray [1; 1]%nat [0]) 3 0.5
  = Err KeyError.
Proof.
  intros tbl g.
  apply (proj1 (scattering_to_signal_unknown_element
                  (fun x => x) g ["C"; "Xx"] "Xx" [0.5; 0.5]
                  (NdArray [1; 1]%nat [1]) (NdArray [1; 1]%nat [0]) 3 0.5
                  ltac:(apply list_elem_of_further, list_elem_of_here))
           tbl eq_refl eq_refl).
Defined.

Lemma scattering_to_signal_short (term : float * float -> float -> float)
  (tbl : gmap string params) (elements : list string) (ps : list params)
  (fracs : list float) (N C : ndarray) (s_size : nat) (s_scale : float)
  (x_size y_size : nat) (rest : list nat) :
  Forall2 (fun e p => tbl !! e = Some p) elements ps ->
  nd_shape N = x_size :: y_size :: rest ->
  (length fracs < length elements)%nat ->
  scattering_to_signal (Some tbl) term elements fracs N C s_size s_scale
  = Err IndexError.
Proof.
  intros Hps HN Hfracs.
  assert (Hlen : length ps = length elements)
    by (symmetry; by eapply Forall2_length).
  unfold scattering_to_signal.
  rewrite (mapM_lookup_params _ _ _ Hps). cbn [mbind result_bind].
  rewrite HN. cbn [getitem lookup list_lookup mbind result_bind].
  unfold enumerate. rewrite for_each_accumulate_short by lia. done.
Qed.

(** With every element in the table and [N] of rank 2 or more, fewer
    fractions than elements make either synthesizer raise [IndexError]. *)
Theorem scattering_to_signal_too_few_fractions
  (np_exp : float -> float) (g : globals) (elements : list string)
  (ps : list params) (fracs : list float) (N C : ndarray) (s_size : nat)
  (s_scale : float) (x_size y_size : nat) (rest : list nat) :
  nd_shape N = x_size :: y_size :: rest ->
  (length fracs < length elements)%nat ->
  (forall tbl,
     ATOMIC_SCATTERING_PARAMS_LOBATO g = Some tbl ->
     Forall2 (fun e p => tbl !! e = Some p) elements ps ->
     scattering_to_signal_lobato g elements fracs N C s_size s_scale
     = Err IndexError) /\
  (forall tbl,
     ATOMIC_SCATTERING_PARAMS g = Some tbl ->
     Forall2 (fun e p => tbl !! e = Some p) elements ps ->
     scattering_to_signal_xtables np_exp g elements fracs N C s_size s_scale
     = Err IndexError).
Proof.
  intros HN Hfracs.
  split; intros tbl Hg Hps;
    unfold scattering_to_signal_lobato, scattering_to_signal_xtables;
    rewrite Hg; by eapply scattering_to_signal_short.
Qed.

Lemma scattering_to_signal_too_few_fractions_witness :
  let tbl : gmap string params :=
    {[ "C" := [(0.25, 0.5); (1, 2)]; "O" := [(0.5, 0.125)] ]} in
  let g := Globals None (Some tbl) (Some tbl) in
  scattering_to_signal_xtables (fun x => 1 + x) g ["C"; "O"] [1]
    (NdArray [1; 2]%nat [2; 3]) (NdArray [1; 2]%nat [0.5; 0.25]) 3 0.5
  = Err IndexError.
Proof.
  intros tbl g.
  apply (proj2 (scattering_to_signal_too_few_fractions
                  (fun x => 1 + x) g ["C"; "O"]
                  [[(0.25, 0.5); (1, 2)]; [(0.5, 0.125)]] [1]
                  (NdArray [1; 2]%nat [2; 3])
                  (NdArray [1; 2]%nat [0.5; 0.25]) 3 0.5 1 2 []
                  eq_refl (le_n 2))
           tbl eq_refl).
  repeat constructor.
Defined.

Lemma scattering_to_signal_surplus (term : float * float -> float -> float)
  (table : option (gmap string params)) (elements : list string)
  (fracs more : list float) (N C : ndarray) (s_size : nat)
  (s_scale : float) :
  (length elements <= length fracs)%nat ->
  scattering_to_signal table term elements (fracs ++ more) N C s_size s_scale
  = scattering_to_signal table term elements fracs N C s_size s_scale.
Proof.
  intros Hlen. unfold scattering_to_signal.
  destruct (lookup_params table elements) as [ps|] eqn:Hps; [|done].
  apply lookup_params_length in Hps. cbn [mbind result_bind].
  destruct (getitem (nd_shape N) 0) as [x_size|]; [|done].
  cbn [mbind result_bind].
  destruct (getitem (nd_shape N) 1) as [y_size|]; [|done].
  cbn [mbind result_bind].
  match goal with
  | |- context [for_each (accumulate term (fracs ++ more) ?x) ?l ?s] =>
      rewrite (for_each_ext (accumulate term (fracs ++ more) x)
                 (accumulate term fracs x) l s)
  end; [done|].
  intros acc [i p] Hip. unfold enumerate in Hip.
  apply list_elem_of_lookup_1 in Hip as [k Hk].
  apply lookup_zip_with_Some in Hk as (i' & p' & [= <- <-] & Hi & _).
  apply lookup_seq in Hi as [-> Hk]. cbn in Hk.
  unfold accumulate, getitem. cbn [fst snd].
  by rewrite lookup_app_l by lia.
Qed.

(** Fractions beyond the number of elements are never read: appending
    any to a list that has one per element changes nothing, neither the
    arrays returned nor the exception raised. *)
Theorem scattering_to_signal_surplus_fractions
  (np_exp : float -> float) (g : globals) (elements : list string)
  (fracs more : list float) (N C : ndarray) (s_size : nat)
  (s_scale : float) :
  (length elements <= length fracs)%nat ->
  scattering_to_signal_lobato g elements (fracs ++ more) N C s_size s_scale
  = scattering_to_signal_lobato g elements fracs N C s_size s_scale /\
  scattering_to_signal_xtables np_exp g elements (fracs ++ more) N C s_size
    s_scale
  = scattering_to_signal_xtables np_exp g elements fracs N C s_size s_scale.
Proof.
  intros Hlen. split; by apply scattering_to_signal_surplus.
Qed.

Lemma scattering_to_signal_surplus_fractions_witness :
  let tbl : gmap string params :=
    {[ "C" := [(0.25, 0.5); (1, 2)]; "O" := [(0.5, 0.125)] ]} in
  let g := Globals None (Some tbl) (Some tbl) in
  let N := NdArray [1; 2]%nat [2; 3] in
  let C := NdArray [1; 2]%nat [0.5; 0.25] in
  scattering_to_signal_lobato g ["C"; "O"] ([0.75; 0.25] ++ [9; 9]) N C 3 0.5
  = scattering_to_signal_lobato g ["C"; "O"] [0.75; 0.25] N C 3 0.5 /\
  scattering_to_signal_xtables (fun x => 1 + x) g ["C"; "O"]
    ([0.75; 0.25] ++ [9; 9]) N C 3 0.5
  = scattering_to_signal_xtables (fun x => 1 + x) g ["C"; "O"] [0.75; 0.25]
      N C 3 0.5.
Proof.
  intros tbl g N C.
  apply (scattering_to_signal_surplus_fractions (fun x => 1 + x) g
           ["C"; "O"] [0.75; 0.25] [9; 9] N C 3 0.5 (le_n 2)).
Defined.

End PdfUtilsMoreProofs.

(** ** [lazy_tools.py]: the driver's trace, and results that are arrays *)

Module LazyToolsTraceProofs.
Import Np LazyTools LazyToolsTrace NpFacts LazyToolsProofs.

(** *** Rows *)

Lemma length_write_rows (G : nat -> list float) (offs : list nat)
  (rows : list (list float)) :
  length (write_rows G offs rows) = length rows.
Proof.
  unfold write_rows. revert rows.
  induction offs as [|o offs IH]; intros rows; [done|].
  cbn [foldl]. by rewrite IH, length_insert.
Qed.

Lemma write_rows_app (G : nat -> list float) (offs1 offs2 : list nat)
  (rows : list (list float)) :
  write_rows G (offs1 ++ offs2) rows
  = write_rows G offs2 (write_rows G offs1 rows).
Proof. unfold write_rows. apply foldl_app. Qed.

Lemma lookup_write_rows (G : nat -> list float) (offs : list nat)
  (rows : list (list float)) (p : nat) :
  (p < length rows)%nat ->
  write_rows G offs rows !! p
  = if decide (p ∈ offs) then Some (G p) else rows !! p.
Proof.
  unfold write_rows. revert rows.
  induction offs as [|o offs IH]; intros rows Hp.
  - cbn. destruct (decide (p ∈ [])) as [H|_]; [|done].
    by apply not_elem_of_nil in H.
  - cbn [foldl]. rewrite IH by (by rewrite length_insert).
    destruct (decide (p ∈ offs)) as [Hin|Hnin].
    + rewrite decide_True by (by apply list_elem_of_further). done.
    + destruct (decide (p = o)) as [->|Hne].
      * rewrite decide_True by apply list_elem_of_here.
        by rewrite list_lookup_insert_eq.
      * rewrite decide_False by (intros [?|?]%elem_of_cons; done).
        by rewrite list_lookup_insert_ne.
Qed.

Lemma write_rows_cover (G : nat -> list float) (offs : list nat)
  (rows : list (list float)) :
  (forall p, (p < length rows)%nat -> p ∈ offs) ->
  write_rows G offs rows = map G (seq 0 (length rows)).
Proof.
  intros Hcover. apply list_eq. intros p.
  destruct (decide (p < length rows)%nat) as [Hp|Hp].
  - rewrite lookup_write_rows by done.
    rewrite decide_True by (by apply Hcover).
    by rewrite list_lookup_fmap, lookup_seq_lt.
  - rewrite !lookup_ge_None_2; [done| |].
    + rewrite length_map, length_seq. lia.
    + rewrite length_write_rows. lia.
Qed.

Lemma mjoin_replicate_replicate (n m : nat) (x : float) :
  mjoin (replicate n (replicate m x)) = replicate (n * m) x.
Proof.
  induction n as [|n IH]; [done|].
  replace (S n * m)%nat with (m + n * m)%nat by lia.
  by rewrite replicate_add, <- IH.
Qed.

Lemma length_mjoin_rows (rows : list (list float)) (m : nat) :
  Forall (fun row => length row = m) rows ->
  length (mjoin rows) = (length rows * m)%nat.
Proof.
  induction 1 as [|row rows Hrow _ IH]; [done|].
  change (mjoin (row :: rows)) with (row ++ mjoin rows).
  rewrite length_app, Hrow, IH. cbn [length]. lia.
Qed.

(** Overwriting one row's worth of the data replaces that row. *)
Lemma overwrite_row (rows : list (list float)) (m p : nat)
  (l : list float) :
  Forall (fun row => length row = m) rows ->
  (p < length rows)%nat ->
  length l = m ->
  overwrite (mjoin rows) (p * m) l = mjoin (<[p := l]> rows).
Proof.
  intros Hrows Hp Hl.
  destruct (lookup_lt_is_Some_2 rows p Hp) as [row Hrow].
  assert (Hlen : length row = m)
    by (rewrite Forall_lookup in Hrows; by eapply Hrows).
  assert (E : mjoin rows
              = mjoin (take p rows) ++ row ++ mjoin (drop (S p) rows)).
  { rewrite <- (take_drop_middle rows p row Hrow) at 1.
    by rewrite join_app. }
  assert (Htake : length (mjoin (take p rows)) = (p * m)%nat).
  { rewrite (length_mjoin_rows _ m) by (by apply Forall_take).
    rewrite length_take. f_equal. lia. }
  rewrite insert_take_drop, join_app by done.
  change (mjoin (l :: drop (S p) rows)) with (l ++ mjoin (drop (S p) rows)).
  unfold overwrite. rewrite E, take_app_length' by done. do 2 f_equal.
  rewrite drop_app_ge by lia. rewrite Htake, Hl.
  replace (p * m + m - p * m)%nat with m by lia.
  by rewrite drop_app_length' by done.
Qed.

Lemma holds_rows_insert (n m : nat) (rows : list (list float)) (p : nat)
  (l : list float) :
  length rows = n -> Forall (fun row => length row = m) rows ->
  length l = m ->
  length (<[p := l]> rows) = n /\
  Forall (fun row => length row = m) (<[p := l]> rows).
Proof.
  intros Hn Hrows Hl. split; [by rewrite length_insert|].
  by apply Forall_insert.
Qed.

(** *** Storing one result *)

Lemma size_of_slot (return_sig_size : nat) :
  size_of (slot return_sig_size)
  = if (return_sig_size =? 1)%nat then 1%nat else return_sig_size.
Proof.
  unfold slot. destruct (return_sig_size =? 1)%nat; cbn; lia.
Qed.

Lemma stored_fits (return_sig_size : nat) (out_data : frame_result) :
  fits return_sig_size out_data = true ->
  stored return_sig_size out_data = Ok (values return_sig_size out_data) /\
  length (values return_sig_size out_data)
  = size_of (slot return_sig_size).
Proof.
  unfold values, stored, fits, slot.
  destruct out_data as [x|l].
  - intros _. destruct (return_sig_size =? 1)%nat;
      cbn [broadcast_to last size_of foldr]; by rewrite length_replicate.
  - destruct (return_sig_size =? 1)%nat eqn:Ek; [done|].
    + cbn [negb andb broadcast_to last size_of foldr].
      destruct (length l =? return_sig_size)%nat eqn:El.
      * intros _. apply Nat.eqb_eq in El. rewrite Nat.mul_1_r.
        destruct return_sig_size as [|k].
        { destruct l; [done|done]. }
        rewrite Nat.div_same by done. cbn [replicate mjoin list_join].
        by rewrite app_nil_r.
      * cbn [orb]. intros Hl%Nat.eqb_eq.
        destruct l as [|x [|x' l]]; [done| |done].
        by rewrite length_replicate.
Qed.

Lemma stored_does_not_fit (return_sig_size : nat)
  (out_data : frame_result) :
  fits return_sig_size out_data = false ->
  stored return_sig_size out_data = Err ValueError.
Proof.
  unfold stored, fits, slot. destruct out_data as [x|l]; [done|].
  destruct (return_sig_size =? 1)%nat; [done|].
  cbn [negb andb]. intros [Hk H1]%orb_false_iff.
  cbn [broadcast_to last]. rewrite Hk.
  by destruct l as [|x [|x' l]].
Qed.

Lemma flat_offset_rows (n0 n1 k i j : nat) :
  (i < n0)%nat -> (j < n1)%nat ->
  flat_offset ([n0; n1] ++ slot k) [i; j]
  = Ok ((i * n1 + j) * size_of (slot k))%nat.
Proof.
  intros Hi%Nat.ltb_lt Hj%Nat.ltb_lt. unfold slot.
  destruct (k =? 1)%nat; cbn [app flat_offset size_of foldr];
    rewrite Hi, Hj; cbn [mbind result_bind]; f_equal; lia.
Qed.

(** Lines 118-121 for a result that fits: its values replace one row. *)
Lemma store_row (n0 n1 k i j : nat) (rows : list (list float))
  (return_data : ndarray) (out_data : frame_result) :
  holds_rows ([n0; n1] ++ slot k) (n0 * n1) (size_of (slot k)) rows
    return_data ->
  (i < n0)%nat -> (j < n1)%nat ->
  fits k out_data = true ->
  exists return_data',
    store return_data k [i; j] out_data = Ok return_data' /\
    holds_rows ([n0; n1] ++ slot k) (n0 * n1) (size_of (slot k))
      (<[(i * n1 + j)%nat := values k out_data]> rows) return_data'.
Proof.
  intros (-> & Hn & Hrows) Hi Hj [Hst Hlen]%stored_fits.
  assert (Hset : forall colon,
            (colon && (length ([n0; n1] ++ slot k) <=? 2)%nat) = false ->
            setitem (NdArray ([n0; n1] ++ slot k) (mjoin rows)) [i; j]
                    colon out_data
            = Ok (NdArray ([n0; n1] ++ slot k)
                    (mjoin (<[(i * n1 + j)%nat := values k out_data]>
                              rows)))).
  { intros colon Hcolon. unfold setitem.
    cbn [nd_shape nd_data length] in *. rewrite Hcolon.
    rewrite flat_offset_rows by done. cbn [mbind result_bind].
    change (drop 2 ([n0; n1] ++ slot k)) with (slot k).
    fold (stored k out_data).
    rewrite Hst. cbn [mbind result_bind].
    do 2 f_equal. apply overwrite_row; [done|nia|done]. }
  eexists. split.
  - unfold store. destruct (k =? 1)%nat eqn:Ek.
    + by apply Hset.
    + apply Hset. unfold slot. by rewrite Ek.
  - split; [done|]. by apply holds_rows_insert.
Qed.

(** Lines 118-121 for a result that does not fit. *)
Lemma store_does_not_fit (n0 n1 k i j : nat) (data : list float)
  (out_data : frame_result) :
  (i < n0)%nat -> (j < n1)%nat ->
  fits k out_data = false ->
  store (NdArray ([n0; n1] ++ slot k) data) k [i; j] out_data
  = Err ValueError.
Proof.
  intros Hi Hj Hst%stored_does_not_fit.
  assert (Hset : forall colon,
            (colon && (length ([n0; n1] ++ slot k) <=? 2)%nat) = false ->
            setitem (NdArray ([n0; n1] ++ slot k) data) [i; j]
                    colon out_data
            = Err ValueError).
  { intros colon Hcolon. unfold setitem.
    cbn [nd_shape nd_data length] in *. rewrite Hcolon.
    rewrite flat_offset_rows by done. cbn [mbind result_bind].
    change (drop 2 ([n0; n1] ++ slot k)) with (slot k).
    fold (stored k out_data).
    by rewrite Hst. }
  unfold store. destruct (k =? 1)%nat eqn:Ek.
  - by apply Hset.
  - apply Hset. unfold slot. by rewrite Ek.
Qed.

(** *** Loops *)

Lemma for_each_traced_rows {A S T} (body : S -> A -> traced S)
  (R : T -> S -> Prop) (h : T -> A -> T) (ev : A -> list event)
  (Q : A -> Prop) (l : list A) :
  (forall t s x log, R t s -> Q x ->
     exists s', body s x log = (log ++ ev x, Ok s') /\ R (h t x) s') ->
  Forall Q l ->
  forall t s log, R t s ->
    exists s',
      for_each_traced body l s log = (log ++ flat_map ev l, Ok s') /\
      R (foldl h t l) s'.
Proof.
  intros Hbody HQ. induction HQ as [|x l Hx _ IH]; intros t s log Hs.
  - exists s. cbn. rewrite app_nil_r. by split.
  - cbn [for_each_traced foldl flat_map]. unfold mbind, traced_bind.
    destruct (Hbody t s x log Hs Hx) as (s' & -> & Hs').
    destruct (IH (h t x) s' (log ++ ev x) Hs') as (s'' & -> & Hs'').
    exists s''. by rewrite <- app_assoc.
Qed.

Lemma for_each_traced_raises {A S T} (body : S -> A -> traced S)
  (R : T -> S -> Prop) (h : T -> A -> T) (Q : A -> Prop) (ok : A -> bool)
  (e : exn) (l : list A) :
  (forall t s x log, R t s -> Q x -> ok x = true ->
     exists log' s', body s x log = (log', Ok s') /\ R (h t x) s') ->
  (forall t s x log, R t s -> Q x -> ok x = false ->
     exists log', body s x log = (log', Err e)) ->
  Forall Q l ->
  Exists (fun x => ok x = false) l ->
  forall t s log, R t s ->
    exists log', for_each_traced body l s log = (log', Err e).
Proof.
  intros Hok Hfail HQ.
  induction HQ as [|x l Hx _ IH]; intros Hex t s log Hs.
  - by apply Exists_nil in Hex.
  - cbn [for_each_traced]. unfold mbind, traced_bind.
    destruct (ok x) eqn:E.
    + destruct (Hok t s x log Hs Hx E) as (log' & s' & -> & Hs').
      apply Exists_cons in Hex as [Hex|Hex]; [congruence|].
      by apply (IH Hex (h t x)).
    + destruct (Hfail t s x log Hs Hx E) as (log' & ->). by exists log'.
Qed.

Lemma forallb_false_Exists {A} (f : A -> bool) (l : list A) :
  forallb f l = false -> Exists (fun x => f x = false) l.
Proof.
  induction l as [|x l IH]; [done|]. cbn [forallb].
  destruct (f x) eqn:E; cbn [andb]; intros H.
  - right. by apply IH.
  - by left.
Qed.

Lemma foldl_write_rows {A} (G : nat -> list float) (k : A -> list nat)
  (l : list A) (rows : list (list float)) :
  foldl (fun rows x => write_rows G (k x) rows) rows l
  = write_rows G (flat_map k l) rows.
Proof.
  revert rows. induction l as [|x l IH]; intros rows; [done|].
  cbn [foldl flat_map]. by rewrite IH, write_rows_app.
Qed.

Lemma row_at_offset (a : dask_array) (function : frame -> frame_result)
  (k n1 i j : nat) :
  (j < n1)%nat ->
  row_at a function k n1 (i * n1 + j)
  = values k (function (frame_at a [i; j])).
Proof.
  intros Hj. unfold row_at.
  by destruct (div_mod_offset n1 i j Hj) as [-> ->].
Qed.

(** The local coordinates of the frames of a window, as lines 110-112
    list them, and the coordinates they stand for. *)
Lemma coordinates_of_local (a0 b0 a1 b1 : nat) :
  map (zip_with Nat.add [a0; a1])
      (flat_map (fun im_slice0 =>
                   map (fun im_slice1 => [im_slice0; im_slice1])
                       (seq 0 (b1 - a1)))
                (seq 0 (b0 - a0)))
  = coordinates_of [slice a0 b0; slice a1 b1; slice_all; slice_all].
Proof.
  rewrite map_flat_map. cbn [coordinates_of]. apply flat_map_ext.
  intros i0. by rewrite map_map.
Qed.

Lemma local_in_window (a0 b0 a1 b1 : nat) (im_slice : list nat) :
  im_slice ∈ flat_map (fun im_slice0 =>
                         map (fun im_slice1 => [im_slice0; im_slice1])
                             (seq 0 (b1 - a1)))
                      (seq 0 (b0 - a0)) ->
  exists i0 i1, im_slice = [i0; i1] /\
    (i0 < b0 - a0)%nat /\ (i1 < b1 - a1)%nat.
Proof.
  rewrite list_elem_of_In, in_flat_map.
  intros (i0 & Hi0%in_seq & (i1 & <- & Hi1%in_seq)%in_map_iff).
  exists i0, i1. split; [done|]. lia.
Qed.

Section Driver.

Variable a : dask_array.
Variable function : frame -> frame_result.
Variables k n0 n1 s0 s1 : nat.
Hypothesis Hshape : shape a = [n0; n1; s0; s1].

(** One frame of a window whose result fits: lines 114-121. *)
Lemma process_frame_row (a0 b0 a1 b1 i0 i1 : nat)
  (rows : list (list float)) (return_data : ndarray) (log : list event) :
  (b0 <= n0)%nat -> (b1 <= n1)%nat ->
  (i0 < b0 - a0)%nat -> (i1 < b1 - a1)%nat ->
  holds_rows ([n0; n1] ++ slot k) (n0 * n1) (size_of (slot k)) rows
    return_data ->
  fits k (function (frame_at a [a0 + i0; a1 + i1]%nat)) = true ->
  let slice_chunk := [slice a0 b0; slice a1 b1; slice_all; slice_all] in
  let d := DataSlice [b0 - a0; b1 - a1]%nat
             (map (fun local => frame_at a (zip_with Nat.add [a0; a1] local))
                  (indices [b0 - a0; b1 - a1]%nat)) in
  exists return_data',
    (im ← lift (frame_of d [i0; i1]);
     start0 ← lift (entry_start slice_chunk 0);
     im_slice0 ← lift (getitem [i0; i1] 0);
     let i_x := (start0 + im_slice0)%nat in
     start1 ← lift (entry_start slice_chunk 1);
     im_slice1 ← lift (getitem [i0; i1] 1);
     let i_y := (start1 + im_slice1)%nat in
     tell (Invoke im);;
     let out_data := function im in
     lift (store return_data k [i_x; i_y] out_data)) log
    = (log ++ [Invoke (frame_at a [a0 + i0; a1 + i1]%nat)],
       Ok return_data') /\
    holds_rows ([n0; n1] ++ slot k) (n0 * n1) (size_of (slot k))
      (write_rows (row_at a function k n1)
         [offset_of n1 [a0 + i0; a1 + i1]%nat] rows)
      return_data'.
Proof using Type.
  intros Hb0 Hb1 Hi0 Hi1 Hrows Hfits slice_chunk d.
  unfold d. rewrite frame_of_window by done.
  destruct (store_row n0 n1 k (a0 + i0) (a1 + i1) rows return_data
              (function (frame_at a [a0 + i0; a1 + i1]%nat)))
    as (return_data' & Hstore & Hrows'); [done|lia|lia|done|].
  exists return_data'.
  cbn [entry_start getitem lookup list_lookup mbind result_bind slice_chunk
       zip_with].
  cbv [mbind traced_bind lift tell]. rewrite Hstore. split; [done|].
  unfold write_rows. cbn [foldl offset_of].
  by rewrite row_at_offset by lia.
Qed.

(** One frame of a window whose result does not fit. *)
Lemma process_frame_raises (a0 b0 a1 b1 i0 i1 : nat)
  (rows : list (list float)) (return_data : ndarray) (log : list event) :
  (b0 <= n0)%nat -> (b1 <= n1)%nat ->
  (i0 < b0 - a0)%nat -> (i1 < b1 - a1)%nat ->
  holds_rows ([n0; n1] ++ slot k) (n0 * n1) (size_of (slot k)) rows
    return_data ->
  fits k (function (frame_at a [a0 + i0; a1 + i1]%nat)) = false ->
  let slice_chunk := [slice a0 b0; slice a1 b1; slice_all; slice_all] in
  let d := DataSlice [b0 - a0; b1 - a1]%nat
             (map (fun local => frame_at a (zip_with Nat.add [a0; a1] local))
                  (indices [b0 - a0; b1 - a1]%nat)) in
  (im ← lift (frame_of d [i0; i1]);
   start0 ← lift (entry_start slice_chunk 0);
   im_slice0 ← lift (getitem [i0; i1] 0);
   let i_x := (start0 + im_slice0)%nat in
   start1 ← lift (entry_start slice_chunk 1);
   im_slice1 ← lift (getitem [i0; i1] 1);
   let i_y := (start1 + im_slice1)%nat in
   tell (Invoke im);;
   let out_data := function im in
   lift (store return_data k [i_x; i_y] out_data)) log
  = (log ++ [Invoke (frame_at a [a0 + i0; a1 + i1]%nat)],
     Err ValueError).
Proof using Type.
  intros Hb0 Hb1 Hi0 Hi1 (-> & _) Hfits slice_chunk d.
  unfold d. rewrite frame_of_window by done.
  cbn [entry_start getitem lookup list_lookup mbind result_bind slice_chunk
       zip_with].
  cbv [mbind traced_bind lift tell].
  by rewrite store_does_not_fit by (done || lia).
Qed.


(** One window whose frames all give results that fit: lines 94-121 log
    the window and its frames, and store the rows of exactly its
    coordinates. *)
Lemma process_window_rows (a0 b0 a1 b1 : nat) (rows : list (list float))
  (return_data : ndarray) (log : list event) :
  (a0 <= b0 <= n0)%nat -> (a1 <= b1 <= n1)%nat ->
  holds_rows ([n0; n1] ++ slot k) (n0 * n1) (size_of (slot k)) rows
    return_data ->
  let slice_chunk := [slice a0 b0; slice a1 b1; slice_all; slice_all] in
  window_fits a function k slice_chunk = true ->
  exists return_data',
    process_chunk a function k return_data slice_chunk log
    = (log ++ window_events a slice_chunk, Ok return_data') /\
    holds_rows ([n0; n1] ++ slot k) (n0 * n1) (size_of (slot k))
      (write_rows (row_at a function k n1)
         (map (offset_of n1) (coordinates_of slice_chunk)) rows)
      return_data'.
Proof using Hshape.
  intros H0 H1 Hrows slice_chunk Hfits.
  unfold window_fits in Hfits. unfold slice_chunk in *. clear slice_chunk.
  unfold process_chunk.
  rewrite (compute_window a n0 n1 s0 s1) by done.
  cbv [mbind traced_bind lift tell].
  cbn [length ds_shape]. unfold process_frames_2.
  cbn [ds_shape lookup_total list_lookup_total].
  set (G := row_at a function k n1).
  set (h := fun (rows : list (list float)) (im_slice : list nat) =>
              write_rows G
                [offset_of n1 (zip_with Nat.add [a0; a1] im_slice)] rows).
  set (ev := fun im_slice : list nat =>
               [Invoke (frame_at a (zip_with Nat.add [a0; a1] im_slice))]).
  set (Q := fun im_slice : list nat =>
              exists i0 i1, im_slice = [i0; i1] /\
                (i0 < b0 - a0)%nat /\ (i1 < b1 - a1)%nat /\
                fits k (function (frame_at a [a0 + i0; a1 + i1]%nat))
                = true).
  rewrite forallb_forall in Hfits.
  rewrite <- coordinates_of_local in Hfits.
  match goal with
  | |- context [for_each_traced ?body ?l return_data ?log0] =>
      destruct (for_each_traced_rows body
                  (holds_rows ([n0; n1] ++ slot k) (n0 * n1)
                     (size_of (slot k)))
                  h ev Q l)
        with (t := rows) (s := return_data) (log := log0)
        as (return_data' & Hrun & Hrows')
  end.
  - intros rows0 rd im_slice log0 Hrd (i0 & i1 & -> & Hi0 & Hi1 & Hfit).
    apply (process_frame_row a0 b0 a1 b1 i0 i1 rows0 rd log0);
      (done || lia).
  - apply Forall_forall. intros im_slice Him.
    destruct (local_in_window _ _ _ _ _ Him) as (i0 & i1 & -> & Hi0 & Hi1).
    exists i0, i1. split; [done|]. split; [done|]. split; [done|].
    apply (Hfits [a0 + i0; a1 + i1]%nat).
    apply in_map_iff. exists [i0; i1]. split; [done|].
    by apply list_elem_of_In.
  - done.
  - exists return_data'. rewrite Hrun. split.
    + f_equal. rewrite <- app_assoc. f_equal. unfold window_events.
      cbn [app]. f_equal. rewrite <- coordinates_of_local.
      unfold ev. rewrite flat_map_singleton. by rewrite map_map.
    + unfold h in Hrows'.
      rewrite (foldl_write_rows G
                 (fun x => [offset_of n1 (zip_with Nat.add [a0; a1] x)]))
        in Hrows'.
      rewrite flat_map_singleton in Hrows'.
      by rewrite <- coordinates_of_local, map_map.
Qed.

(** One window with a frame whose result does not fit. *)
Lemma process_window_raises (a0 b0 a1 b1 : nat) (rows : list (list float))
  (return_data : ndarray) (log : list event) :
  (a0 <= b0 <= n0)%nat -> (a1 <= b1 <= n1)%nat ->
  holds_rows ([n0; n1] ++ slot k) (n0 * n1) (size_of (slot k)) rows
    return_data ->
  let slice_chunk := [slice a0 b0; slice a1 b1; slice_all; slice_all] in
  window_fits a function k slice_chunk = false ->
  exists log',
    process_chunk a function k return_data slice_chunk log
    = (log', Err ValueError).
Proof using Hshape.
  intros H0 H1 Hrows slice_chunk Hfits.
  unfold window_fits in Hfits. unfold slice_chunk in *. clear slice_chunk.
  unfold process_chunk.
  rewrite (compute_window a n0 n1 s0 s1) by done.
  cbv [mbind traced_bind lift tell].
  cbn [length ds_shape]. unfold process_frames_2.
  cbn [ds_shape lookup_total list_lookup_total].
  set (G := row_at a function k n1).
  set (h := fun (rows : list (list float)) (im_slice : list nat) =>
              write_rows G
                [offset_of n1 (zip_with Nat.add [a0; a1] im_slice)] rows).
  set (ok := fun im_slice : list nat =>
               fits k (function
                         (frame_at a (zip_with Nat.add [a0; a1] im_slice)))).
  set (Q := fun im_slice : list nat =>
              exists i0 i1, im_slice = [i0; i1] /\
                (i0 < b0 - a0)%nat /\ (i1 < b1 - a1)%nat).
  match goal with
  | |- context [for_each_traced ?body ?l return_data ?log0] =>
      apply (for_each_traced_raises body
               (holds_rows ([n0; n1] ++ slot k) (n0 * n1)
                  (size_of (slot k)))
               h Q ok ValueError l) with (t := rows)
  end.
  - intros rows0 rd im_slice log0 Hrd (i0 & i1 & -> & Hi0 & Hi1) Hok.
    destruct (process_frame_row a0 b0 a1 b1 i0 i1 rows0 rd log0)
      as (rd' & Hrun & Hrd'); [lia|lia|done|done|done|done|].
    exists (log0 ++ [Invoke (frame_at a [a0 + i0; a1 + i1]%nat)]), rd'.
    by split.
  - intros rows0 rd im_slice log0 Hrd (i0 & i1 & -> & Hi0 & Hi1) Hok.
    eexists.
    apply (process_frame_raises a0 b0 a1 b1 i0 i1 rows0 rd log0);
      (done || lia).
  - apply Forall_forall. intros im_slice Him.
    by apply local_in_window.
  - rewrite <- coordinates_of_local in Hfits.
    apply forallb_false_Exists in Hfits.
    by apply Exists_fmap in Hfits.
  - done.
Qed.

End Driver.

(** *** The windows against the grid *)

Lemma elem_of_indices_2_intro (n0 n1 i j : nat) :
  (i < n0)%nat -> (j < n1)%nat -> [i; j] ∈ indices [n0; n1].
Proof.
  intros Hi Hj. eapply list_elem_of_lookup_2. by apply lookup_indices_2.
Qed.

Lemma lookup_indices_2_inv (n0 n1 p : nat) (c : list nat) :
  indices [n0; n1] !! p = Some c ->
  c = [p / n1; p mod n1]%nat /\ (p < n0 * n1)%nat.
Proof.
  intros Hc.
  assert (Hp : (p < n0 * n1)%nat)
    by (rewrite <- length_indices_2; by eapply lookup_lt_Some).
  split; [|done].
  assert (Hn1 : (0 < n1)%nat) by nia.
  assert (Hj : (p mod n1 < n1)%nat) by (apply Nat.mod_upper_bound; lia).
  assert (Hi : (p / n1 < n0)%nat)
    by (apply Nat.Div0.div_lt_upper_bound; lia).
  assert (Ep : p = (p / n1 * n1 + p mod n1)%nat)
    by (rewrite Nat.mul_comm; apply Nat.div_mod_eq).
  rewrite Ep, lookup_indices_2 in Hc by done. congruence.
Qed.

Lemma NoDup_indices_2 (n0 n1 : nat) : NoDup (indices [n0; n1]).
Proof.
  apply NoDup_alt. intros p q c Hp Hq.
  apply lookup_indices_2_inv in Hp as [-> Hp].
  apply lookup_indices_2_inv in Hq as [[= Hd Hm] Hq].
  rewrite (Nat.div_mod_eq p n1), (Nat.div_mod_eq q n1). congruence.
Qed.

Lemma table_of_rows {A} (F : list nat -> A) (n0 n1 : nat) :
  map (fun p => F [p / n1; p mod n1]%nat) (seq 0 (n0 * n1))
  = map F (indices [n0; n1]).
Proof.
  apply list_eq. intros p. rewrite !list_lookup_fmap.
  destruct (indices [n0; n1] !! p) as [c|] eqn:Hc.
  - apply lookup_indices_2_inv in Hc as [-> Hp].
    by rewrite lookup_seq_lt.
  - apply lookup_ge_None_1 in Hc. rewrite length_indices_2 in Hc.
    by rewrite lookup_ge_None_2 by (rewrite length_seq; lia).
Qed.

Lemma window_in_range (c0 c1 : list nat) (w : window) :
  w ∈ flat_map (fun outer => map (window_of outer) (boundary_pairs c1))
        (boundary_pairs c0) ->
  exists a0 b0 a1 b1,
    w = [slice a0 b0; slice a1 b1; slice_all; slice_all] /\
    (a0 <= b0 <= sum_list c0)%nat /\ (a1 <= b1 <= sum_list c1)%nat.
Proof.
  intros Hw.
  apply list_elem_of_In, in_flat_map in Hw
    as (outer & Houter%list_elem_of_In
        & (inner & <- & Hinner%list_elem_of_In)%in_map_iff).
  apply boundary_pairs_in_range in Houter, Hinner.
  by exists outer.1, outer.2, inner.1, inner.2.
Qed.

Lemma coordinates_in_grid (n0 n1 a0 b0 a1 b1 : nat) (c : list nat) :
  (b0 <= n0)%nat -> (b1 <= n1)%nat ->
  c ∈ coordinates_of [slice a0 b0; slice a1 b1; slice_all; slice_all] ->
  c ∈ indices [n0; n1].
Proof.
  intros H0 H1. cbn [coordinates_of].
  rewrite list_elem_of_In, in_flat_map.
  intros (i0 & Hi0%in_seq & (i1 & <- & Hi1%in_seq)%in_map_iff).
  apply elem_of_indices_2_intro; lia.
Qed.

(** Every coordinate of the grid belongs to some window. *)
Lemma coordinate_cover (c0 c1 : list nat) (i j : nat) :
  (i < sum_list c0)%nat -> (j < sum_list c1)%nat ->
  [i; j] ∈ flat_map coordinates_of
             (flat_map (fun outer =>
                          map (window_of outer) (boundary_pairs c1))
                       (boundary_pairs c0)).
Proof.
  intros Hi Hj.
  assert (Hi' : (i < sum_list (take (length c0) c0))%nat)
    by (by rewrite take_ge).
  assert (Hj' : (j < sum_list (take (length c1) c1))%nat)
    by (by rewrite take_ge).
  destruct (sum_list_take_cover _ _ _ Hi') as (u & _ & Hu & Hiu).
  destruct (sum_list_take_cover _ _ _ Hj') as (v & _ & Hv & Hjv).
  apply list_elem_of_In, in_flat_map.
  exists (window_of (sum_list (take u c0), sum_list (take (S u) c0))
                    (sum_list (take v c1), sum_list (take (S v) c1))).
  split.
  - apply in_flat_map. eexists. split.
    + apply list_elem_of_In. eapply list_elem_of_lookup_2.
      by apply lookup_boundary_pairs.
    + apply in_map, list_elem_of_In. eapply list_elem_of_lookup_2.
      by apply lookup_boundary_pairs.
  - cbn [window_of coordinates_of fst snd]. apply in_flat_map.
    exists (i - sum_list (take u c0))%nat. split.
    + apply in_seq. lia.
    + apply in_map_iff. exists (j - sum_list (take v c1))%nat.
      split; [f_equal; [lia | f_equal; lia] | apply in_seq; lia].
Qed.

Lemma widths_temp_slice_dim (chunk_list : list nat) (current_v : nat) :
  map (fun b => (b.2 - b.1)%nat) (temp_slice_dim current_v chunk_list)
  = chunk_list.
Proof.
  revert current_v.
  induction chunk_list as [|chunk rest IH]; intros current_v; [done|].
  cbn [temp_slice_dim map fst snd]. rewrite IH. f_equal. lia.
Qed.

Lemma length_coordinates_of_row (outer : nat * nat)
  (inners : list (nat * nat)) :
  length (flat_map coordinates_of (map (window_of outer) inners))
  = ((outer.2 - outer.1)
     * sum_list (map (fun b => (b.2 - b.1)%nat) inners))%nat.
Proof.
  induction inners as [|inner inners IH]; [cbn; lia|].
  cbn [map flat_map sum_list sum_list_with]. rewrite length_app, IH.
  cbn [window_of coordinates_of].
  rewrite (length_flat_map_uniform _ (inner.2 - inner.1)), length_seq
    by (intros i0; by rewrite length_map, length_seq).
  unfold id. lia.
Qed.

Lemma length_coordinates (c0 c1 : list nat) :
  length (flat_map coordinates_of
            (flat_map (fun outer =>
                         map (window_of outer) (boundary_pairs c1))
                      (boundary_pairs c0)))
  = (sum_list c0 * sum_list c1)%nat.
Proof.
  replace (sum_list c0)
    with (sum_list (map (fun b => (b.2 - b.1)%nat) (boundary_pairs c0)))
    by (by rewrite <- temp_slice_dim_boundary_pairs, widths_temp_slice_dim).
  replace (sum_list c1)
    with (sum_list (map (fun b => (b.2 - b.1)%nat) (boundary_pairs c1)))
    by (by rewrite <- temp_slice_dim_boundary_pairs, widths_temp_slice_dim).
  induction (boundary_pairs c0) as [|outer outers IH]; [done|].
  cbn [flat_map map sum_list sum_list_with].
  rewrite flat_map_app, length_app, IH, length_coordinates_of_row.
  unfold id. lia.
Qed.

(** The windows tile the grid: their coordinates, taken together, are the
    coordinates of the grid, each once. *)
Lemma coordinates_partition (c0 c1 : list nat) :
  flat_map coordinates_of
    (flat_map (fun outer => map (window_of outer) (boundary_pairs c1))
              (boundary_pairs c0))
  ≡ₚ indices [sum_list c0; sum_list c1].
Proof.
  symmetry. apply submseteq_length_Permutation.
  - apply NoDup_submseteq; [apply NoDup_indices_2|].
    intros c (i & j & -> & Hi & Hj)%elem_of_indices_2.
    by apply coordinate_cover.
  - by rewrite length_coordinates, length_indices_2.
Qed.

(** *** The driver on an array with two navigation axes *)

Lemma elem_of_forallb_false {A} (f : A -> bool) (l : list A) (x : A) :
  x ∈ l -> f x = false -> forallb f l = false.
Proof.
  intros Hx Hf. apply not_true_iff_false. rewrite forallb_forall.
  intros Hall. rewrite Hall in Hf by (by apply list_elem_of_In). done.
Qed.

Section Driver4.

Variable a : dask_array.
Variable function : frame -> frame_result.
Variable k : nat.
Variable show_progressbar : bool.
Variables n0 n1 s0 s1 : nat.
Variables c0 c1 k0 k1 : list nat.
Hypothesis Hshape : shape a = [n0; n1; s0; s1].
Hypothesis Hchunks : chunks a = [c0; c1; k0; k1].
Hypothesis Hc0 : sum_list c0 = n0.
Hypothesis Hc1 : sum_list c1 = n1.

Lemma zeros_rows :
  holds_rows ([n0; n1] ++ slot k) (n0 * n1) (size_of (slot k))
    (replicate (n0 * n1) (replicate (size_of (slot k)) 0))
    (zeros ([n0; n1] ++ slot k)).
Proof using Type.
  clear Hc0 Hc1. split; [|split].
  - unfold zeros. f_equal. rewrite mjoin_replicate_replicate. f_equal.
    cbn [app size_of foldr]. fold (size_of (slot k)). lia.
  - apply length_replicate.
  - apply Forall_replicate, length_replicate.
Qed.

Lemma out_shape_slot :
  (if (k =? 1)%nat then [n0; n1] else [n0; n1] ++ [k])
  = [n0; n1] ++ slot k.
Proof using Type. unfold slot. by destruct (k =? 1)%nat. Qed.

Lemma driver_start :
  run (_calculate_function_on_dask_array a function k show_progressbar)
  = for_each_traced (process_chunk a function k)
      (flat_map (fun outer => map (window_of outer) (boundary_pairs c1))
                (boundary_pairs c0))
      (zeros ([n0; n1] ++ slot k))
      [Allocate ([n0; n1] ++ slot k)].
Proof using Hshape Hchunks.
  assert (Hrank : length (shape a) = 4%nat) by (by rewrite Hshape).
  unfold _calculate_function_on_dask_array, run, unsupported_rank.
  rewrite Hrank. cbn [Nat.eqb Nat.ltb Nat.leb orb].
  rewrite (chunk_slice_list_rank_4 a c0 c1 k0 k1) by done.
  rewrite Hshape. change (but_last_two [n0; n1; s0; s1]) with [n0; n1].
  rewrite out_shape_slot. reflexivity.
Qed.

(** When every frame's result fits, the driver logs the allocation and
    then each window with its frames, and returns the rows of all
    coordinates. *)
Lemma driver_rows :
  (forall c, c ∈ indices [n0; n1] ->
     fits k (function (frame_at a c)) = true) ->
  run (_calculate_function_on_dask_array a function k show_progressbar)
  = (Allocate ([n0; n1] ++ slot k)
       :: flat_map (window_events a)
            (flat_map (fun outer =>
                         map (window_of outer) (boundary_pairs c1))
                      (boundary_pairs c0)),
     Ok (NdArray ([n0; n1] ++ slot k)
           (mjoin (map (fun c => values k (function (frame_at a c)))
                       (indices [n0; n1]))))).
Proof using Hshape Hchunks Hc0 Hc1.
  intros Hfits. rewrite driver_start.
  set (G := row_at a function k n1).
  set (h := fun (rows : list (list float)) (w : window) =>
              write_rows G (map (offset_of n1) (coordinates_of w)) rows).
  set (Q := fun w : window =>
              exists a0 b0 a1 b1,
                w = [slice a0 b0; slice a1 b1; slice_all; slice_all] /\
                (a0 <= b0 <= n0)%nat /\ (a1 <= b1 <= n1)%nat /\
                window_fits a function k w = true).
  match goal with
  | |- for_each_traced ?body ?l ?st ?log0 = _ =>
      destruct (for_each_traced_rows body
                  (holds_rows ([n0; n1] ++ slot k) (n0 * n1)
                     (size_of (slot k)))
                  h (window_events a) Q l)
        with (t := replicate (n0 * n1)
                     (replicate (size_of (slot k)) (0 : float)))
             (s := st) (log := log0)
        as (return_data & Hrun & (-> & _ & _))
  end.
  - intros rows rd w log0 Hrd (a0 & b0 & a1 & b1 & -> & H0 & H1 & Hw).
    by apply (process_window_rows a function k n0 n1 s0 s1 Hshape).
  - apply Forall_forall. intros w Hw.
    destruct (window_in_range _ _ _ Hw)
      as (a0 & b0 & a1 & b1 & -> & H0 & H1).
    rewrite Hc0 in H0. rewrite Hc1 in H1.
    exists a0, b0, a1, b1. split; [done|]. split; [done|]. split; [done|].
    unfold window_fits. apply forallb_forall. intros c Hc%list_elem_of_In.
    apply Hfits. by apply (coordinates_in_grid n0 n1 a0 b0 a1 b1); [lia..|].
  - apply zeros_rows.
  - rewrite Hrun. cbn [app]. do 4 f_equal. unfold h.
    rewrite (foldl_write_rows G
               (fun w => map (offset_of n1) (coordinates_of w))).
    rewrite write_rows_cover.
    + rewrite length_replicate.
      apply (table_of_rows
               (fun c => values k (function (frame_at a c))) n0 n1).
    + intros p Hp. rewrite length_replicate in Hp. subst n0 n1.
      by apply coordinates_cover.
Qed.

(** When some frame's result does not fit, the driver raises. *)
Lemma driver_raises (c : list nat) :
  c ∈ indices [n0; n1] ->
  fits k (function (frame_at a c)) = false ->
  exists log,
    run (_calculate_function_on_dask_array a function k show_progressbar)
    = (log, Err ValueError).
Proof using Hshape Hchunks Hc0 Hc1.
  intros Hc Hfit. rewrite driver_start.
  set (G := row_at a function k n1).
  set (h := fun (rows : list (list float)) (w : window) =>
              write_rows G (map (offset_of n1) (coordinates_of w)) rows).
  set (Q := fun w : window =>
              exists a0 b0 a1 b1,
                w = [slice a0 b0; slice a1 b1; slice_all; slice_all] /\
                (a0 <= b0 <= n0)%nat /\ (a1 <= b1 <= n1)%nat).
  apply (for_each_traced_raises (process_chunk a function k)
           (holds_rows ([n0; n1] ++ slot k) (n0 * n1) (size_of (slot k)))
           h Q (window_fits a function k) ValueError)
    with (t := replicate (n0 * n1) (replicate (size_of (slot k)) (0 : float))).
  - intros rows rd w log0 Hrd (a0 & b0 & a1 & b1 & -> & H0 & H1) Hw.
    destruct (process_window_rows a function k n0 n1 s0 s1 Hshape
                a0 b0 a1 b1 rows rd log0 H0 H1 Hrd Hw)
      as (rd' & Hrun & Hrd').
    eexists _, rd'. by split.
  - intros rows rd w log0 Hrd (a0 & b0 & a1 & b1 & -> & H0 & H1) Hw.
    by apply (process_window_raises a function k n0 n1 s0 s1 Hshape
                a0 b0 a1 b1 rows).
  - apply Forall_forall. intros w Hw.
    destruct (window_in_range _ _ _ Hw)
      as (a0 & b0 & a1 & b1 & -> & H0 & H1).
    rewrite Hc0 in H0. rewrite Hc1 in H1. by exists a0, b0, a1, b1.
  - apply elem_of_indices_2 in Hc as (i & j & -> & Hi & Hj).
    rewrite <- Hc0 in Hi. rewrite <- Hc1 in Hj.
    pose proof (coordinate_cover c0 c1 i j Hi Hj) as Hin.
    apply list_elem_of_In, in_flat_map in Hin as (w & Hw & Hcw).
    apply Exists_exists. exists w. split; [by apply list_elem_of_In|].
    unfold window_fits.
    by apply (elem_of_forallb_false _ _ [i; j]); [apply list_elem_of_In|].
  - apply zeros_rows.
Qed.

End Driver4.

Lemma rank_4_well_formed (a : dask_array) :
  length (shape a) = 4%nat -> well_formed a ->
  exists n0 n1 s0 s1 c0 c1 k0 k1,
    shape a = [n0; n1; s0; s1] /\ chunks a = [c0; c1; k0; k1] /\
    sum_list c0 = n0 /\ sum_list c1 = n1.
Proof.
  intros Hrank [Hlen Hsum].
  destruct a as [shp chk frames]. cbn [shape chunks frame_at] in *.
  destruct shp as [|n0 [|n1 [|s0 [|s1 [|? ?]]]]]; try done.
  destruct chk as [|c0 [|c1 [|k0 [|k1 [|? ?]]]]]; try done.
  apply Forall2_cons in Hsum as [Hc0 Hsum].
  apply Forall2_cons in Hsum as [Hc1 _].
  by exists n0, n1, s0, s1, c0, c1, k0, k1.
Qed.

Lemma invocations_window_events (a : dask_array) (ws : list window) :
  invocations (flat_map (window_events a) ws)
  = map (frame_at a) (flat_map coordinates_of ws).
Proof.
  unfold invocations. induction ws as [|w ws IH]; [done|].
  cbn [flat_map]. rewrite omap_app, map_app, IH. f_equal.
  unfold window_events. cbn [omap list_omap].
  induction (coordinates_of w) as [|c cs IHc]; [done|].
  cbn [map omap list_omap]. by rewrite <- IHc.
Qed.

Lemma materialized_window_events (a : dask_array) (ws : list window) :
  materialized (flat_map (window_events a) ws) = ws.
Proof.
  unfold materialized. induction ws as [|w ws IH]; [done|].
  cbn [flat_map]. rewrite omap_app, IH. unfold window_events.
  cbn [omap list_omap app].
  replace (omap _ (map _ (coordinates_of w))) with (@nil window); [done|].
  induction (coordinates_of w) as [|c cs IHc]; [done|].
  by cbn [map omap list_omap].
Qed.

Lemma values_vector (k : nat) (l : list float) :
  k <> 1%nat -> length l = k -> values k (RVector l) = l.
Proof.
  intros Hk%Nat.eqb_neq Hl.
  unfold values, stored, slot. rewrite Hk.
  - cbn [broadcast_to last].
    apply Nat.eqb_eq in Hl as Hl'. rewrite Hl'.
    cbn [size_of foldr]. rewrite Nat.mul_1_r.
    destruct k as [|k]; [by destruct l|].
    rewrite Nat.div_same by done. cbn [replicate].
    change (mjoin [l]) with (l ++ []). apply app_nil_r.
Qed.

Lemma values_scalar (k : nat) (x : float) :
  values k (RScalar x) = replicate (size_of (slot k)) x.
Proof. reflexivity. Qed.

(** ** [lazy_tools.py]: two navigation axes, in general *)

(** The windows [_get_dask_chunk_slice_list] returns for a well-formed
    array with two navigation axes tile the navigation grid: every
    navigation coordinate lies in exactly one window. *)
Theorem chunk_windows_tile_the_grid (a : dask_array) :
  length (shape a) = 4%nat ->
  well_formed a ->
  exists slice_list,
    _get_dask_chunk_slice_list a = Ok slice_list /\
    flat_map coordinates_of slice_list
    ≡ₚ indices (but_last_two (shape a)).
Proof.
  intros Hrank Hwf.
  destruct (rank_4_well_formed a Hrank Hwf)
    as (n0 & n1 & s0 & s1 & c0 & c1 & k0 & k1
        & Hshape & Hchunks & Hc0 & Hc1).
  eexists. split; [by apply (chunk_slice_list_rank_4 a c0 c1 k0 k1)|].
  rewrite Hshape. change (but_last_two [n0; n1; s0; s1]) with [n0; n1].
  subst n0 n1. apply coordinates_partition.
Qed.

Lemma chunk_windows_tile_the_grid_witness :
  exists slice_list,
    _get_dask_chunk_slice_list
      (DaskArray [3; 5; 2; 2]%nat [[1; 2]; [2; 0; 3]; [2]; [2]]%nat
                 (fun _ => []))
    = Ok slice_list /\
    flat_map coordinates_of slice_list ≡ₚ indices [3; 5]%nat.
Proof.
  apply (chunk_windows_tile_the_grid
           (DaskArray [3; 5; 2; 2]%nat [[1; 2]; [2; 0; 3]; [2]; [2]]%nat
                      (fun _ => []))).
  - reflexivity.
  - split; [reflexivity|]. repeat constructor.
Defined.

(** On a well-formed array with two navigation axes and a function whose
    results fit (numbers; or, for [return_sig_size] other than 1, arrays of
    [return_sig_size] elements or of one), the driver allocates the output
    once, brings each window
    into memory once, in the order of the list of windows, and after each
    window calls the function on the frames of that window: all in all,
    exactly once on the frame of every navigation coordinate. *)
Theorem driver_calls_function_once_per_frame
  (a : dask_array) (function : frame -> frame_result)
  (return_sig_size : nat) (show_progressbar : bool) :
  length (shape a) = 4%nat ->
  well_formed a ->
  (forall c, c ∈ indices (but_last_two (shape a)) ->
     fits return_sig_size (function (frame_at a c)) = true) ->
  exists slice_list,
    _get_dask_chunk_slice_list a = Ok slice_list /\
    let log :=
      (run (_calculate_function_on_dask_array a function return_sig_size
              show_progressbar)).1 in
    log = Allocate (but_last_two (shape a) ++ slot return_sig_size)
            :: flat_map (window_events a) slice_list /\
    materialized log = slice_list /\
    invocations log
    ≡ₚ map (frame_at a) (indices (but_last_two (shape a))).
Proof.
  intros Hrank Hwf Hfits.
  destruct (rank_4_well_formed a Hrank Hwf)
    as (n0 & n1 & s0 & s1 & c0 & c1 & k0 & k1
        & Hshape & Hchunks & Hc0 & Hc1).
  rewrite Hshape in Hfits |- *.
  change (but_last_two [n0; n1; s0; s1]) with [n0; n1] in *.
  eexists. split; [by apply (chunk_slice_list_rank_4 a c0 c1 k0 k1)|].
  rewrite (driver_rows a function return_sig_size show_progressbar
             n0 n1 s0 s1 c0 c1 k0 k1) by done.
  cbn [fst]. split; [done|]. split.
  - apply (materialized_window_events a).
  - change (invocations (?e :: ?l)) with (invocations l).
    rewrite invocations_window_events. apply fmap_Permutation.
    subst n0 n1. apply coordinates_partition.
Qed.

Lemma driver_calls_function_once_per_frame_witness :
  let a := DaskArray [3; 5; 2; 2]%nat [[1; 2]; [2; 0; 3]; [2]; [2]]%nat
                     (fun c => [map Float64.of_nat c]) in
  let function := fun im : frame => RVector [foldr PrimFloat.add 0 (mjoin im); 1] in
  exists slice_list,
    _get_dask_chunk_slice_list a = Ok slice_list /\
    let log :=
      (run (_calculate_function_on_dask_array a function 2 true)).1 in
    log = Allocate (but_last_two (shape a) ++ slot 2)
            :: flat_map (window_events a) slice_list /\
    materialized log = slice_list /\
    invocations log
    ≡ₚ map (frame_at a) (indices (but_last_two (shape a))).
Proof.
  intros a function.
  apply (driver_calls_function_once_per_frame a function 2 true).
  - reflexivity.
  - split; [reflexivity|]. repeat constructor.
  - intros c _. reflexivity.
Defined.

(** With [return_sig_size] other than 1, on a well-formed array with two
    navigation axes: when the function returns arrays of
    [return_sig_size] elements, the driver returns the array of shape
    (n0, n1, return_sig_size) that holds at each navigation coordinate
    the function's result on the frame stored there; when it returns
    numbers, each number fills the row of its coordinate. *)
Theorem driver_stores_rows
  (a : dask_array) (return_sig_size : nat) (show_progressbar : bool) :
  length (shape a) = 4%nat ->
  well_formed a ->
  return_sig_size <> 1%nat ->
  let nav := but_last_two (shape a) in
  (forall function : frame -> list float,
     (forall c, c ∈ indices nav ->
        length (function (frame_at a c)) = return_sig_size) ->
     (run (_calculate_function_on_dask_array
             a (fun im => RVector (function im)) return_sig_size
             show_progressbar)).2
     = Ok (NdArray (nav ++ [return_sig_size])
             (mjoin (map (fun c => function (frame_at a c))
                         (indices nav))))) /\
  (forall function : frame -> float,
     (run (_calculate_function_on_dask_array
             a (fun im => RScalar (function im)) return_sig_size
             show_progressbar)).2
     = Ok (NdArray (nav ++ [return_sig_size])
             (mjoin (map (fun c => replicate return_sig_size
                                     (function (frame_at a c)))
                         (indices nav))))).
Proof.
  intros Hrank Hwf Hk nav.
  destruct (rank_4_well_formed a Hrank Hwf)
    as (n0 & n1 & s0 & s1 & c0 & c1 & k0 & k1
        & Hshape & Hchunks & Hc0 & Hc1).
  unfold nav. rewrite Hshape.
  change (but_last_two [n0; n1; s0; s1]) with [n0; n1].
  assert (Hk' : (return_sig_size =? 1)%nat = false)
    by (by apply Nat.eqb_neq).
  assert (Hslot : slot return_sig_size = [return_sig_size]).
  { unfold slot. by rewrite Hk'. }
  split.
  - intros function Hlen.
    rewrite (driver_rows a _ return_sig_size show_progressbar
               n0 n1 s0 s1 c0 c1 k0 k1) by
      (try done; intros c Hc; cbn [fits];
       rewrite Hk', (Hlen c Hc), Nat.eqb_refl; done).
    cbn [snd]. rewrite Hslot. do 3 f_equal.
    apply list_eq. intros p. rewrite !list_lookup_fmap.
    destruct (indices [n0; n1] !! p) as [c|] eqn:Hc; [|done].
    cbn [fmap option_fmap option_map]. f_equal.
    apply values_vector; [done|]. apply Hlen.
    by eapply list_elem_of_lookup_2.
  - intros function.
    rewrite (driver_rows a _ return_sig_size show_progressbar
               n0 n1 s0 s1 c0 c1 k0 k1) by done.
    cbn [snd]. rewrite Hslot. do 3 f_equal.
    apply map_ext. intros c. rewrite values_scalar, Hslot.
    cbn [size_of foldr]. by rewrite Nat.mul_1_r.
Qed.

Lemma driver_stores_rows_witness :
  let a := DaskArray [3; 5; 2; 2]%nat [[1; 2]; [2; 0; 3]; [2]; [2]]%nat
                     (fun c => [map Float64.of_nat c]) in
  let nav := but_last_two (shape a) in
  (forall function : frame -> list float,
     (forall c, c ∈ indices nav ->
        length (function (frame_at a c)) = 2%nat) ->
     (run (_calculate_function_on_dask_array
             a (fun im => RVector (function im)) 2 false)).2
     = Ok (NdArray (nav ++ [2%nat])
             (mjoin (map (fun c => function (frame_at a c))
                         (indices nav))))) /\
  (forall function : frame -> float,
     (run (_calculate_function_on_dask_array
             a (fun im => RScalar (function im)) 2 false)).2
     = Ok (NdArray (nav ++ [2%nat])
             (mjoin (map (fun c => replicate 2 (function (frame_at a c)))
                         (indices nav))))).
Proof.
  intros a.
  apply (driver_stores_rows a 2 false).
  - reflexivity.
  - split; [reflexivity|]. repeat constructor.
  - lia.
Defined.

(** On a well-formed array with two navigation axes the driver returns
    exactly when the function's result fits at every navigation
    coordinate: a number; or, for [return_sig_size] other than 1, an array
    of [return_sig_size] elements or of one.  Otherwise it raises
    [ValueError]; so it does for any array, even of one element, when
    [return_sig_size] is 1. *)
Theorem driver_returns_iff_results_fit
  (a : dask_array) (function : frame -> frame_result)
  (return_sig_size : nat) (show_progressbar : bool) :
  length (shape a) = 4%nat ->
  well_formed a ->
  let r :=
    (run (_calculate_function_on_dask_array a function return_sig_size
            show_progressbar)).2 in
  (returns r <->
   forall c, c ∈ indices (but_last_two (shape a)) ->
     fits return_sig_size (function (frame_at a c)) = true) /\
  (forall e, r = Err e -> e = ValueError).
Proof.
  intros Hrank Hwf r.
  destruct (rank_4_well_formed a Hrank Hwf)
    as (n0 & n1 & s0 & s1 & c0 & c1 & k0 & k1
        & Hshape & Hchunks & Hc0 & Hc1).
  unfold r. rewrite Hshape.
  change (but_last_two [n0; n1; s0; s1]) with [n0; n1].
  destruct (forallb (fun c => fits return_sig_size (function (frame_at a c)))
                    (indices [n0; n1])) eqn:Hall.
  - rewrite forallb_forall in Hall.
    assert (Hfits : forall c, c ∈ indices [n0; n1] ->
              fits return_sig_size (function (frame_at a c)) = true)
      by (intros c Hc; by apply Hall, list_elem_of_In).
    rewrite (driver_rows a function return_sig_size show_progressbar
               n0 n1 s0 s1 c0 c1 k0 k1) by done.
    cbn [snd returns]. split; [done|]. by intros e.
  - apply forallb_false_Exists, Exists_exists in Hall
      as (c & Hc & Hfit).
    destruct (driver_raises a function return_sig_size show_progressbar
                n0 n1 s0 s1 c0 c1 k0 k1 Hshape Hchunks Hc0 Hc1 c Hc Hfit)
      as (log & ->).
    cbn [snd returns]. split; [|by intros e [= <-]].
    split; [done|]. intros Hfits. rewrite (Hfits c Hc) in Hfit. done.
Qed.

Lemma driver_returns_iff_results_fit_witness :
  (run (_calculate_function_on_dask_array
          (DaskArray [3; 5; 2; 2]%nat [[1; 2]; [2; 0; 3]; [2]; [2]]%nat
                     (fun c => [map Float64.of_nat c]))
          (fun im => RVector [foldr PrimFloat.add 0 (mjoin im)]) 1 true)).2
  = Err ValueError.
Proof.
  pose proof (driver_returns_iff_results_fit
                (DaskArray [3; 5; 2; 2]%nat
                           [[1; 2]; [2; 0; 3]; [2]; [2]]%nat
                           (fun c => [map Float64.of_nat c]))
                (fun im => RVector [foldr PrimFloat.add 0 (mjoin im)])
                1 true eq_refl
                ltac:(split; [reflexivity | repeat constructor]))
    as [Hiff Herr].
  destruct ((run (_calculate_function_on_dask_array _ _ 1 true)).2)
    as [return_data|e].
  - apply proj1 in Hiff.
    specialize (Hiff I [0; 0]%nat ltac:(apply list_elem_of_here)).
    discriminate Hiff.
  - f_equal. by apply Herr.
Defined.

End LazyToolsTraceProofs.
